(** * The symbolic arithmetic engine of computress-ai

    A shallow embedding of [src/symbolic_engine/operators.py] and
    [src/symbolic_engine/expression_eval.py]: the expression classes
    ([Symbol], [Add], [Subtract], [Multiply], [Divide], [Power]) with their
    [evaluate], [simplify], [__str__] and [__eq__] methods, the
    recursive-descent [Parser] and [ExpressionEvaluator.substitute]; and of
    their callers: the [Fibonacci] class, [GoldenRatio.nth_fibonacci_ratio]
    and the formulas of [Cube] in [src/symbolic_engine/sacred_geometry.py],
    and [USCLInterface.evaluate_expression] in
    [src/integration/uscl_interface.py].

    Python values are modelled as follows.
    - A call that may raise returns a [result]: [Ok v] or [Raise e].
    - An [int] is a [Z]; a [float] is an IEEE binary64 value, a canonical
      [spec_float]. What the engine decides about numbers is computed on
      them: the literals [int(token)] and [float(token)], the tests [== 0]
      and [== 1], integer arithmetic, and [int / int]. The rest of the
      interpreter's arithmetic (an operation with a float operand, a power
      with a negative exponent) and the [repr] of a float are the parameter
      [Host]; no statement below depends on what they compute.
    - A [str] is a [string] of ASCII characters, as the engine's inputs
      are. The interpreter's optional limit on the digits of an [int]
      literal, and [bool] as a kind of [int], are left out.
    - [**kwargs] and the substitution dict are [gmap]s keyed by name. *)

From Stdlib Require Import ZArith SpecFloat Ascii String DecimalString.
From Stdlib Require DecimalPos.
From stdpp Require Import gmap strings list.

Open Scope string_scope.

(** ** Exceptions and results *)

Inductive exn : Type :=
  | AttributeError (msg : string)
  | IndexError (msg : string)
  | ValueError (msg : string)
  | TypeError (msg : string)
  | ZeroDivisionError (msg : string)
  | OverflowError (msg : string).

Inductive result (A : Type) : Type :=
  | Ok (a : A)
  | Raise (e : exn).
Arguments Ok {A} a.
Arguments Raise {A} e.

#[global] Instance result_ret : MRet result := fun _ a => Ok a.
#[global] Instance result_bind : MBind result := fun _ _ f r =>
  match r with
  | Ok a => f a
  | Raise e => Raise e
  end.
#[global] Instance result_fmap : FMap result := fun _ _ f r =>
  match r with
  | Ok a => Ok (f a)
  | Raise e => Raise e
  end.

(** ** Numbers of the host *)

(** [numbers.Number] values the engine can meet: [int], [float], and
    [complex] (which only a float power can produce). *)
Inductive number : Type :=
  | PyInt (z : Z)
  | PyFloat (f : spec_float)
  | PyComplex (re im : spec_float).

Definition type_name (n : number) : string :=
  match n with
  | PyInt _ => "int"
  | PyFloat _ => "float"
  | PyComplex _ _ => "complex"
  end.

(** binary64 *)
Definition prec : Z := 53.
Definition emax : Z := 1024.

Definition float_of_Z (z : Z) : spec_float := binary_normalize prec emax z 0 false.

(** The exact quotient of two integers, rounded once to the nearest float
    (ties to even): what [int / int] and [float("ddd.ddd")] compute. *)
Definition round_quotient (a b : Z) : spec_float :=
  let unrounded (z : Z) :=
    match z with
    | Z0 => S754_zero false
    | Zpos p => S754_finite false p 0
    | Zneg p => S754_finite true p 0
    end in
  SFdiv prec emax (unrounded a) (unrounded b).

(** [n == k] for [k] 0 or 1 (which a float represents exactly): [-0.0]
    equals 0, a NaN equals nothing. *)
Definition py_eq_int (n : number) (k : Z) : bool :=
  match n with
  | PyInt z => (z =? k)%Z
  | PyFloat f => SFeqb f (float_of_Z k)
  | PyComplex re im => SFeqb re (float_of_Z k) && SFeqb im (S754_zero false)
  end.

(** What the interpreter computes once an operand is not an [int], and the
    [repr] of a float: host behaviour, not the engine's. *)
Class Host : Type := {
  host_sum : list number -> result number;
  host_sub : number -> number -> result number;
  host_mul : number -> number -> result number;
  host_truediv : number -> number -> result number;
  host_pow : number -> number -> result number;
  host_repr : number -> string
}.

Definition ints_of (values : list number) : option (list Z) :=
  mapM (fun v => match v with PyInt z => Some z | _ => None end) values.

Section HostArith.
Context `{Host}.

(** [sum(values)]: starts from the int [0]. *)
Definition py_sum (values : list number) : result number :=
  match ints_of values with
  | Some zs => Ok (PyInt (foldl Z.add 0%Z zs))
  | None => host_sum values
  end.

Definition py_sub (a b : number) : result number :=
  match a, b with
  | PyInt x, PyInt y => Ok (PyInt (x - y))
  | _, _ => host_sub a b
  end.

Definition py_mul (a b : number) : result number :=
  match a, b with
  | PyInt x, PyInt y => Ok (PyInt (x * y))
  | _, _ => host_mul a b
  end.

(** [a / b]: true division; two ints give the correctly rounded float, or
    [OverflowError] when it is out of range. *)
Definition py_truediv (a b : number) : result number :=
  match a, b with
  | PyInt x, PyInt y =>
      if (y =? 0)%Z then Raise (ZeroDivisionError "division by zero")
      else
        match round_quotient x y with
        | S754_infinity _ =>
            Raise (OverflowError "integer division result too large for a float")
        | q => Ok (PyFloat q)
        end
  | _, _ => host_truediv a b
  end.

(** [a ** b]: exact on ints with a non-negative exponent. *)
Definition py_pow (a b : number) : result number :=
  match a, b with
  | PyInt x, PyInt y => if (0 <=? y)%Z then Ok (PyInt (x ^ y)) else host_pow a b
  | _, _ => host_pow a b
  end.
End HostArith.

(** [str(n)]: an int in decimal, anything else as the host prints it. *)
Definition str_of_int (z : Z) : string := NilZero.string_of_int (Z.to_int z).

Definition py_str `{Host} (n : number) : string :=
  match n with
  | PyInt z => str_of_int z
  | _ => host_repr n
  end.

(** ** Expression trees *)

Inductive kind : Type := Add | Subtract | Multiply | Divide | Power.

#[global] Instance kind_eq_dec : EqDecision kind.
Proof. solve_decision. Defined.

(** What a variable of the engine can hold: a plain number of the host
    (the parser produces them for numeric literals), a [Symbol], or an
    instance of a [SymbolicOperator] subclass with its [args] list. *)
#[local] Unset Elimination Schemes.
Inductive expr : Type :=
  | Num (n : number)
  | Symbol (name : string)
  | Operator (k : kind) (args : list expr).
#[local] Set Elimination Schemes.

(** [isinstance(e, numbers.Number)], [isinstance(e, SymbolicOperator)] *)
Definition is_number (e : expr) : bool :=
  match e with Num _ => true | _ => false end.

Definition is_operator (e : expr) : bool :=
  match e with Operator _ _ => true | _ => false end.

(** [isinstance(arg, numbers.Number) and arg == k] *)
Definition is_number_eq (k : Z) (e : expr) : bool :=
  match e with Num n => py_eq_int n k | _ => false end.

(** A call with the wrong number of positional arguments (the text of the
    host's message is not modelled). *)
Definition arguments_error : exn := TypeError "wrong number of positional arguments".

(** [cls( *args )]: [SymbolicOperator.__init__] refuses an empty argument
    list; [Subtract], [Divide] and [Power] declare [__init__(self, left,
    right)], so any other number of arguments is a [TypeError]. *)
Definition construct (k : kind) (args : list expr) : result expr :=
  match k with
  | Add | Multiply =>
      match args with
      | [] => Raise (ValueError "Operator must have at least one argument.")
      | _ => Ok (Operator k args)
      end
  | Subtract | Divide | Power =>
      match args with
      | [_; _] => Ok (Operator k args)
      | _ => Raise arguments_error
      end
  end.

(** The trees Python can build: every operator node went through
    [construct]. *)
Definition arity_ok (k : kind) (n : nat) : bool :=
  match k with
  | Add | Multiply => negb (n =? 0)%nat
  | Subtract | Divide | Power => (n =? 2)%nat
  end.

Fixpoint well_formed (e : expr) : bool :=
  match e with
  | Num _ | Symbol _ => true
  | Operator k args => arity_ok k (length args) && forallb well_formed args
  end.

(** ** Tokenizer *)

Definition is_digit (c : ascii) : bool :=
  let n := nat_of_ascii c in (48 <=? n)%nat && (n <=? 57)%nat.

Definition is_alpha (c : ascii) : bool :=
  let n := nat_of_ascii c in
  ((65 <=? n)%nat && (n <=? 90)%nat) || ((97 <=? n)%nat && (n <=? 122)%nat).

Definition is_ident_start (c : ascii) : bool := is_alpha c || Ascii.eqb c "_".

Definition is_ident_char (c : ascii) : bool :=
  is_alpha c || is_digit c || Ascii.eqb c "_".

Definition is_op_char (c : ascii) : bool :=
  existsb (Ascii.eqb c) ["+"; "-"; "*"; "/"; "^"; "("; ")"]%char.

(** The longest prefix of [s] whose characters satisfy [p], and the rest. *)
Fixpoint span (p : ascii -> bool) (s : string) : string * string :=
  match s with
  | EmptyString => (EmptyString, EmptyString)
  | String c rest =>
      if p c then let '(a, b) := span p rest in (String c a, b)
      else (EmptyString, s)
  end.

(** The three alternatives of [token_pattern], each matched at the start
    of [s]: the match and what follows it. *)
Definition match_number (s : string) : option (string * string) :=
  let '(int_part, r1) := span is_digit s in
  match int_part with
  | EmptyString => None
  | _ =>
      match r1 with
      | String c r2 =>
          if Ascii.eqb c "." then
            let '(frac, r3) := span is_digit r2 in
            Some (int_part ++ String c frac, r3)
          else Some (int_part, r1)
      | EmptyString => Some (int_part, r1)
      end
  end.

Definition match_identifier (s : string) : option (string * string) :=
  match s with
  | String c rest =>
      if is_ident_start c then
        let '(tail, r) := span is_ident_char rest in Some (String c tail, r)
      else None
  | EmptyString => None
  end.

Definition match_operator (s : string) : option (string * string) :=
  match s with
  | String c rest => if is_op_char c then Some (String c EmptyString, rest) else None
  | EmptyString => None
  end.

Definition match_token (s : string) : option (string * string) :=
  match match_number s with
  | Some m => Some m
  | None =>
      match match_identifier s with
      | Some m => Some m
      | None => match_operator s
      end
  end.

(** [re.findall(token_pattern, s)]: scan left to right; where the pattern
    matches, keep the match and go on after it; where it does not, move on
    by one character. [fuel] bounds the number of steps. *)
Fixpoint findall (fuel : nat) (s : string) : list string :=
  match fuel with
  | O => []
  | S fuel' =>
      match s with
      | EmptyString => []
      | String _ rest =>
          match match_token s with
          | Some (tok, rest') => tok :: findall fuel' rest'
          | None => findall fuel' rest
          end
      end
  end.

(** [expression.replace(' ', '')] *)
Fixpoint remove_spaces (s : string) : string :=
  match s with
  | EmptyString => EmptyString
  | String c rest =>
      if Ascii.eqb c " " then remove_spaces rest else String c (remove_spaces rest)
  end.

Definition tokenize (expression : string) : list string :=
  let s := remove_spaces expression in findall (String.length s) s.

(** ** Parser *)

(** [token.isdigit()], [token.isalpha()], ['.' in token] *)
Definition all_chars (p : ascii -> bool) (s : string) : bool :=
  forallb p (list_ascii_of_string s).

Definition isdigit (token : string) : bool :=
  negb (String.eqb token EmptyString) && all_chars is_digit token.

Definition isalpha (token : string) : bool :=
  negb (String.eqb token EmptyString) && all_chars is_alpha token.

Definition has_dot (token : string) : bool :=
  existsb (Ascii.eqb ".") (list_ascii_of_string token).

(** The value of a string of decimal digits. *)
Definition digits_value (s : string) : Z :=
  foldl (fun acc c => (10 * acc + Z.of_nat (nat_of_ascii c - 48))%Z) 0%Z
        (list_ascii_of_string s).

(** [int(token)], on the strings [isdigit] accepts. *)
Definition py_int (token : string) : result number :=
  if isdigit token then Ok (PyInt (digits_value token))
  else Raise (ValueError ("invalid literal for int() with base 10: '" ++ token ++ "'")).

(** [float(token)], on the tokens with a point the tokenizer produces:
    digits, a point, digits. The value is the decimal rounded once. *)
Definition py_float (token : string) : result number :=
  let '(int_part, r) := span is_digit token in
  let bad := Raise (ValueError ("could not convert string to float: '" ++ token ++ "'")) in
  match r with
  | String c frac =>
      if Ascii.eqb c "." && all_chars is_digit frac
         && negb (String.eqb (int_part ++ frac) EmptyString)
      then Ok (PyFloat (round_quotient (digits_value (int_part ++ frac))
                                       (10 ^ Z.of_nat (String.length frac))))
      else bad
  | EmptyString => bad
  end.

(** The parser object: [self.tokens] and the read cursor [self.pos]. *)
Record Parser : Type := { tokens : list string; pos : nat }.

(** A method of [Parser]: it reads and moves the cursor, and returns or
    raises. [None] stands for a recursion cut short by the fuel of the
    model; it is never the outcome of [parse] (see [parse_total]). *)
Definition M (A : Type) : Type := Parser -> option (result (A * Parser)).

#[global] Instance M_ret : MRet M := fun _ a st => Some (Ok (a, st)).
#[global] Instance M_bind : MBind M := fun _ _ f m st =>
  match m st with
  | Some (Ok (a, st')) => f a st'
  | Some (Raise e) => Some (Raise e)
  | None => None
  end.

Definition raise {A} (e : exn) : M A := fun _ => Some (Raise e).
Definition out_of_fuel {A} : M A := fun _ => None.
Definition lift {A} (r : result A) : M A := fun st =>
  match r with
  | Ok a => Some (Ok (a, st))
  | Raise e => Some (Raise e)
  end.

(** [self.tokens[self.pos]] behind the guard [self.pos < len(self.tokens)] *)
Definition peek : M (option string) := fun st => Some (Ok (tokens st !! pos st, st)).

(** [self.tokens[self.pos]] with no guard: out of range is an [IndexError] *)
Definition read : M string := fun st =>
  match tokens st !! pos st with
  | Some token => Some (Ok (token, st))
  | None => Some (Raise (IndexError "list index out of range"))
  end.

(** [self.pos += 1] *)
Definition advance : M unit := fun st =>
  Some (Ok (tt, {| tokens := tokens st; pos := S (pos st) |})).

Definition is_one_of (ops : list string) (token : string) : bool :=
  existsb (String.eqb token) ops.

Fixpoint expression (fuel : nat) : M expr :=
  match fuel with
  | O => out_of_fuel
  | S n => left ← term n; expression_while n left
  end
with expression_while (fuel : nat) (left : expr) : M expr :=
  match fuel with
  | O => out_of_fuel
  | S n =>
      next ← peek;
      match next with
      | Some op =>
          if is_one_of ["+"; "-"] op then
            advance;;
            right ← term n;
            left' ← lift (if String.eqb op "+" then construct Add [left; right]
                          else construct Subtract [left; right]);
            expression_while n left'
          else mret left
      | None => mret left
      end
  end
with term (fuel : nat) : M expr :=
  match fuel with
  | O => out_of_fuel
  | S n => left ← power n; term_while n left
  end
with term_while (fuel : nat) (left : expr) : M expr :=
  match fuel with
  | O => out_of_fuel
  | S n =>
      next ← peek;
      match next with
      | Some op =>
          if is_one_of ["*"; "/"] op then
            advance;;
            right ← power n;
            left' ← lift (if String.eqb op "*" then construct Multiply [left; right]
                          else construct Divide [left; right]);
            term_while n left'
          else mret left
      | None => mret left
      end
  end
with power (fuel : nat) : M expr :=
  match fuel with
  | O => out_of_fuel
  | S n =>
      left ← factor n;
      next ← peek;
      match next with
      | Some op =>
          if String.eqb op "^" then
            advance;;
            right ← power n;
            lift (construct Power [left; right])
          else mret left
      | None => mret left
      end
  end
with factor (fuel : nat) : M expr :=
  match fuel with
  | O => out_of_fuel
  | S n =>
      token ← read;
      advance;;
      if String.eqb token "(" then
        e ← expression n;
        next ← peek;
        match next with
        | Some closing =>
            if String.eqb closing ")" then advance;; mret e
            else raise (ValueError "Mismatched parentheses")
        | None => raise (ValueError "Mismatched parentheses")
        end
      else if isdigit token || has_dot token then
        lift (Num <$> (if has_dot token then py_float token else py_int token))
      else if isalpha token then mret (Symbol token)
      else raise (ValueError ("Invalid token: " ++ token))
  end.

(** Fuel that always suffices: four nested calls per token, and six to
    reach the first one. *)
Definition parse_fuel (toks : list string) : nat := 4 * length toks + 6.

(** [Parser.parse]: tokenize, parse an expression from position 0, and
    refuse whatever token is left. *)
Definition parse (expression_text : string) : option (result expr) :=
  let st := {| tokens := tokenize expression_text; pos := 0 |} in
  match expression (parse_fuel (tokens st)) st with
  | Some (Ok (e, st')) =>
      match tokens st' !! pos st' with
      | Some token => Some (Raise (ValueError ("Unexpected token: " ++ token)))
      | None => Some (Ok e)
      end
  | Some (Raise e) => Some (Raise e)
  | None => None
  end.

(** ** Rendering, evaluation, simplification, substitution *)

(** What a caller can bind to a name in [**kwargs]: an [int] or a [float],
    or any other object. *)
Inductive pyobject : Type :=
  | PyNumber (n : number)
  | PyOther.

(** [a, b = values] with a list that has not two elements. *)
Definition unpack_error (values : list expr) : exn :=
  if (length values <? 2)%nat then
    ValueError ("not enough values to unpack (expected 2, got "
                ++ str_of_int (Z.of_nat (length values)) ++ ")")
  else ValueError "too many values to unpack (expected 2)".

(** [Multiply._op]: [result = 1], then [result *= v] for each value. *)
Fixpoint product `{Host} (acc : number) (values : list number) : result number :=
  match values with
  | [] => Ok acc
  | v :: values' => acc' ← py_mul acc v; product acc' values'
  end.

Definition numbers_in (es : list expr) : list number :=
  flat_map (fun e => match e with Num n => [n] | _ => [] end) es.

Section Engine.
Context `{Host}.

(** [__str__] of each class; [str] of a number. *)
Fixpoint str (e : expr) : result string :=
  match e with
  | Num n => Ok (py_str n)
  | Symbol name => Ok name
  | Operator k args =>
      let joined (sep : string) :=
        parts ← mapM (fun arg =>
                        s ← str arg;
                        Ok (if is_operator arg then "(" ++ s ++ ")" else s)) args;
        Ok (String.concat sep parts) in
      let both (sep : string) :=
        match args with
        | [lhs; rhs] =>
            l ← str lhs; r ← str rhs; Ok ("(" ++ l ++ ")" ++ sep ++ "(" ++ r ++ ")")
        | _ => Raise (unpack_error args)
        end in
      match k with
      | Add => joined " + "
      | Multiply => joined " * "
      | Subtract => both " - "
      | Divide => both " / "
      | Power => both "^"
      end
  end.

(** [_op] of each class, on the numeric values of the operands. *)
Definition _op (k : kind) (values : list number) : result number :=
  match k with
  | Add => py_sum values
  | Multiply => product (PyInt 1) values
  | Subtract =>
      match values with
      | [lhs; rhs] => py_sub lhs rhs
      | _ => Raise arguments_error
      end
  | Divide =>
      match values with
      | [numerator; denominator] =>
          if py_eq_int denominator 0 then Raise (ZeroDivisionError "Division by zero.")
          else py_truediv numerator denominator
      | _ => Raise arguments_error
      end
  | Power =>
      match values with
      | [base; exponent] => py_pow base exponent
      | _ => Raise arguments_error
      end
  end.

Definition no_attribute {A} (n : number) (attr : string) : result A :=
  Raise (AttributeError ("'" ++ type_name n ++ "' object has no attribute '" ++ attr ++ "'")).

(** [Symbol.evaluate] *)
Definition Symbol_evaluate (kwargs : gmap string pyobject) (name : string) : result expr :=
  match kwargs !! name with
  | Some (PyNumber (PyInt z)) => Ok (Num (PyInt z))
  | Some (PyNumber (PyFloat f)) => Ok (Num (PyFloat f))
  | Some _ => Raise (ValueError ("Value for symbol '" ++ name ++ "' must be numeric."))
  | None => Ok (Symbol name)
  end.

(** [e.evaluate( **kwargs )]: a number has no such method; a symbol looks
    itself up; an operator evaluates its operands from left to right and
    then either computes or rebuilds. *)
Fixpoint evaluate (kwargs : gmap string pyobject) (e : expr) : result expr :=
  match e with
  | Num n => no_attribute n "evaluate"
  | Symbol name => Symbol_evaluate kwargs name
  | Operator k args =>
      evaluated_args ← mapM (evaluate kwargs) args;
      if forallb is_number evaluated_args then
        match _op k (numbers_in evaluated_args) with
        | Ok v => Ok (Num v)
        | Raise (ZeroDivisionError _) =>
            s ← str e; Raise (ZeroDivisionError ("Division by zero in " ++ s))
        | Raise err => Raise err
        end
      else construct k evaluated_args
  end.

(** [e.simplify()] *)
Fixpoint simplify (e : expr) : result expr :=
  match e with
  | Num n => no_attribute n "simplify"
  | Symbol name => Ok e
  | Operator k args =>
      simplified_args ← mapM simplify args;
      match k with
      | Add =>
          let non_zero := List.filter (fun arg => negb (is_number_eq 0 arg)) simplified_args in
          match non_zero with
          | [] => Ok (Num (PyInt 0))
          | [only] => Ok only
          | _ => construct Add non_zero
          end
      | Multiply =>
          if existsb (is_number_eq 0) simplified_args then Ok (Num (PyInt 0))
          else
            let non_one := List.filter (fun arg => negb (is_number_eq 1 arg)) simplified_args in
            match non_one with
            | [] => Ok (Num (PyInt 1))
            | [only] => Ok only
            | _ => construct Multiply non_one
            end
      | Power =>
          match simplified_args with
          | [base; exp] =>
              if is_number_eq 1 exp then Ok base
              else if is_number_eq 0 exp then Ok (Num (PyInt 1))
              else if is_number_eq 1 base then Ok (Num (PyInt 1))
              else construct k simplified_args
          | _ => Raise (unpack_error simplified_args)
          end
      | Subtract | Divide => construct k simplified_args
      end
  end.
End Engine.

(** [ExpressionEvaluator.substitute]: a [Symbol] whose name is a key is
    replaced by the mapped value; an object with [args] is rebuilt by its
    own class from the substituted operands; anything else is returned as
    it is. *)
Fixpoint substitute (e : expr) (substitutions : gmap string expr) : result expr :=
  match e with
  | Symbol name =>
      match substitutions !! name with
      | Some replacement => Ok replacement
      | None => Ok e
      end
  | Operator k args =>
      new_args ← mapM (fun arg => substitute arg substitutions) args;
      construct k new_args
  | Num _ => Ok e
  end.

(** ** Shapes of trees the statements speak about *)

(** No free symbol: every leaf is a number. *)
Fixpoint closed (e : expr) : bool :=
  match e with
  | Num _ => true
  | Symbol _ => false
  | Operator _ args => forallb closed args
  end.

(** Some leaf is a number. *)
Fixpoint has_number (e : expr) : bool :=
  match e with
  | Num _ => true
  | Symbol _ => false
  | Operator _ args => existsb has_number args
  end.

(** [**kwargs] binding each listed name to an int. *)
Definition int_bindings (l : list (string * Z)) : gmap string pyobject :=
  list_to_map (map (fun '(name, z) => (name, PyNumber (PyInt z))) l).

(** Substitution as the specification words it: a symbol whose name is a
    key becomes the mapped expression, any other symbol and any number
    stays, and an operator keeps its kind over the substituted operands. *)
Fixpoint substitute_spec (e : expr) (m : gmap string expr) : expr :=
  match e with
  | Num n => Num n
  | Symbol name => default (Symbol name) (m !! name)
  | Operator k args => Operator k (map (fun arg => substitute_spec arg m) args)
  end.

(** A token as the pattern of the tokenizer defines it: one alternative
    matches the whole string. *)
Definition is_token (t : string) : bool :=
  match match_token t with
  | Some (_, EmptyString) => true
  | _ => false
  end.

(** A character that can occur in a token. *)
Definition token_char (c : ascii) : bool :=
  is_digit c || is_ident_start c || is_op_char c || Ascii.eqb c ".".

(** A character that begins a token, or white space: what the
    specification lets a well-formed input consist of. *)
Definition begins_token_or_space (c : ascii) : bool :=
  is_digit c || is_ident_start c || is_op_char c
  || existsb (Ascii.eqb c) [" "; "009"; "010"; "011"; "012"; "013"]%char.

(** The string is one numeric literal: digits, then possibly a point and
    more digits. *)
Definition is_number_literal (s : string) : bool :=
  match match_number s with
  | Some (_, EmptyString) => true
  | _ => false
  end.

(** The string is one identifier: a letter or underscore, then letters,
    digits and underscores. *)
Definition is_identifier (s : string) : bool :=
  match match_identifier s with
  | Some (_, EmptyString) => true
  | _ => false
  end.

(** The outcome of [simplify], by the leaves of the tree: a numeric leaf
    makes it raise; a tree of symbols only simplifies to one. *)
Definition simplify_outcome `{Host} (e : expr) : Prop :=
  well_formed e = true ->
  if has_number e then exists n, simplify e = no_attribute n "simplify"
  else exists e', simplify e = Ok e' /\ has_number e' = false /\ well_formed e' = true.

(** The parser after [self.pos += 1], and the tokens left to read. *)
Definition advanced (st : Parser) : Parser :=
  {| tokens := tokens st; pos := S (pos st) |}.

Definition remaining (st : Parser) : nat := length (tokens st) - pos st.

(** A method call that did not run out of fuel: it raised, or it returned
    with the same tokens and the cursor moved on by at least [d], still
    within the list. *)
Definition progresses (d : nat) (st : Parser) (r : option (result (expr * Parser))) : Prop :=
  match r with
  | None => False
  | Some (Raise _) => True
  | Some (Ok (_, st')) =>
      tokens st' = tokens st /\ pos st + d <= pos st' /\ pos st' <= length (tokens st)
  end.

(** A method call returned a tree Python can build, if it returned. *)
Definition returns_well_formed (r : option (result (expr * Parser))) : Prop :=
  match r with
  | Some (Ok (e, _)) => well_formed e = true
  | _ => True
  end.

Ltac cursor_arith :=
  unfold remaining, advanced in *; cbn [tokens pos] in *; lia.

Ltac returned :=
  unfold progresses, remaining, advanced in *; cbn [tokens pos] in *;
  repeat split; [congruence | lia | lia].

(** ** Further definitions: the parser without its fuel *)

(** The tokens from the cursor on. *)
Definition upcoming (st : Parser) : list string := drop (pos st) (tokens st).

(** A method call with enough fuel: by [fuel_monotone] its outcome does not
    depend on how much more there is. *)
Definition runs (f : nat -> M expr) (st : Parser) (r : result (expr * Parser)) : Prop :=
  exists n, f n st = Some r.

(** The next token, if there is one, is none of [ops]. *)
Definition not_next (ops rest : list string) : bool :=
  match rest with
  | [] => true
  | t :: _ => negb (is_one_of ops t)
  end.

(** The method [f] reads the tokens [ts] as the tree [e]: wherever they are
    the upcoming tokens, followed by none of [ops], it returns [e] with the
    cursor behind them. *)
Definition reads (ops : list string) (f : nat -> M expr) (ts : list string) (e : expr) : Prop :=
  forall st rest,
    upcoming st = (ts ++ rest)%list -> not_next ops rest = true ->
    exists st', runs f st (Ok (e, st')) /\ tokens st' = tokens st /\ upcoming st' = rest.

(** [f] reads [ts] as the left operand [e] of its loop: the call goes on
    as the loop does from behind the tokens. *)
Definition reads_then (ops : list string) (f : nat -> M expr) (loop : nat -> expr -> M expr)
    (ts : list string) (e : expr) : Prop :=
  forall st rest,
    upcoming st = (ts ++ rest)%list -> not_next ops rest = true ->
    exists st', tokens st' = tokens st /\ upcoming st' = rest
                /\ forall r, runs (fun n => loop n e) st' r -> runs f st r.

(** The tokens from position [a] up to position [b]. *)
Definition between (a b : nat) (l : list string) : list string := take (b - a) (drop a l).

(** What [factor] makes of a token that is not an open parenthesis. *)
Definition leaf (token : string) : result expr :=
  if isdigit token || has_dot token then
    Num <$> (if has_dot token then py_float token else py_int token)
  else if isalpha token then Ok (Symbol token)
  else Raise (ValueError ("Invalid token: " ++ token)).

(** ** Further definitions: the trees the parser builds, and their tokens *)

(** Every operator has two operands, every symbol is a name of letters,
    every int is not negative: the trees [parse] returns. *)
Fixpoint parser_shaped (e : expr) : bool :=
  match e with
  | Num (PyInt z) => (0 <=? z)%Z
  | Num (PyFloat _) => true
  | Num (PyComplex _ _) => false
  | Symbol name => isalpha name
  | Operator _ [a; b] => parser_shaped a && parser_shaped b
  | Operator _ _ => false
  end.

Fixpoint has_float (e : expr) : bool :=
  match e with
  | Num (PyInt _) => false
  | Num _ => true
  | Symbol _ => false
  | Operator _ args => existsb has_float args
  end.

Definition op_symbol (k : kind) : string :=
  match k with
  | Add => "+"
  | Subtract => "-"
  | Multiply => "*"
  | Divide => "/"
  | Power => "^"
  end.

(** An operand as [__str__] writes it, in tokens: [Add] and [Multiply] put
    parentheses around an operator, the other classes around everything. *)
Definition operand_tokens (k : kind) (x : expr) (tx : list string) : list string :=
  match k with
  | Add | Multiply => if is_operator x then "(" :: tx ++ [")"] else tx
  | Subtract | Divide | Power => "(" :: tx ++ [")"]
  end.

(** The tokens of the rendering of a tree with two operands per operator
    and no float. *)
Fixpoint tokens_of (e : expr) : list string :=
  match e with
  | Num (PyInt z) => [str_of_int z]
  | Num _ => []
  | Symbol name => [name]
  | Operator k [a; b] =>
      operand_tokens k a (tokens_of a) ++ op_symbol k :: operand_tokens k b (tokens_of b)
  | Operator _ _ => []
  end.

(** A character with which a token begins. *)
Definition begins_token (c : ascii) : bool :=
  is_digit c || is_ident_start c || is_op_char c.

(** What may follow a token in a rendering: nothing, or an operator or a
    parenthesis. *)
Definition continues (k : string) : bool :=
  match k with
  | EmptyString => true
  | String c _ => is_op_char c
  end.

(** [re.findall(token_pattern, s)] with the fuel [tokenize] gives it. *)
Definition scan (s : string) : list string := findall (String.length s) s.

(** The text [x], without spaces, scans to the tokens [ts], whatever
    operator or parenthesis follows it. *)
Definition renders_as (x : string) (ts : list string) : Prop :=
  forall k, continues k = true -> scan (x ++ k) = (ts ++ scan k)%list.

(** The rendering of a node with two operands, from those of the operands. *)
Definition operand_text (k : kind) (x : expr) (sx : string) : string :=
  match k with
  | Add | Multiply => if is_operator x then "(" ++ sx ++ ")" else sx
  | Subtract | Divide | Power => "(" ++ sx ++ ")"
  end.

Definition separator (k : kind) : string :=
  match k with
  | Add => " + "
  | Subtract => " - "
  | Multiply => " * "
  | Divide => " / "
  | Power => "^"
  end.

(** Which of the five operators a token is, case by case. *)
Ltac operator_cases :=
  intros t; unfold is_one_of; cbn [existsb];
  destruct (String.eqb t "+"), (String.eqb t "-"), (String.eqb t "*"),
    (String.eqb t "/"), (String.eqb t "^"); cbn [orb]; intros; congruence.

(** ** Further definitions: what the parser returns and what it raises *)

(** The exceptions of the parser's own: the unguarded read of [factor],
    and its two [ValueError]s. *)
Definition parse_error (toks : list string) (err : exn) : Prop :=
  err = IndexError "list index out of range"
  \/ err = ValueError "Mismatched parentheses"
  \/ exists t, t ∈ toks /\ isalpha t = false /\ err = ValueError ("Invalid token: " ++ t).

(** A method call that did not run out of fuel returned a tree of the
    parser's shape, the tokens untouched, or raised one of the parser's
    exceptions. *)
Definition outcome (st : Parser) (r : option (result (expr * Parser))) : Prop :=
  match r with
  | None => True
  | Some (Ok (e, st')) => tokens st' = tokens st /\ parser_shaped e = true
  | Some (Raise err) => parse_error (tokens st) err
  end.

(** A token [factor] turns into a number. *)
Definition numeric_token (t : string) : bool := isdigit t || has_dot t.

(** A method call that returned moved the cursor forward over the tokens
    of its tree: the tree has a number exactly when the left operand it
    started from had one or a token it read is numeric. *)
Definition reads_numbers (left_has : bool) (st : Parser)
    (r : option (result (expr * Parser))) : Prop :=
  match r with
  | Some (Ok (e, st')) =>
      tokens st' = tokens st /\ pos st <= pos st'
      /\ has_number e
         = left_has || existsb numeric_token (between (pos st) (pos st') (tokens st))
  | _ => True
  end.

(** ** Further definitions: the grammar of the parser *)

(** The four methods, from the tightest to the loosest. *)
Inductive level : Type := Factor | PowerLevel | Term | Expression.

(** The grammar the four methods implement, on texts without spaces:
    [+ - * /] nest to the left, [^] to the right, and a parenthesis starts
    over. *)
Inductive derives : level -> string -> expr -> Prop :=
  | derives_name (name : string) :
      isalpha name = true -> derives Factor name (Symbol name)
  | derives_int (t : string) :
      isdigit t = true -> derives Factor t (Num (PyInt (digits_value t)))
  | derives_float (int_part frac : string) :
      isdigit int_part = true -> all_chars is_digit frac = true ->
      derives Factor (int_part ++ "." ++ frac)
              (Num (PyFloat (round_quotient (digits_value (int_part ++ frac))
                                            (10 ^ Z.of_nat (String.length frac)))))
  | derives_parenthesis (s : string) (e : expr) :
      derives Expression s e -> derives Factor ("(" ++ s ++ ")") e
  | derives_factor (s : string) (e : expr) :
      derives Factor s e -> derives PowerLevel s e
  | derives_power (a b : string) (ea eb : expr) :
      derives Factor a ea -> derives PowerLevel b eb ->
      derives PowerLevel (a ++ "^" ++ b) (Operator Power [ea; eb])
  | derives_power_level (s : string) (e : expr) :
      derives PowerLevel s e -> derives Term s e
  | derives_multiply (a b : string) (ea eb : expr) :
      derives Term a ea -> derives PowerLevel b eb ->
      derives Term (a ++ "*" ++ b) (Operator Multiply [ea; eb])
  | derives_divide (a b : string) (ea eb : expr) :
      derives Term a ea -> derives PowerLevel b eb ->
      derives Term (a ++ "/" ++ b) (Operator Divide [ea; eb])
  | derives_term (s : string) (e : expr) :
      derives Term s e -> derives Expression s e
  | derives_add (a b : string) (ea eb : expr) :
      derives Expression a ea -> derives Term b eb ->
      derives Expression (a ++ "+" ++ b) (Operator Add [ea; eb])
  | derives_subtract (a b : string) (ea eb : expr) :
      derives Expression a ea -> derives Term b eb ->
      derives Expression (a ++ "-" ++ b) (Operator Subtract [ea; eb]).

(** What the parser does with a text of each level. *)
Definition parses_as (l : level) (s : string) (e : expr) : Prop :=
  exists ts, renders_as s ts
    /\ match l with
       | Factor => reads [] factor ts e
       | PowerLevel => reads ["^"] power ts e
       | Term => reads_then ["^"] term term_while ts e
       | Expression => reads_then ["^"; "*"; "/"] expression expression_while ts e
       end.

(** A method call that returned read, from position [p0] on, a text that
    the grammar derives at level [l] to the tree returned. *)
Definition derived (l : level) (p0 : nat) (st : Parser)
    (r : option (result (expr * Parser))) : Prop :=
  match r with
  | Some (Ok (e, st')) =>
      tokens st' = tokens st /\ pos st <= pos st'
      /\ derives l (String.concat "" (between p0 (pos st') (tokens st))) e
  | _ => True
  end.

(** ** Further definitions: equality of expressions *)

(** [SymbolicExpression.__eq__], called on an instance [self]: [False] for
    an [other] that is no instance (a bare number), without rendering
    anything; otherwise the renderings are compared, [self] rendered
    first. *)
Definition __eq__ `{Host} (self other : expr) : result bool :=
  match other with
  | Num _ => Ok false
  | _ => s ← str self; o ← str other; Ok (String.eqb s o)
  end.

(** ** Further definitions: evaluation, simplification, substitution *)

(** A dict that can be passed as [**kwargs] to a method: no key is the
    name of the parameter [self] (with such a key the call itself is a
    [TypeError]). *)
Definition keyword_arguments {A} (kwargs : gmap string A) : Prop :=
  kwargs !! "self" = None.

(** No symbol of the tree is a key of the map. *)
Fixpoint unbound {A} (m : gmap string A) (e : expr) : bool :=
  match e with
  | Num _ => true
  | Symbol name => match m !! name with None => true | Some _ => false end
  | Operator _ args => forallb (unbound m) args
  end.

(** [**kwargs] binding names to ints. *)
Definition int_kwargs (env : gmap string Z) : gmap string pyobject :=
  (fun z => PyNumber (PyInt z)) <$> env.

(** The value of a tree over the integers, where it has one: every symbol
    bound, no numeric leaf, no division, no negative exponent. *)
Fixpoint int_value (env : gmap string Z) (e : expr) : option Z :=
  match e with
  | Num _ => None
  | Symbol name => env !! name
  | Operator k args =>
      values ← mapM (int_value env) args;
      match k, values with
      | Add, _ => Some (foldl Z.add 0%Z values)
      | Multiply, _ => Some (foldl Z.mul 1%Z values)
      | Subtract, [a; b] => Some (a - b)%Z
      | Power, [a; b] => if (0 <=? b)%Z then Some (a ^ b)%Z else None
      | _, _ => None
      end
  end.

(** A tree without its [Add] and [Multiply] nodes of one operand. *)
Fixpoint unwrap (e : expr) : expr :=
  match e with
  | Operator k args =>
      match k, map unwrap args with
      | Add, [only] | Multiply, [only] => only
      | _, args' => Operator k args'
      end
  | _ => e
  end.

(** Two substitutions in a row as one: the first, with the second applied
    to what it puts in, and the second for the names the first leaves. *)
Definition compose (m1 m2 : gmap string expr) : gmap string expr :=
  ((fun replacement => substitute_spec replacement m2) <$> m1) ∪ m2.

(** ** Further definitions: [sacred_geometry.py] *)

(** What a call there can raise: an exception of the engine, or the
    [KeyError] of a dict. *)
Inductive py_exn : Type :=
  | Raised (e : exn)
  | KeyError (key : Z).

Inductive completion (A : Type) : Type :=
  | Returns (a : A)
  | Raises (e : py_exn).
Arguments Returns {A} a.
Arguments Raises {A} e.


(** [range(start, stop)] *)
Definition range (start stop : Z) : list Z := seqZ start (stop - start).

(** [l[j]] on a list, with Python's negative indices. *)
Definition getitem {A} (l : list A) (j : Z) : result A :=
  let j' := if (j <? 0)%Z then (Z.of_nat (length l) + j)%Z else j in
  if (j' <? 0)%Z then Raise (IndexError "list index out of range")
  else match l !! Z.to_nat j' with
       | Some x => Ok x
       | None => Raise (IndexError "list index out of range")
       end.

(** [Fibonacci.__init__]: the memo of a new object. *)
Definition Fibonacci_init : gmap Z Z := {[ 0%Z := 0%Z; 1%Z := 1%Z ]}.

(** The loop of [Fibonacci.generate] over the indices left: a missing
    entry is written from the two before it. The memo is returned as the
    loop leaves it, also when a lookup fails. *)
Fixpoint generate_loop (memo : gmap Z Z) (indices : list Z) : gmap Z Z * option py_exn :=
  match indices with
  | [] => (memo, None)
  | i :: rest =>
      match memo !! i with
      | Some _ => generate_loop memo rest
      | None =>
          match memo !! (i - 1)%Z with
          | None => (memo, Some (KeyError (i - 1)))
          | Some a =>
              match memo !! (i - 2)%Z with
              | None => (memo, Some (KeyError (i - 2)))
              | Some b => generate_loop (<[ i := (a + b)%Z ]> memo) rest
              end
          end
      end
  end.

(** [[self.memo[i] for i in indices]] *)
Fixpoint collect (memo : gmap Z Z) (indices : list Z) : completion (list Z) :=
  match indices with
  | [] => Returns []
  | i :: rest =>
      match memo !! i with
      | None => Raises (KeyError i)
      | Some v =>
          match collect memo rest with
          | Returns vs => Returns (v :: vs)
          | Raises e => Raises e
          end
      end
  end.

(** [Fibonacci.generate]: the memo after the call, and what the call
    returns or raises. *)
Definition generate (memo : gmap Z Z) (n : Z) : gmap Z Z * completion (list Z) :=
  if (n <? 0)%Z then (memo, Raises (Raised (ValueError "n must be non-negative.")))
  else
    match generate_loop memo (range 2 n) with
    | (memo', Some err) => (memo', Raises err)
    | (memo', None) => (memo', collect memo' (range 0 n))
    end.

(** The loop of [Fibonacci.symbolic_generate]. *)
Fixpoint symbolic_loop (seq : list expr) (indices : list Z) : result (list expr) :=
  match indices with
  | [] => Ok seq
  | i :: rest =>
      a ← getitem seq (i - 1);
      b ← getitem seq (i - 2);
      node ← construct Add [a; b];
      symbolic_loop (seq ++ [node]) rest
  end.

(** [Fibonacci.symbolic_generate]; [seq[:n]] for an [n] that is not
    negative. *)
Definition symbolic_generate (n : Z) : result (list expr) :=
  if (n <? 0)%Z then Raise (ValueError "n must be non-negative.")
  else seq ← symbolic_loop [Symbol "F0"; Symbol "F1"] (range 2 n);
       Ok (take (Z.to_nat n) seq).





(** [Cube.volume] and [Cube.surface_area], for an edge that is any
    object. *)
Definition Cube_volume (edge_length : expr) : result expr :=
  construct Power [edge_length; Num (PyInt 3)].

Definition Cube_surface_area (edge_length : expr) : result expr :=
  square ← construct Power [edge_length; Num (PyInt 2)];
  construct Multiply [Num (PyInt 6); square].

(** The Fibonacci numbers from two starting values, and from 0 and 1. *)
Fixpoint fibonacci_pair (f0 f1 : Z) (n : nat) : Z * Z :=
  match n with
  | O => (f0, f1)
  | S n' => let '(a, b) := fibonacci_pair f0 f1 n' in (b, (a + b)%Z)
  end.

Definition fibonacci_from (f0 f1 : Z) (n : nat) : Z := fst (fibonacci_pair f0 f1 n).

Definition fibonacci (n : nat) : Z := fibonacci_from 0 1 n.

(** A memo that [generate] can be called on: it has the two first
    entries, and every entry is a Fibonacci number at its index. *)
Definition memo_ok (memo : gmap Z Z) : Prop :=
  memo !! 0%Z = Some 0%Z /\ memo !! 1%Z = Some 1%Z
  /\ forall i v, memo !! i = Some v -> (0 <= i)%Z /\ v = fibonacci (Z.to_nat i).

(** ** Further definitions: [uscl_interface.py] *)

(** A keyword argument with the name of a positional parameter (the text
    of the host's message is not modelled). *)
Definition keyword_error : exn := TypeError "got multiple values for argument".

(** [ExpressionEvaluator.evaluate(expr, **kwargs)], called with a dict
    [context] as [**context]. *)
Definition ExpressionEvaluator_evaluate `{Host} (e : expr) (kwargs : gmap string pyobject)
    : result expr :=
  match kwargs !! "self", kwargs !! "expr" with
  | None, None => evaluate kwargs e
  | _, _ => Raise keyword_error
  end.

(** [USCLInterface.evaluate_expression]: the value, or [None] (here the
    inner [None]) when parsing or evaluating raised. What it logs is left
    out. The outer [None] stands for the fuel of the parser, as in
    [parse]. *)
Definition evaluate_expression `{Host} (expression : string)
    (context : option (gmap string pyobject)) : option (option expr) :=
  let context := default ∅ context in
  match parse expression with
  | None => None
  | Some (Raise _) => Some None
  | Some (Ok parsed) =>
      match ExpressionEvaluator_evaluate parsed context with
      | Ok value => Some (Some value)
      | Raise _ => Some None
      end
  end.

(** * Properties *)

(** ** Trees *)

(** Induction over trees, with the hypothesis for every operand. *)
Lemma expr_nested_ind (P : expr -> Prop) :
  (forall n, P (Num n)) ->
  (forall name, P (Symbol name)) ->
  (forall k args, Forall P args -> P (Operator k args)) ->
  forall e, P e.
Proof.
  intros HN HS HO. fix IH 1. intros [n|name|k args].
  - apply HN.
  - apply HS.
  - apply HO. revert args. fix IHargs 1. intros [|a args].
    + constructor.
    + constructor; [apply IH | apply IHargs].
Qed.

(** ** Lists of results *)

Lemma mapM_result_cons {A B} (f : A -> result B) (a : A) (l : list A) :
  mapM f (a :: l) = b ← f a; bs ← mapM f l; Ok (b :: bs).
Proof. reflexivity. Qed.

Lemma mapM_result_Ok_length {A B} (f : A -> result B) (l : list A) (bs : list B) :
  mapM f l = Ok bs -> length bs = length l.
Proof.
  revert bs. induction l as [|a l IH]; intros bs Hbs.
  - injection Hbs as <-. reflexivity.
  - rewrite mapM_result_cons in Hbs. destruct (f a) as [b|]; [|discriminate].
    simpl in Hbs. destruct (mapM f l) as [bs'|]; [|discriminate].
    injection Hbs as <-. simpl. f_equal. apply IH. reflexivity.
Qed.

Lemma mapM_result_Ok_Forall2 {A B} (f : A -> result B) (l : list A) (bs : list B) :
  mapM f l = Ok bs <-> Forall2 (fun a b => f a = Ok b) l bs.
Proof.
  revert bs. induction l as [|a l IH]; intros bs.
  - split.
    + intros Hbs. injection Hbs as <-. constructor.
    + intros Hall. inversion Hall. reflexivity.
  - rewrite mapM_result_cons. split.
    + destruct (f a) as [b|] eqn:Hfa; [|discriminate]. simpl.
      destruct (mapM f l) as [bs'|] eqn:Hl; [|discriminate].
      intros Hbs. injection Hbs as <-. constructor; [exact Hfa|]. apply IH. reflexivity.
    + intros Hall. inversion Hall as [|? b ? bs' Hfa Hrest]; subst.
      rewrite Hfa. simpl. apply IH in Hrest. rewrite Hrest. reflexivity.
Qed.

Lemma mapM_result_map {A B} (f : A -> result B) (g : A -> B) (l : list A) :
  Forall (fun a => f a = Ok (g a)) l -> mapM f l = Ok (map g l).
Proof.
  induction 1 as [|a l Ha _ IH]; [reflexivity|].
  rewrite mapM_result_cons, Ha. simpl. rewrite IH. reflexivity.
Qed.

Lemma construct_arity_ok (k : kind) (args : list expr) :
  arity_ok k (length args) = true -> construct k args = Ok (Operator k args).
Proof.
  destruct k, args as [|a [|b [|c args]]]; simpl; intros Hk;
    try reflexivity; discriminate.
Qed.

Lemma construct_Ok (k : kind) (args : list expr) (e : expr) :
  construct k args = Ok e -> e = Operator k args /\ arity_ok k (length args) = true.
Proof.
  destruct k, args as [|a [|b [|c args]]]; simpl; intros He;
    try discriminate; injection He as <-; split; reflexivity.
Qed.

(** ** Evaluation *)

Section EvaluateFacts.
Context `{Host}.

(** A number inside a tree has no [evaluate]: the tree's leftmost leaf is
    reached first, so a closed tree never evaluates. *)
Lemma evaluate_closed_raises (kwargs : gmap string pyobject) (e : expr) :
  well_formed e = true -> closed e = true ->
  exists n, evaluate kwargs e = no_attribute n "evaluate".
Proof.
  induction e as [n|name|k args IH] using expr_nested_ind; intros Hwf Hcl.
  - exists n. reflexivity.
  - discriminate.
  - simpl in Hwf, Hcl. apply andb_prop in Hwf as [Hk Hargs].
    destruct args as [|a args]; [destruct k; discriminate|].
    simpl in Hargs, Hcl.
    apply andb_prop in Hargs as [Ha _]. apply andb_prop in Hcl as [Hca _].
    inversion IH as [|? ? IHa _]; subst.
    destruct (IHa Ha Hca) as [n Hn]. exists n.
    simpl. rewrite Hn. reflexivity.
Qed.

(** [Divide._op] tests the denominator before it divides. *)
Lemma Divide_op_zero (numerator denominator : number) :
  py_eq_int denominator 0 = true ->
  _op Divide [numerator; denominator] = Raise (ZeroDivisionError "Division by zero.").
Proof. intros Hz. simpl. rewrite Hz. reflexivity. Qed.

(** Every tree Python can build has a rendering. *)
Lemma str_well_formed (e : expr) : well_formed e = true -> exists s, str e = Ok s.
Proof.
  induction e as [n|name|k args IH] using expr_nested_ind; intros Hwf.
  - eexists. reflexivity.
  - eexists. reflexivity.
  - simpl in Hwf. apply andb_prop in Hwf as [Hk Hargs].
    assert (Hparts : exists parts,
               mapM (fun arg => s ← str arg;
                                Ok (if is_operator arg then "(" ++ s ++ ")" else s)) args
               = Ok parts).
    { clear Hk. induction IH as [|a args Ha _ IHargs]; [eexists; reflexivity|].
      simpl in Hargs. apply andb_prop in Hargs as [Hwa Hwargs].
      destruct (Ha Hwa) as [s Hs]. destruct (IHargs Hwargs) as [parts Hparts].
      eexists. rewrite mapM_result_cons, Hs. simpl. rewrite Hparts. reflexivity. }
    destruct Hparts as [parts Hparts].
    destruct k; try (eexists; cbn [str]; rewrite Hparts; reflexivity);
      destruct args as [|lhs [|rhs [|? ?]]]; try discriminate;
      inversion IH as [|? ? IHl IH']; subst; inversion IH' as [|? ? IHr _]; subst;
      simpl in Hargs; apply andb_prop in Hargs as [Hwl Hargs];
      apply andb_prop in Hargs as [Hwr _];
      destruct (IHl Hwl) as [sl Hsl]; destruct (IHr Hwr) as [sr Hsr];
      eexists; cbn [str]; rewrite Hsl, Hsr; reflexivity.
Qed.

(** When both operands of a [Divide] evaluate to numbers and the right
    one is zero, evaluation raises [ZeroDivisionError], whatever the
    host's division does. *)
Lemma evaluate_Divide_zero (kwargs : gmap string pyobject) (l r : expr) (a b : number) :
  well_formed l = true -> well_formed r = true ->
  evaluate kwargs l = Ok (Num a) ->
  evaluate kwargs r = Ok (Num b) ->
  py_eq_int b 0 = true ->
  exists s, str (Operator Divide [l; r]) = Ok s
            /\ evaluate kwargs (Operator Divide [l; r])
               = Raise (ZeroDivisionError ("Division by zero in " ++ s)).
Proof.
  intros Hwl Hwr Hl Hr Hz.
  destruct (str_well_formed (Operator Divide [l; r])) as [s Hs].
  { simpl. rewrite Hwl, Hwr. reflexivity. }
  exists s. split; [exact Hs|].
  cbn -[str]. rewrite Hl, Hr. cbn -[str]. rewrite Hz, Hs. reflexivity.
Qed.

(** With a residual left operand the zero denominator is not looked at:
    the node is rebuilt. *)
Lemma evaluate_Divide_residual (kwargs : gmap string pyobject) (l r l' : expr) (b : number) :
  evaluate kwargs l = Ok l' -> is_number l' = false ->
  evaluate kwargs r = Ok (Num b) ->
  evaluate kwargs (Operator Divide [l; r]) = Ok (Operator Divide [l'; Num b]).
Proof.
  intros Hl Hn Hr. cbn. rewrite Hl, Hr. cbn. rewrite Hn. reflexivity.
Qed.

Example evaluate_symbols_sum :
  evaluate (int_bindings [("x", 3%Z); ("y", 4%Z)])
           (Operator Add [Symbol "x"; Operator Multiply [Symbol "x"; Symbol "y"]])
  = Ok (Num (PyInt 15)).
Proof. vm_compute. reflexivity. Qed.

Example evaluate_symbols_divide_by_zero :
  evaluate (int_bindings [("a", 1%Z); ("b", 0%Z)]) (Operator Divide [Symbol "a"; Symbol "b"])
  = Raise (ZeroDivisionError "Division by zero in (a) / (b)").
Proof. vm_compute. reflexivity. Qed.

Example evaluate_symbols_quotient :
  evaluate (int_bindings [("a", 3%Z); ("b", 4%Z)]) (Operator Divide [Symbol "a"; Symbol "b"])
  = Ok (Num (PyFloat (S754_finite false 6755399441055744 (-53)))).
Proof. vm_compute. reflexivity. Qed.
End EvaluateFacts.

(** ** Simplification *)

Section SimplifyFacts.
Context `{Host}.

Lemma not_has_number_not_number_eq (k : Z) (e : expr) :
  has_number e = false -> is_number_eq k e = false.
Proof. destruct e; [discriminate|reflexivity|reflexivity]. Qed.

Lemma filter_no_number (k : Z) (es : list expr) :
  Forall (fun e => has_number e = false /\ well_formed e = true) es ->
  List.filter (fun arg => negb (is_number_eq k arg)) es = es
  /\ existsb (is_number_eq k) es = false.
Proof.
  induction 1 as [|e es [He _] _ [IH1 IH2]]; [split; reflexivity|].
  simpl. rewrite (not_has_number_not_number_eq k e He). simpl.
  rewrite IH1, IH2. split; reflexivity.
Qed.

Lemma symbols_only_list (es : list expr) :
  Forall (fun e => has_number e = false /\ well_formed e = true) es ->
  existsb has_number es = false /\ forallb well_formed es = true.
Proof.
  induction 1 as [|e es [He Hw] _ [IH1 IH2]]; [split; reflexivity|].
  simpl. rewrite He, Hw. split; assumption.
Qed.

Lemma simplify_operands (args : list expr) :
  Forall simplify_outcome args -> forallb well_formed args = true ->
  if existsb has_number args then exists n, mapM simplify args = no_attribute n "simplify"
  else exists ss, mapM simplify args = Ok ss /\ length ss = length args
                  /\ Forall (fun e => has_number e = false /\ well_formed e = true) ss.
Proof.
  induction 1 as [|a args Ha _ IH]; intros Hwf.
  - exists []. repeat split. constructor.
  - simpl in Hwf. apply andb_prop in Hwf as [Hwa Hwargs].
    specialize (Ha Hwa). specialize (IH Hwargs).
    rewrite mapM_result_cons. simpl existsb.
    destruct (has_number a).
    + destruct Ha as [n Hn]. exists n. rewrite Hn. reflexivity.
    + destruct Ha as (a' & Ha' & Hna' & Hwa'). rewrite Ha'. simpl.
      destruct (existsb has_number args).
      * destruct IH as [n Hn]. exists n. rewrite Hn. reflexivity.
      * destruct IH as (ss & Hss & Hlen & Hall). exists (a' :: ss).
        rewrite Hss. simpl. repeat split; [congruence|].
        constructor; [split; assumption|exact Hall].
Qed.

(** [simplify] is decided by the leaves: a tree with a numeric leaf
    raises [AttributeError] (numbers have no [simplify]); a tree of
    symbols only simplifies to a tree of symbols only. So no operand is
    ever found equal to the number 0 or 1. *)
Lemma simplify_by_leaves (e : expr) : simplify_outcome e.
Proof.
  induction e as [n|name|k args IH] using expr_nested_ind; intros Hwf.
  - exists n. reflexivity.
  - exists (Symbol name). repeat split.
  - simpl in Hwf. apply andb_prop in Hwf as [Hk Hargs].
    pose proof (simplify_operands args IH Hargs) as Hops.
    simpl has_number. destruct (existsb has_number args).
    + destruct Hops as [n Hn]. exists n. simpl. rewrite Hn. reflexivity.
    + destruct Hops as (ss & Hss & Hlen & Hall).
      rewrite <- Hlen in Hk.
      destruct (filter_no_number 0 ss Hall) as [Hf0 He0].
      destruct (filter_no_number 1 ss Hall) as [Hf1 He1].
      assert (Hrebuilt : has_number (Operator k ss) = false
                         /\ well_formed (Operator k ss) = true).
      { cbn [has_number well_formed]. rewrite Hk. apply symbols_only_list. exact Hall. }
      simpl. rewrite Hss. simpl. destruct k.
      * rewrite Hf0. destruct ss as [|s1 [|s2 ss]]; [discriminate| |].
        -- exists s1. inversion Hall as [|? ? [? ?] _]; subst. repeat split; assumption.
        -- exists (Operator Add (s1 :: s2 :: ss)). split; [reflexivity|exact Hrebuilt].
      * rewrite (construct_arity_ok _ _ Hk). eexists; split; [reflexivity|exact Hrebuilt].
      * rewrite He0, Hf1. destruct ss as [|s1 [|s2 ss]]; [discriminate| |].
        -- exists s1. inversion Hall as [|? ? [? ?] _]; subst. repeat split; assumption.
        -- exists (Operator Multiply (s1 :: s2 :: ss)). split; [reflexivity|exact Hrebuilt].
      * rewrite (construct_arity_ok _ _ Hk). eexists; split; [reflexivity|exact Hrebuilt].
      * destruct ss as [|base [|exp [|? ?]]]; try discriminate.
        inversion Hall as [|? ? [Hb _] Hall']; subst.
        inversion Hall' as [|? ? [Hx _] _]; subst.
        rewrite !(not_has_number_not_number_eq _ exp Hx).
        rewrite (not_has_number_not_number_eq _ base Hb).
        eexists; split; [reflexivity|exact Hrebuilt].
Qed.

(** Once the operands have simplified, an [Add] node applies the rule of
    the specification: drop the zeros, then 0, the single survivor, or an
    [Add] over the survivors. *)
Lemma simplify_Add_after_operands (args ss : list expr) :
  mapM simplify args = Ok ss ->
  simplify (Operator Add args) =
    match List.filter (fun arg => negb (is_number_eq 0 arg)) ss with
    | [] => Ok (Num (PyInt 0))
    | [only] => Ok only
    | survivors => Ok (Operator Add survivors)
    end.
Proof.
  intros Hss. simpl. rewrite Hss. simpl.
  destruct (List.filter _ ss) as [|s1 [|s2 rest]]; reflexivity.
Qed.
End SimplifyFacts.

(** ** Substitution *)

Lemma substitute_refines_spec (e : expr) (m : gmap string expr) :
  well_formed e = true -> substitute e m = Ok (substitute_spec e m).
Proof.
  induction e as [n|name|k args IH] using expr_nested_ind; intros Hwf.
  - reflexivity.
  - simpl. destruct (m !! name); reflexivity.
  - simpl in Hwf. apply andb_prop in Hwf as [Hk Hargs]. simpl.
    rewrite (mapM_result_map _ (fun arg => substitute_spec arg m)).
    + simpl. apply construct_arity_ok. rewrite length_map. exact Hk.
    + rewrite forallb_forall in Hargs. rewrite Forall_forall in IH |- *.
      intros a Ha. apply IH; [exact Ha|]. apply Hargs. apply list_elem_of_In. exact Ha.
Qed.

Lemma substitute_Operator_Ok (k : kind) (args : list expr) (m : gmap string expr) (e' : expr) :
  substitute (Operator k args) m = Ok e' ->
  exists args', e' = Operator k args' /\ length args' = length args
                /\ Forall2 (fun a a' => substitute a m = Ok a') args args'.
Proof.
  simpl. destruct (mapM _ args) as [args'|] eqn:Hargs; [|discriminate].
  simpl. intros Hc. apply construct_Ok in Hc as [-> _].
  exists args'. split; [reflexivity|]. split.
  - eapply mapM_result_Ok_length. exact Hargs.
  - apply mapM_result_Ok_Forall2 in Hargs. exact Hargs.
Qed.

(** ** Parser: where the cursor is not checked, and what [factor] accepts *)

(** [factor] reads [self.tokens[self.pos]] without looking at the length
    of the list. *)
Lemma factor_at_end (n : nat) (st : Parser) :
  tokens st !! pos st = None ->
  factor (S n) st = Some (Raise (IndexError "list index out of range")).
Proof. intros Hend. cbn. unfold mbind, M_bind, read. rewrite Hend. reflexivity. Qed.

(** ** Tokenizer: what a scan keeps and what it drops *)

#[local] Arguments String.append !_ _ / : simpl nomatch.

Lemma chars_app (a b : string) :
  list_ascii_of_string (a ++ b) = (list_ascii_of_string a ++ list_ascii_of_string b)%list.
Proof. induction a as [|c a IH]; simpl; [reflexivity|]. rewrite IH. reflexivity. Qed.

Lemma all_chars_app (p : ascii -> bool) (a b : string) :
  all_chars p (a ++ b) = all_chars p a && all_chars p b.
Proof. unfold all_chars. rewrite chars_app. apply forallb_app. Qed.

Lemma all_chars_weaken (p q : ascii -> bool) (s : string) :
  (forall c, p c = true -> q c = true) -> all_chars p s = true -> all_chars q s = true.
Proof.
  intros Hpq. unfold all_chars. rewrite !forallb_forall. intros Hp c Hc. auto.
Qed.

Lemma append_empty_r (s : string) : s ++ EmptyString = s.
Proof. induction s as [|c s IH]; simpl; [reflexivity|]. rewrite IH. reflexivity. Qed.

Lemma append_assoc (a b c : string) : (a ++ b) ++ c = a ++ (b ++ c).
Proof. induction a as [|x a IH]; simpl; [reflexivity|]. rewrite IH. reflexivity. Qed.

Lemma span_spec (p : ascii -> bool) (s a b : string) :
  span p s = (a, b) ->
  s = a ++ b /\ all_chars p a = true
  /\ match b with EmptyString => True | String c _ => p c = false end.
Proof.
  revert a b. induction s as [|c s IH]; intros a b Hspan; simpl in Hspan.
  - injection Hspan as <- <-. repeat split.
  - destruct (p c) eqn:Hc.
    + destruct (span p s) as [a' b'] eqn:Hs. injection Hspan as <- <-.
      destruct (IH a' b' eq_refl) as (-> & Ha & Hb). repeat split; [|exact Hb].
      unfold all_chars in *. simpl. rewrite Hc. exact Ha.
    + injection Hspan as <- <-. repeat split. exact Hc.
Qed.

Lemma span_all (p : ascii -> bool) (a b : string) :
  all_chars p a = true ->
  match b with EmptyString => True | String c _ => p c = false end ->
  span p (a ++ b) = (a, b).
Proof.
  intros Ha Hb. induction a as [|c a IH]; simpl.
  - destruct b as [|c b]; [reflexivity|]. simpl. rewrite Hb. reflexivity.
  - unfold all_chars in Ha. simpl in Ha. apply andb_prop in Ha as [Hc Ha].
    rewrite Hc, (IH Ha). reflexivity.
Qed.

Lemma ident_start_not_digit (c : ascii) : is_ident_start c = true -> is_digit c = false.
Proof.
  destruct c as [[] [] [] [] [] [] [] []]; vm_compute; intros; congruence.
Qed.

Lemma op_char_not_digit (c : ascii) : is_op_char c = true -> is_digit c = false.
Proof.
  destruct c as [[] [] [] [] [] [] [] []]; vm_compute; intros; congruence.
Qed.

Lemma op_char_not_ident_start (c : ascii) : is_op_char c = true -> is_ident_start c = false.
Proof.
  destruct c as [[] [] [] [] [] [] [] []]; vm_compute; intros; congruence.
Qed.

Lemma ident_char_token_char (c : ascii) : is_ident_char c = true -> token_char c = true.
Proof.
  destruct c as [[] [] [] [] [] [] [] []]; vm_compute; intros; congruence.
Qed.

(** The shape of a match of the first alternative. *)
Lemma match_number_spec (s tok rest : string) :
  match_number s = Some (tok, rest) ->
  s = tok ++ rest
  /\ exists int_part, int_part <> EmptyString /\ all_chars is_digit int_part = true
       /\ (tok = int_part
           \/ exists frac, all_chars is_digit frac = true
                /\ tok = int_part ++ String "." frac).
Proof.
  unfold match_number. destruct (span is_digit s) as [ip r1] eqn:Hip.
  apply span_spec in Hip as (-> & Hall & Hr1).
  destruct ip as [|d ip]; [discriminate|].
  destruct r1 as [|c r2].
  - intros Hm. injection Hm as <- <-. split; [reflexivity|].
    exists (String d ip). split; [discriminate|]. split; [exact Hall|]. left. reflexivity.
  - destruct (Ascii.eqb c ".") eqn:Hdot.
    + apply Ascii.eqb_eq in Hdot as ->.
      destruct (span is_digit r2) as [frac r3] eqn:Hfrac.
      apply span_spec in Hfrac as (-> & Hfall & _).
      intros Hm. injection Hm as <- <-. split.
      * simpl. f_equal. rewrite append_assoc. reflexivity.
      * exists (String d ip). split; [discriminate|]. split; [exact Hall|].
        right. exists frac. split; [exact Hfall|reflexivity].
    + intros Hm. injection Hm as <- <-. split; [reflexivity|].
      exists (String d ip). split; [discriminate|]. split; [exact Hall|]. left. reflexivity.
Qed.

(** A numeric literal is matched whole by the first alternative. *)
Lemma match_number_literal (int_part : string) :
  int_part <> EmptyString -> all_chars is_digit int_part = true ->
  match_number int_part = Some (int_part, EmptyString)
  /\ forall frac, all_chars is_digit frac = true ->
       match_number (int_part ++ String "." frac)
       = Some (int_part ++ String "." frac, EmptyString).
Proof.
  intros Hne Hall. split.
  - unfold match_number.
    rewrite <- (append_empty_r int_part) at 1.
    rewrite (span_all is_digit int_part EmptyString Hall I).
    destruct int_part; [contradiction|reflexivity].
  - intros frac Hfrac. unfold match_number.
    rewrite (span_all is_digit int_part (String "." frac) Hall eq_refl).
    destruct int_part as [|d ip]; [contradiction|].
    change (Ascii.eqb "." ".") with true. cbv iota.
    rewrite <- (append_empty_r frac) at 1.
    rewrite (span_all is_digit frac EmptyString Hfrac I). reflexivity.
Qed.

Lemma digit_token_char (c : ascii) : is_digit c = true -> token_char c = true.
Proof. intros Hc. unfold token_char. rewrite Hc. reflexivity. Qed.

Lemma ident_start_token_char (c : ascii) : is_ident_start c = true -> token_char c = true.
Proof. intros Hc. unfold token_char. rewrite Hc. destruct (is_digit c); reflexivity. Qed.

Lemma op_char_token_char (c : ascii) : is_op_char c = true -> token_char c = true.
Proof.
  intros Hc. unfold token_char. rewrite Hc.
  destruct (is_digit c), (is_ident_start c); reflexivity.
Qed.

(** What a match is: a prefix of the input, not empty, that the pattern
    matches whole, made of token characters. *)
Lemma match_token_spec (s tok rest : string) :
  match_token s = Some (tok, rest) ->
  s = tok ++ rest /\ tok <> EmptyString /\ is_token tok = true
  /\ all_chars token_char tok = true.
Proof.
  unfold match_token. destruct (match_number s) as [[t r]|] eqn:Hnum.
  - intros Hm. injection Hm as -> ->.
    apply match_number_spec in Hnum as (Hs & ip & Hne & Hall & Htok).
    split; [exact Hs|].
    destruct (match_number_literal ip Hne Hall) as [Hwhole Hpoint].
    destruct Htok as [->|(frac & Hfrac & ->)].
    + split; [exact Hne|]. split.
      * unfold is_token, match_token. rewrite Hwhole. reflexivity.
      * apply (all_chars_weaken is_digit); [exact digit_token_char|exact Hall].
    + split; [destruct ip; [contradiction|discriminate]|]. split.
      * unfold is_token, match_token. rewrite (Hpoint frac Hfrac). reflexivity.
      * rewrite all_chars_app. apply andb_true_intro. split.
        -- apply (all_chars_weaken is_digit); [exact digit_token_char|exact Hall].
        -- change (token_char "." && all_chars token_char frac = true).
           apply andb_true_intro. split; [reflexivity|].
           apply (all_chars_weaken is_digit); [exact digit_token_char|exact Hfrac].
  - destruct s as [|c s']; [discriminate|]. simpl.
    destruct (is_ident_start c) eqn:Hstart.
    + destruct (span is_ident_char s') as [tail r] eqn:Htail.
      intros Hm. injection Hm as <- <-.
      apply span_spec in Htail as (-> & Hall & _).
      split; [reflexivity|]. split; [discriminate|]. split.
      * unfold is_token, match_token, match_number. simpl.
        rewrite (ident_start_not_digit c Hstart), Hstart.
        rewrite <- (append_empty_r tail) at 1.
        rewrite (span_all is_ident_char tail EmptyString Hall I). reflexivity.
      * change (token_char c && all_chars token_char tail = true).
        rewrite (ident_start_token_char c Hstart).
        apply (all_chars_weaken is_ident_char); [exact ident_char_token_char|exact Hall].
    + destruct (is_op_char c) eqn:Hop; [|discriminate].
      intros Hm. injection Hm as <- <-.
      split; [reflexivity|]. split; [discriminate|]. split.
      * unfold is_token, match_token, match_number. simpl.
        rewrite (op_char_not_digit c Hop), (op_char_not_ident_start c Hop), Hop. reflexivity.
      * change (token_char c && true = true). rewrite (op_char_token_char c Hop). reflexivity.
Qed.

Lemma length_append (a b : string) :
  String.length (a ++ b) = (String.length a + String.length b)%nat.
Proof. induction a as [|c a IH]; simpl; [reflexivity|]. rewrite IH. reflexivity. Qed.

(** Each step of the scan consumes a character: fuel beyond the length of
    the input changes nothing. *)
Lemma findall_fuel (n m : nat) (s : string) :
  (String.length s <= n)%nat -> (String.length s <= m)%nat -> findall n s = findall m s.
Proof.
  revert m s. induction n as [|n IH]; intros m s Hn Hm.
  - destruct s; [|simpl in Hn; lia]. destruct m; reflexivity.
  - destruct m as [|m]; [destruct s; [reflexivity|simpl in Hm; lia]|].
    destruct s as [|c s']; [reflexivity|].
    simpl findall. simpl in Hn, Hm.
    destruct (match_token (String c s')) as [[tok rest]|] eqn:Hmatch.
    + apply match_token_spec in Hmatch as (Hs & Hne & _).
      assert (String.length rest <= String.length s')%nat as Hlen.
      { apply (f_equal String.length) in Hs. rewrite length_append in Hs.
        destruct tok; [contradiction|]. simpl in Hs. lia. }
      f_equal. apply IH; lia.
    + apply IH; lia.
Qed.

(** So [tokenize], which gives the scan the length of its input as fuel,
    is the whole scan. *)
Lemma tokenize_fuel (n : nat) (s : string) :
  (String.length (remove_spaces s) <= n)%nat -> findall n (remove_spaces s) = tokenize s.
Proof. intros Hn. unfold tokenize. apply findall_fuel; [exact Hn|reflexivity]. Qed.

Lemma findall_tokens (n : nat) (s : string) :
  Forall (fun t => is_token t = true /\ all_chars token_char t = true) (findall n s).
Proof.
  revert s. induction n as [|n IH]; intros s; [constructor|].
  destruct s as [|c s']; [constructor|]. simpl findall.
  destruct (match_token (String c s')) as [[tok rest]|] eqn:Hmatch; [|apply IH].
  apply match_token_spec in Hmatch as (_ & _ & Htok & Hchars).
  constructor; [split; assumption|apply IH].
Qed.

Lemma findall_sublist (n : nat) (s : string) :
  sublist (concat (map list_ascii_of_string (findall n s))) (list_ascii_of_string s).
Proof.
  revert s. induction n as [|n IH]; intros s; [apply sublist_nil_l|].
  destruct s as [|c s']; [apply sublist_nil_l|]. simpl findall.
  destruct (match_token (String c s')) as [[tok rest]|] eqn:Hmatch.
  - apply match_token_spec in Hmatch as (Hs & _). rewrite Hs, chars_app. simpl.
    apply sublist_app; [reflexivity|apply IH].
  - simpl. apply sublist_cons. apply IH.
Qed.

Lemma remove_spaces_sublist (s : string) :
  sublist (list_ascii_of_string (remove_spaces s)) (list_ascii_of_string s).
Proof.
  induction s as [|c s IH]; simpl; [constructor|].
  destruct (Ascii.eqb c " "); simpl; [apply sublist_cons|apply sublist_skip]; exact IH.
Qed.

(** ** Parser: one step of each method *)

Lemma expression_S (n : nat) :
  expression (S n) = (left ← term n; expression_while n left).
Proof. reflexivity. Qed.

Lemma term_S (n : nat) : term (S n) = (left ← power n; term_while n left).
Proof. reflexivity. Qed.

Lemma factor_S (n : nat) (st : Parser) :
  factor (S n) st =
    match tokens st !! pos st with
    | None => Some (Raise (IndexError "list index out of range"))
    | Some token =>
        if String.eqb token "(" then
          match expression n (advanced st) with
          | Some (Ok (e, st')) =>
              match tokens st' !! pos st' with
              | Some closing =>
                  if String.eqb closing ")" then Some (Ok (e, advanced st'))
                  else Some (Raise (ValueError "Mismatched parentheses"))
              | None => Some (Raise (ValueError "Mismatched parentheses"))
              end
          | Some (Raise err) => Some (Raise err)
          | None => None
          end
        else if isdigit token || has_dot token then
          lift (Num <$> (if has_dot token then py_float token else py_int token)) (advanced st)
        else if isalpha token then Some (Ok (Symbol token, advanced st))
        else Some (Raise (ValueError ("Invalid token: " ++ token)))
    end.
Proof.
  cbn. unfold mbind, M_bind, read, peek. destruct (tokens st !! pos st) as [token|]; [|reflexivity].
  cbn. destruct (String.eqb token "(").
  2:{ destruct (isdigit token || has_dot token); [reflexivity|].
      destruct (isalpha token); reflexivity. }
  fold (advanced st). destruct (expression n (advanced st)) as [[[e st']|err]|]; try reflexivity.
  destruct (tokens st' !! pos st') as [closing|]; [|reflexivity].
  destruct (String.eqb closing ")"); reflexivity.
Qed.

Lemma power_S (n : nat) (st : Parser) :
  power (S n) st =
    match factor n st with
    | Some (Ok (lhs, st')) =>
        match tokens st' !! pos st' with
        | Some op =>
            if String.eqb op "^" then
              match power n (advanced st') with
              | Some (Ok (rhs, st'')) => Some (Ok (Operator Power [lhs; rhs], st''))
              | Some (Raise err) => Some (Raise err)
              | None => None
              end
            else Some (Ok (lhs, st'))
        | None => Some (Ok (lhs, st'))
        end
    | Some (Raise err) => Some (Raise err)
    | None => None
    end.
Proof.
  cbn. unfold mbind, M_bind, peek. destruct (factor n st) as [[[lhs st']|err]|]; try reflexivity.
  destruct (tokens st' !! pos st') as [op|]; [|reflexivity].
  destruct (String.eqb op "^"); [|reflexivity].
  cbn. fold (advanced st'). destruct (power n (advanced st')) as [[[rhs st'']|err]|]; reflexivity.
Qed.

Lemma term_while_S (n : nat) (left : expr) (st : Parser) :
  term_while (S n) left st =
    match tokens st !! pos st with
    | Some op =>
        if is_one_of ["*"; "/"] op then
          match power n (advanced st) with
          | Some (Ok (rhs, st')) =>
              term_while n (Operator (if String.eqb op "*" then Multiply else Divide)
                                     [left; rhs]) st'
          | Some (Raise err) => Some (Raise err)
          | None => None
          end
        else Some (Ok (left, st))
    | None => Some (Ok (left, st))
    end.
Proof.
  cbn -[is_one_of]. unfold mbind, M_bind, peek.
  destruct (tokens st !! pos st) as [op|]; [|reflexivity].
  destruct (is_one_of ["*"; "/"] op); [|reflexivity].
  cbn. fold (advanced st). destruct (power n (advanced st)) as [[[rhs st']|err]|]; try reflexivity.
  destruct (String.eqb op "*"); reflexivity.
Qed.

Lemma expression_while_S (n : nat) (left : expr) (st : Parser) :
  expression_while (S n) left st =
    match tokens st !! pos st with
    | Some op =>
        if is_one_of ["+"; "-"] op then
          match term n (advanced st) with
          | Some (Ok (rhs, st')) =>
              expression_while n (Operator (if String.eqb op "+" then Add else Subtract)
                                           [left; rhs]) st'
          | Some (Raise err) => Some (Raise err)
          | None => None
          end
        else Some (Ok (left, st))
    | None => Some (Ok (left, st))
    end.
Proof.
  cbn -[is_one_of]. unfold mbind, M_bind, peek.
  destruct (tokens st !! pos st) as [op|]; [|reflexivity].
  destruct (is_one_of ["+"; "-"] op); [|reflexivity].
  cbn. fold (advanced st). destruct (term n (advanced st)) as [[[rhs st']|err]|]; try reflexivity.
  destruct (String.eqb op "+"); reflexivity.
Qed.

Lemma bind_Ok {A B} (m : M A) (f : A -> M B) (st st' : Parser) (a : A) :
  m st = Some (Ok (a, st')) -> (m ≫= f) st = f a st'.
Proof. intros Hm. unfold mbind, M_bind. rewrite Hm. reflexivity. Qed.

Lemma bind_Raise {A B} (m : M A) (f : A -> M B) (st : Parser) (e : exn) :
  m st = Some (Raise e) -> (m ≫= f) st = Some (Raise e).
Proof. intros Hm. unfold mbind, M_bind. rewrite Hm. reflexivity. Qed.

(** At the end of the tokens the loops and the exponent test stop. *)
Lemma expression_while_at_end (n : nat) (left : expr) (st : Parser) :
  tokens st !! pos st = None -> expression_while (S n) left st = Some (Ok (left, st)).
Proof. intros Hend. cbn. unfold mbind, M_bind, peek. rewrite Hend. reflexivity. Qed.

Lemma term_while_at_end (n : nat) (left : expr) (st : Parser) :
  tokens st !! pos st = None -> term_while (S n) left st = Some (Ok (left, st)).
Proof. intros Hend. cbn. unfold mbind, M_bind, peek. rewrite Hend. reflexivity. Qed.

Lemma power_at_end (n : nat) (left : expr) (st st' : Parser) :
  factor n st = Some (Ok (left, st')) -> tokens st' !! pos st' = None ->
  power (S n) st = Some (Ok (left, st')).
Proof.
  intros Hf Hend. change (power (S n)) with
    (left ← factor n; next ← peek;
     match next with
     | Some op =>
         if String.eqb op "^" then
           advance;; right ← power n; lift (construct Power [left; right])
         else mret left
     | None => mret left
     end).
  rewrite (bind_Ok _ _ _ _ _ Hf). unfold mbind, M_bind, peek. rewrite Hend. reflexivity.
Qed.

(** [factor] on a numeric token: the number itself, not a node. *)
Lemma factor_number (n : nat) (st : Parser) (token : string) (v : number) :
  tokens st !! pos st = Some token ->
  String.eqb token "(" = false ->
  isdigit token || has_dot token = true ->
  (if has_dot token then py_float token else py_int token) = Ok v ->
  factor (S n) st = Some (Ok (Num v, {| tokens := tokens st; pos := S (pos st) |})).
Proof.
  intros Htok Hparen Hnum Hv. cbn. unfold mbind, M_bind, read. rewrite Htok.
  cbn. rewrite Hparen, Hnum, Hv. reflexivity.
Qed.

(** ** Numeric literals *)

Lemma number_literal_shape (s : string) :
  is_number_literal s = true ->
  match_number s = Some (s, EmptyString)
  /\ exists int_part, int_part <> EmptyString /\ all_chars is_digit int_part = true
       /\ (s = int_part
           \/ exists frac, all_chars is_digit frac = true /\ s = int_part ++ String "." frac).
Proof.
  unfold is_number_literal. destruct (match_number s) as [[tok rest]|] eqn:Hm; [|discriminate].
  destruct rest; [|discriminate]. intros _.
  apply match_number_spec in Hm as Hspec. destruct Hspec as (Hs & Hshape).
  rewrite append_empty_r in Hs. subst tok. split; [reflexivity|exact Hshape].
Qed.

Lemma token_char_not_space (c : ascii) : token_char c = true -> Ascii.eqb c " " = false.
Proof.
  destruct c as [[] [] [] [] [] [] [] []]; vm_compute; intros; congruence.
Qed.

Lemma remove_spaces_token_chars (s : string) :
  all_chars token_char s = true -> remove_spaces s = s.
Proof.
  induction s as [|c s IH]; [reflexivity|]. unfold all_chars. simpl.
  intros Hall. apply andb_prop in Hall as [Hc Hs].
  rewrite (token_char_not_space c Hc), (IH Hs). reflexivity.
Qed.

(** One token, and nothing else, tokenizes to itself. *)
Lemma tokenize_single_token (t : string) :
  match_token t = Some (t, EmptyString) -> tokenize t = [t].
Proof.
  intros Ht. apply match_token_spec in Ht as Hspec. destruct Hspec as (_ & Hne & _ & Hchars).
  unfold tokenize. rewrite (remove_spaces_token_chars t Hchars).
  destruct t as [|c t']; [contradiction|].
  simpl. simpl in Ht. rewrite Ht. destruct (String.length t'); reflexivity.
Qed.

Lemma no_dot_in (p : ascii -> bool) (s : string) :
  p "."%char = false -> all_chars p s = true -> has_dot s = false.
Proof.
  intros Hp. unfold all_chars, has_dot.
  induction (list_ascii_of_string s) as [|c l IH]; [reflexivity|].
  cbn [forallb existsb]. intros Hall. apply andb_prop in Hall as [Hc Hl]. rewrite (IH Hl).
  destruct (Ascii.eqb "." c) eqn:Hdot; [|reflexivity].
  apply Ascii.eqb_eq in Hdot as <-. congruence.
Qed.

Lemma all_digits_no_dot (s : string) : all_chars is_digit s = true -> has_dot s = false.
Proof. apply (no_dot_in is_digit). reflexivity. Qed.

Lemma has_dot_point (a b : string) : has_dot (a ++ String "." b) = true.
Proof.
  unfold has_dot. rewrite chars_app, existsb_app.
  change (list_ascii_of_string (String "." b)) with ("."%char :: list_ascii_of_string b).
  cbn [existsb]. rewrite Ascii.eqb_refl. apply orb_true_r.
Qed.

Lemma digit_not_paren (s : string) (c : ascii) (s' : string) :
  s = String c s' -> is_digit c = true -> String.eqb s "(" = false.
Proof.
  intros -> Hc. cbn [String.eqb]. destruct (Ascii.eqb c "(") eqn:Hp; [|reflexivity].
  apply Ascii.eqb_eq in Hp as ->. vm_compute in Hc. discriminate.
Qed.

Lemma isdigit_digits (s : string) :
  s <> EmptyString -> all_chars is_digit s = true -> isdigit s = true.
Proof.
  intros Hne Hall. unfold isdigit. rewrite Hall.
  destruct s; [contradiction|reflexivity].
Qed.

Lemma py_float_literal (int_part frac : string) :
  int_part <> EmptyString ->
  all_chars is_digit int_part = true -> all_chars is_digit frac = true ->
  py_float (int_part ++ String "." frac)
  = Ok (PyFloat (round_quotient (digits_value (int_part ++ frac))
                                (10 ^ Z.of_nat (String.length frac)))).
Proof.
  intros Hne Hint Hfrac. unfold py_float.
  rewrite (span_all is_digit int_part (String "." frac) Hint eq_refl).
  rewrite Ascii.eqb_refl, Hfrac.
  destruct int_part; [contradiction|reflexivity].
Qed.

Lemma power_Raise (n : nat) (st : Parser) (err : exn) :
  factor n st = Some (Raise err) -> power (S n) st = Some (Raise err).
Proof. intros Hf. rewrite power_S, Hf. reflexivity. Qed.

(** An input of one token parses to what [factor] makes of the token. *)
Lemma parse_single_token (s token : string) (r : result expr) :
  tokenize s = [token] ->
  factor 7 {| tokens := [token]; pos := 0 |}
  = Some (match r with
          | Ok e => Ok (e, {| tokens := [token]; pos := 1 |})
          | Raise err => Raise err
          end) ->
  parse s = Some r.
Proof.
  intros Htok Hfactor. unfold parse. rewrite Htok. cbn [tokens].
  change (parse_fuel [token]) with 10%nat. rewrite expression_S.
  destruct r as [e|err].
  - pose proof (power_at_end 7 _ _ _ Hfactor eq_refl) as Hpower.
    rewrite (bind_Ok (term 9) (fun left => expression_while 9 left) _
               {| tokens := [token]; pos := 1 |} e).
    + rewrite expression_while_at_end; reflexivity.
    + rewrite term_S, (bind_Ok _ _ _ _ _ Hpower). apply term_while_at_end. reflexivity.
  - rewrite (bind_Raise (term 9) _ _ err); [reflexivity|].
    rewrite term_S. apply bind_Raise. apply power_Raise. exact Hfactor.
Qed.

(** An input that tokenizes to one numeric token parses to the number. *)
Lemma parse_single_number (s token : string) (v : number) :
  tokenize s = [token] ->
  String.eqb token "(" = false ->
  isdigit token || has_dot token = true ->
  (if has_dot token then py_float token else py_int token) = Ok v ->
  parse s = Some (Ok (Num v)).
Proof.
  intros Htok Hparen Hnum Hv. apply (parse_single_token s token (Ok (Num v)) Htok).
  apply (factor_number 6 {| tokens := [token]; pos := 0 |} token v eq_refl Hparen Hnum Hv).
Qed.

Example parse_int_literal : parse "42" = Some (Ok (Num (PyInt 42))).
Proof. vm_compute. reflexivity. Qed.

Example parse_float_literal :
  parse "0.1" = Some (Ok (Num (PyFloat (S754_finite false 7205759403792794 (-56))))).
Proof. vm_compute. reflexivity. Qed.

(** ** Parser: the fuel of [parse] always suffices *)

Lemma advanced_in_range (st : Parser) (token : string) :
  tokens st !! pos st = Some token ->
  pos (advanced st) <= length (tokens (advanced st))
  /\ remaining (advanced st) + 1 = remaining st.
Proof.
  intros Htok. apply lookup_lt_Some in Htok. unfold remaining. simpl. lia.
Qed.

Lemma fuel_suffices (n : nat) (st : Parser) :
  pos st <= length (tokens st) ->
  (4 * remaining st + 3 <= n -> progresses 1 st (factor n st))
  /\ (4 * remaining st + 4 <= n -> progresses 1 st (power n st))
  /\ (4 * remaining st + 5 <= n -> progresses 1 st (term n st))
  /\ (4 * remaining st + 6 <= n -> progresses 1 st (expression n st))
  /\ (forall left, 4 * remaining st + 1 <= n -> progresses 0 st (term_while n left st))
  /\ (forall left, 4 * remaining st + 2 <= n -> progresses 0 st (expression_while n left st)).
Proof.
  revert st. induction n as [|n IH]; intros st Hpos.
  { repeat split; intros; lia. }
  assert (Hfactor : 4 * remaining st + 2 <= n -> progresses 1 st (factor (S n) st)).
  { intros Hfuel. rewrite factor_S.
    destruct (tokens st !! pos st) as [token|] eqn:Htok; [|exact I].
    destruct (advanced_in_range st token Htok) as [Hadv Hrem].
    apply lookup_lt_Some in Htok as Hlt.
    destruct (String.eqb token "(").
    - destruct (IH (advanced st) Hadv) as (_ & _ & _ & IHe & _).
      assert (Hfuel' : 4 * remaining (advanced st) + 6 <= n) by lia.
      specialize (IHe Hfuel').
      destruct (expression n (advanced st)) as [[[e st']|err]|]; [|exact I|contradiction].
      destruct IHe as (Htoks & Hlo & Hhi). pose proof (f_equal length Htoks) as Hlen.
      destruct (tokens st' !! pos st') as [closing|] eqn:Hclose; [|exact I].
      apply lookup_lt_Some in Hclose.
      destruct (String.eqb closing ")"); [|exact I]. returned.
    - destruct (isdigit token || has_dot token).
      + destruct (if has_dot token then py_float token else py_int token); [|exact I].
        simpl. repeat split; lia.
      + destruct (isalpha token); [|exact I]. simpl. repeat split; lia. }
  assert (Hpower : 4 * remaining st + 3 <= n -> progresses 1 st (power (S n) st)).
  { intros Hfuel. rewrite power_S.
    destruct (IH st Hpos) as (IHf & _). specialize (IHf Hfuel).
    destruct (factor n st) as [[[lhs st']|err]|]; [|exact I|contradiction].
    destruct IHf as (Htoks & Hlo & Hhi). pose proof (f_equal length Htoks) as Hlen.
    destruct (tokens st' !! pos st') as [op|] eqn:Hop; [|repeat split; assumption].
    destruct (String.eqb op "^"); [|repeat split; assumption].
    destruct (advanced_in_range st' op Hop) as [Hadv Hrem].
    destruct (IH (advanced st') Hadv) as (_ & IHp & _).
    assert (Hfuel' : 4 * remaining (advanced st') + 4 <= n) by cursor_arith.
    specialize (IHp Hfuel').
    destruct (power n (advanced st')) as [[[rhs st'']|err]|]; [|exact I|contradiction].
    destruct IHp as (Htoks' & Hlo' & Hhi'). pose proof (f_equal length Htoks') as Hlen'.
    returned. }
  assert (Hterm_while : forall left st0, pos st0 <= length (tokens st0) ->
             4 * remaining st0 <= n -> progresses 0 st0 (term_while (S n) left st0)).
  { intros left st0 Hpos0 Hfuel. rewrite term_while_S.
    destruct (tokens st0 !! pos st0) as [op|] eqn:Hop; [|simpl; repeat split; lia].
    destruct (is_one_of ["*"; "/"] op); [|simpl; repeat split; lia].
    destruct (advanced_in_range st0 op Hop) as [Hadv Hrem].
    destruct (IH (advanced st0) Hadv) as (_ & IHp & _).
    assert (Hfuel' : 4 * remaining (advanced st0) + 4 <= n) by lia.
    specialize (IHp Hfuel').
    destruct (power n (advanced st0)) as [[[rhs st']|err]|]; [|exact I|contradiction].
    destruct IHp as (Htoks & Hlo & Hhi). pose proof (f_equal length Htoks) as Hlen.
    assert (Hpos' : pos st' <= length (tokens st')) by cursor_arith.
    destruct (IH st' Hpos') as (_ & _ & _ & _ & IHw & _).
    specialize (IHw (Operator (if String.eqb op "*" then Multiply else Divide) [left; rhs])).
    assert (Hfuel'' : 4 * remaining st' + 1 <= n) by cursor_arith.
    specialize (IHw Hfuel'').
    destruct (term_while n _ st') as [[[e st'']|err]|]; [|exact I|contradiction].
    destruct IHw as (Htoks' & Hlo' & Hhi'). pose proof (f_equal length Htoks') as Hlen'.
    returned. }
  assert (Hterm : 4 * remaining st + 4 <= n -> progresses 1 st (term (S n) st)).
  { intros Hfuel. rewrite term_S. unfold mbind, M_bind.
    destruct (IH st Hpos) as (_ & IHp & _). specialize (IHp Hfuel).
    destruct (power n st) as [[[lhs st']|err]|]; [|exact I|contradiction].
    destruct IHp as (Htoks & Hlo & Hhi). pose proof (f_equal length Htoks) as Hlen.
    assert (Hpos' : pos st' <= length (tokens st')) by cursor_arith.
    destruct (IH st' Hpos') as (_ & _ & _ & _ & IHw & _).
    specialize (IHw lhs).
    assert (Hfuel' : 4 * remaining st' + 1 <= n) by cursor_arith.
    specialize (IHw Hfuel').
    destruct (term_while n lhs st') as [[[e st'']|err]|]; [|exact I|contradiction].
    destruct IHw as (Htoks' & Hlo' & Hhi'). pose proof (f_equal length Htoks') as Hlen'.
    returned. }
  assert (Hexpression_while : forall left st0, pos st0 <= length (tokens st0) ->
             4 * remaining st0 + 1 <= n -> progresses 0 st0 (expression_while (S n) left st0)).
  { intros left st0 Hpos0 Hfuel. rewrite expression_while_S.
    destruct (tokens st0 !! pos st0) as [op|] eqn:Hop; [|simpl; repeat split; lia].
    destruct (is_one_of ["+"; "-"] op); [|simpl; repeat split; lia].
    destruct (advanced_in_range st0 op Hop) as [Hadv Hrem].
    destruct (IH (advanced st0) Hadv) as (_ & _ & IHt & _).
    assert (Hfuel' : 4 * remaining (advanced st0) + 5 <= n) by lia.
    specialize (IHt Hfuel').
    destruct (term n (advanced st0)) as [[[rhs st']|err]|]; [|exact I|contradiction].
    destruct IHt as (Htoks & Hlo & Hhi). pose proof (f_equal length Htoks) as Hlen.
    assert (Hpos' : pos st' <= length (tokens st')) by cursor_arith.
    destruct (IH st' Hpos') as (_ & _ & _ & _ & _ & IHw).
    specialize (IHw (Operator (if String.eqb op "+" then Add else Subtract) [left; rhs])).
    assert (Hfuel'' : 4 * remaining st' + 2 <= n) by cursor_arith.
    specialize (IHw Hfuel'').
    destruct (expression_while n _ st') as [[[e st'']|err]|]; [|exact I|contradiction].
    destruct IHw as (Htoks' & Hlo' & Hhi'). pose proof (f_equal length Htoks') as Hlen'.
    returned. }
  assert (Hexpression : 4 * remaining st + 5 <= n -> progresses 1 st (expression (S n) st)).
  { intros Hfuel. rewrite expression_S. unfold mbind, M_bind.
    destruct (IH st Hpos) as (_ & _ & IHt & _). specialize (IHt Hfuel).
    destruct (term n st) as [[[lhs st']|err]|]; [|exact I|contradiction].
    destruct IHt as (Htoks & Hlo & Hhi). pose proof (f_equal length Htoks) as Hlen.
    assert (Hpos' : pos st' <= length (tokens st')) by cursor_arith.
    destruct (IH st' Hpos') as (_ & _ & _ & _ & _ & IHw).
    specialize (IHw lhs).
    assert (Hfuel' : 4 * remaining st' + 2 <= n) by cursor_arith.
    specialize (IHw Hfuel').
    destruct (expression_while n lhs st') as [[[e st'']|err]|]; [|exact I|contradiction].
    destruct IHw as (Htoks' & Hlo' & Hhi'). pose proof (f_equal length Htoks') as Hlen'.
    returned. }
  repeat split; intros.
  - apply Hfactor. lia.
  - apply Hpower. lia.
  - apply Hterm. lia.
  - apply Hexpression. lia.
  - apply Hterm_while; [exact Hpos|lia].
  - apply Hexpression_while; [exact Hpos|lia].
Qed.

(** [parse] is total: it returns a tree or raises, for every input. *)
Theorem parse_total (s : string) : exists r : result expr, parse s = Some r.
Proof.
  unfold parse. cbn [tokens].
  destruct (fuel_suffices (parse_fuel (tokenize s)) {| tokens := tokenize s; pos := 0 |})
    as (_ & _ & _ & He & _); [simpl; lia|].
  specialize (He ltac:(unfold remaining, parse_fuel; simpl; lia)).
  destruct (expression _ _) as [[[e st']|err]|]; [|eexists; reflexivity|contradiction].
  destruct (tokens st' !! pos st'); eexists; reflexivity.
Qed.

(** ** The parser builds trees through the constructors *)

Lemma parser_well_formed (n : nat) (st : Parser) :
  returns_well_formed (factor n st)
  /\ returns_well_formed (power n st)
  /\ returns_well_formed (term n st)
  /\ returns_well_formed (expression n st)
  /\ (forall left, well_formed left = true -> returns_well_formed (term_while n left st))
  /\ (forall left, well_formed left = true -> returns_well_formed (expression_while n left st)).
Proof.
  revert st. induction n as [|n IH]; intros st.
  { repeat split; intros; exact I. }
  assert (Hfactor : returns_well_formed (factor (S n) st)).
  { rewrite factor_S. destruct (tokens st !! pos st) as [token|]; [|exact I].
    destruct (String.eqb token "(").
    - destruct (IH (advanced st)) as (_ & _ & _ & IHe & _).
      destruct (expression n (advanced st)) as [[[e st']|err]|]; try exact I.
      destruct (tokens st' !! pos st') as [closing|]; [|exact I].
      destruct (String.eqb closing ")"); [exact IHe|exact I].
    - destruct (isdigit token || has_dot token).
      + destruct (if has_dot token then py_float token else py_int token); [reflexivity|exact I].
      + destruct (isalpha token); [reflexivity|exact I]. }
  assert (Hpower : returns_well_formed (power (S n) st)).
  { rewrite power_S. destruct (IH st) as (IHf & _).
    destruct (factor n st) as [[[lhs st']|err]|]; try exact I.
    destruct (tokens st' !! pos st') as [op|]; [|exact IHf].
    destruct (String.eqb op "^"); [|exact IHf].
    destruct (IH (advanced st')) as (_ & IHp & _).
    destruct (power n (advanced st')) as [[[rhs st'']|err]|]; try exact I.
    simpl in IHf, IHp |- *. rewrite IHf, IHp. reflexivity. }
  assert (Hterm_while : forall left st0, well_formed left = true ->
             returns_well_formed (term_while (S n) left st0)).
  { intros left st0 Hleft. rewrite term_while_S.
    destruct (tokens st0 !! pos st0) as [op|]; [|exact Hleft].
    destruct (is_one_of ["*"; "/"] op); [|exact Hleft].
    destruct (IH (advanced st0)) as (_ & IHp & _).
    destruct (power n (advanced st0)) as [[[rhs st']|err]|]; try exact I.
    destruct (IH st') as (_ & _ & _ & _ & IHw & _). apply IHw.
    simpl in IHp |- *. rewrite Hleft, IHp. destruct (String.eqb op "*"); reflexivity. }
  assert (Hexpression_while : forall left st0, well_formed left = true ->
             returns_well_formed (expression_while (S n) left st0)).
  { intros left st0 Hleft. rewrite expression_while_S.
    destruct (tokens st0 !! pos st0) as [op|]; [|exact Hleft].
    destruct (is_one_of ["+"; "-"] op); [|exact Hleft].
    destruct (IH (advanced st0)) as (_ & _ & IHt & _).
    destruct (term n (advanced st0)) as [[[rhs st']|err]|]; try exact I.
    destruct (IH st') as (_ & _ & _ & _ & _ & IHw). apply IHw.
    simpl in IHt |- *. rewrite Hleft, IHt. destruct (String.eqb op "+"); reflexivity. }
  repeat split; try assumption; try (intros; auto).
  - rewrite term_S. unfold mbind, M_bind. destruct (IH st) as (_ & IHp & _).
    destruct (power n st) as [[[lhs st']|err]|]; try exact I.
    destruct (IH st') as (_ & _ & _ & _ & IHw & _). apply IHw. exact IHp.
  - rewrite expression_S. unfold mbind, M_bind. destruct (IH st) as (_ & _ & IHt & _).
    destruct (term n st) as [[[lhs st']|err]|]; try exact I.
    destruct (IH st') as (_ & _ & _ & _ & _ & IHw). apply IHw. exact IHt.
Qed.

(** Every tree [parse] returns satisfies the arities of the constructors. *)
Lemma parse_well_formed (s : string) (e : expr) :
  parse s = Some (Ok e) -> well_formed e = true.
Proof.
  unfold parse. cbn [tokens].
  destruct (parser_well_formed (parse_fuel (tokenize s)) {| tokens := tokenize s; pos := 0 |})
    as (_ & _ & _ & He & _).
  destruct (expression _ _) as [[[e' st']|err]|]; try discriminate.
  destruct (tokens st' !! pos st'); [discriminate|].
  intros Hp. injection Hp as <-. exact He.
Qed.

(** ** Identifiers *)

Lemma ident_start_not_paren (c : ascii) : is_ident_start c = true -> Ascii.eqb c "(" = false.
Proof.
  destruct c as [[] [] [] [] [] [] [] []]; vm_compute; intros; congruence.
Qed.

(** What the parser does with an input that is one identifier: it is a
    [Symbol] when it consists of letters, and refused otherwise. *)
Lemma parse_identifier (t : string) :
  is_identifier t = true ->
  parse t = Some (if isalpha t then Ok (Symbol t)
                  else Raise (ValueError ("Invalid token: " ++ t))).
Proof.
  unfold is_identifier, match_identifier.
  destruct t as [|c tail]; [discriminate|].
  destruct (is_ident_start c) eqn:Hstart; [|discriminate].
  destruct (span is_ident_char tail) as [tail' r] eqn:Hspan.
  destruct r; [|discriminate]. intros _.
  apply span_spec in Hspan as (Htail & Hall & _).
  rewrite append_empty_r in Htail. subst tail'.
  pose proof (ident_start_not_digit c Hstart) as Hnd.
  assert (Hmatch : match_token (String c tail) = Some (String c tail, EmptyString)).
  { unfold match_token, match_number. simpl. rewrite Hnd, Hstart.
    rewrite <- (append_empty_r tail) at 1.
    rewrite (span_all is_ident_char tail EmptyString Hall I). reflexivity. }
  assert (Hparen : String.eqb (String c tail) "(" = false).
  { cbn [String.eqb]. rewrite (ident_start_not_paren c Hstart). reflexivity. }
  assert (Hnum : isdigit (String c tail) || has_dot (String c tail) = false).
  { apply orb_false_intro.
    - unfold isdigit, all_chars. simpl. rewrite Hnd. reflexivity.
    - apply (no_dot_in is_ident_char); [reflexivity|].
      unfold all_chars in *. simpl. rewrite Hall.
      unfold is_ident_char. unfold is_ident_start in Hstart.
      destruct (is_alpha c), (is_digit c); simpl in Hstart |- *;
        try rewrite Hstart; reflexivity. }
  apply (parse_single_token _ (String c tail)); [apply tokenize_single_token; exact Hmatch|].
  rewrite factor_S. cbn [tokens pos]. change ([String c tail] !! 0%nat) with (Some (String c tail)).
  cbv iota. rewrite Hparen, Hnum. destruct (isalpha (String c tail)); reflexivity.
Qed.

(** * Further properties *)

(** ** More fuel does not change what the parser does *)

Lemma fuel_monotone (n : nat) (st : Parser) :
  (forall r, factor n st = Some r -> factor (S n) st = Some r)
  /\ (forall r, power n st = Some r -> power (S n) st = Some r)
  /\ (forall r, term n st = Some r -> term (S n) st = Some r)
  /\ (forall r, expression n st = Some r -> expression (S n) st = Some r)
  /\ (forall left r, term_while n left st = Some r -> term_while (S n) left st = Some r)
  /\ (forall left r, expression_while n left st = Some r ->
                     expression_while (S n) left st = Some r).
Proof.
  revert st. induction n as [|n IH]; intros st.
  { repeat split; intros; discriminate. }
  repeat split.
  - intros r Hr. rewrite factor_S in Hr |- *.
    destruct (tokens st !! pos st) as [token|]; [|exact Hr].
    destruct (String.eqb token "("); [|exact Hr].
    destruct (expression n (advanced st)) as [res|] eqn:He; [|discriminate].
    destruct (IH (advanced st)) as (_ & _ & _ & IHe & _).
    rewrite (IHe res He). exact Hr.
  - intros r Hr. rewrite power_S in Hr |- *.
    destruct (factor n st) as [res|] eqn:Hf; [|discriminate].
    destruct (IH st) as (IHf & _). rewrite (IHf res Hf).
    destruct res as [[lhs st']|err]; [|exact Hr].
    destruct (tokens st' !! pos st') as [op|]; [|exact Hr].
    destruct (String.eqb op "^"); [|exact Hr].
    destruct (power n (advanced st')) as [res'|] eqn:Hp; [|discriminate].
    destruct (IH (advanced st')) as (_ & IHp & _). rewrite (IHp res' Hp). exact Hr.
  - intros r Hr. rewrite term_S in Hr |- *. unfold mbind, M_bind in *.
    destruct (power n st) as [res|] eqn:Hp; [|discriminate].
    destruct (IH st) as (_ & IHp & _). rewrite (IHp res Hp).
    destruct res as [[lhs st']|err]; [|exact Hr].
    destruct (IH st') as (_ & _ & _ & _ & IHw & _). exact (IHw lhs r Hr).
  - intros r Hr. rewrite expression_S in Hr |- *. unfold mbind, M_bind in *.
    destruct (term n st) as [res|] eqn:Ht; [|discriminate].
    destruct (IH st) as (_ & _ & IHt & _). rewrite (IHt res Ht).
    destruct res as [[lhs st']|err]; [|exact Hr].
    destruct (IH st') as (_ & _ & _ & _ & _ & IHw). exact (IHw lhs r Hr).
  - intros left r Hr. rewrite term_while_S in Hr |- *.
    destruct (tokens st !! pos st) as [op|]; [|exact Hr].
    destruct (is_one_of ["*"; "/"] op); [|exact Hr].
    destruct (power n (advanced st)) as [res|] eqn:Hp; [|discriminate].
    destruct (IH (advanced st)) as (_ & IHp & _). rewrite (IHp res Hp).
    destruct res as [[rhs st']|err]; [|exact Hr].
    destruct (IH st') as (_ & _ & _ & _ & IHw & _). exact (IHw _ r Hr).
  - intros left r Hr. rewrite expression_while_S in Hr |- *.
    destruct (tokens st !! pos st) as [op|]; [|exact Hr].
    destruct (is_one_of ["+"; "-"] op); [|exact Hr].
    destruct (term n (advanced st)) as [res|] eqn:Ht; [|discriminate].
    destruct (IH (advanced st)) as (_ & _ & IHt & _). rewrite (IHt res Ht).
    destruct res as [[rhs st']|err]; [|exact Hr].
    destruct (IH st') as (_ & _ & _ & _ & _ & IHw). exact (IHw _ r Hr).
Qed.

Lemma fuel_monotone_le (n m : nat) (st : Parser) :
  n <= m ->
  (forall r, factor n st = Some r -> factor m st = Some r)
  /\ (forall r, power n st = Some r -> power m st = Some r)
  /\ (forall r, term n st = Some r -> term m st = Some r)
  /\ (forall r, expression n st = Some r -> expression m st = Some r)
  /\ (forall left r, term_while n left st = Some r -> term_while m left st = Some r)
  /\ (forall left r, expression_while n left st = Some r ->
                     expression_while m left st = Some r).
Proof.
  induction 1 as [|m _ IH]; [repeat split; auto|].
  destruct IH as (IHf & IHp & IHt & IHe & IHtw & IHew).
  destruct (fuel_monotone m st) as (Hf & Hp & Ht & He & Htw & Hew).
  repeat split; eauto.
Qed.

Lemma factor_mono (n m : nat) (st : Parser) r :
  n <= m -> factor n st = Some r -> factor m st = Some r.
Proof. intros Hle. apply (fuel_monotone_le n m st Hle). Qed.

Lemma power_mono (n m : nat) (st : Parser) r :
  n <= m -> power n st = Some r -> power m st = Some r.
Proof. intros Hle. apply (fuel_monotone_le n m st Hle). Qed.

Lemma term_mono (n m : nat) (st : Parser) r :
  n <= m -> term n st = Some r -> term m st = Some r.
Proof. intros Hle. apply (fuel_monotone_le n m st Hle). Qed.

Lemma expression_mono (n m : nat) (st : Parser) r :
  n <= m -> expression n st = Some r -> expression m st = Some r.
Proof. intros Hle. apply (fuel_monotone_le n m st Hle). Qed.

Lemma term_while_mono (n m : nat) (left : expr) (st : Parser) r :
  n <= m -> term_while n left st = Some r -> term_while m left st = Some r.
Proof. intros Hle. apply (fuel_monotone_le n m st Hle). Qed.

Lemma expression_while_mono (n m : nat) (left : expr) (st : Parser) r :
  n <= m -> expression_while n left st = Some r -> expression_while m left st = Some r.
Proof. intros Hle. apply (fuel_monotone_le n m st Hle). Qed.

(** ** The parser as rules, one per path through a method *)

Lemma runs_factor_leaf (st : Parser) (token : string) :
  tokens st !! pos st = Some token -> String.eqb token "(" = false ->
  runs factor st (match leaf token with
                  | Ok e => Ok (e, advanced st)
                  | Raise err => Raise err
                  end).
Proof.
  intros Htok Hparen. exists 1%nat. rewrite factor_S, Htok, Hparen. unfold leaf.
  destruct (isdigit token || has_dot token).
  - destruct (if has_dot token then py_float token else py_int token); reflexivity.
  - destruct (isalpha token); reflexivity.
Qed.

Lemma runs_factor_paren (st st' : Parser) (e : expr) :
  tokens st !! pos st = Some "(" ->
  runs expression (advanced st) (Ok (e, st')) ->
  tokens st' !! pos st' = Some ")" ->
  runs factor st (Ok (e, advanced st')).
Proof.
  intros Hopen [n He] Hclose. exists (S n). rewrite factor_S, Hopen. cbn [String.eqb].
  change (String.eqb "(" "(") with true. cbv iota. rewrite He, Hclose. reflexivity.
Qed.

Lemma runs_power_stop (st st' : Parser) (lhs : expr) :
  runs factor st (Ok (lhs, st')) ->
  match tokens st' !! pos st' with Some op => String.eqb op "^" = false | None => True end ->
  runs power st (Ok (lhs, st')).
Proof.
  intros [n Hf] Hnext. exists (S n). rewrite power_S, Hf.
  destruct (tokens st' !! pos st') as [op|]; [rewrite Hnext|]; reflexivity.
Qed.

Lemma runs_power_step (st st' st'' : Parser) (lhs rhs : expr) :
  runs factor st (Ok (lhs, st')) ->
  tokens st' !! pos st' = Some "^" ->
  runs power (advanced st') (Ok (rhs, st'')) ->
  runs power st (Ok (Operator Power [lhs; rhs], st'')).
Proof.
  intros [n Hf] Hop [m Hp]. exists (S (max n m)).
  rewrite power_S, (factor_mono n _ _ _ (Nat.le_max_l n m) Hf), Hop.
  change (String.eqb "^" "^") with true. cbv iota.
  rewrite (power_mono m _ _ _ (Nat.le_max_r n m) Hp). reflexivity.
Qed.

Lemma runs_term (st st' : Parser) (lhs : expr) r :
  runs power st (Ok (lhs, st')) ->
  runs (fun n => term_while n lhs) st' r ->
  runs term st r.
Proof.
  intros [n Hp] [m Hw]. exists (S (max n m)). rewrite term_S.
  rewrite (bind_Ok _ _ _ _ _ (power_mono n _ _ _ (Nat.le_max_l n m) Hp)).
  apply (term_while_mono m _ _ _ _ (Nat.le_max_r n m) Hw).
Qed.

Lemma runs_term_while_stop (st : Parser) (left : expr) :
  match tokens st !! pos st with
  | Some op => is_one_of ["*"; "/"] op = false
  | None => True
  end ->
  runs (fun n => term_while n left) st (Ok (left, st)).
Proof.
  intros Hnext. exists 1%nat. rewrite term_while_S.
  destruct (tokens st !! pos st) as [op|]; [rewrite Hnext|]; reflexivity.
Qed.

Lemma runs_term_while_step (st st' : Parser) (left rhs : expr) (op : string) r :
  tokens st !! pos st = Some op -> is_one_of ["*"; "/"] op = true ->
  runs power (advanced st) (Ok (rhs, st')) ->
  runs (fun n => term_while n (Operator (if String.eqb op "*" then Multiply else Divide)
                                        [left; rhs])) st' r ->
  runs (fun n => term_while n left) st r.
Proof.
  intros Hop Hin [n Hp] [m Hw]. exists (S (max n m)).
  rewrite term_while_S, Hop, Hin, (power_mono n _ _ _ (Nat.le_max_l n m) Hp).
  apply (term_while_mono m _ _ _ _ (Nat.le_max_r n m) Hw).
Qed.

Lemma runs_expression (st st' : Parser) (lhs : expr) r :
  runs term st (Ok (lhs, st')) ->
  runs (fun n => expression_while n lhs) st' r ->
  runs expression st r.
Proof.
  intros [n Ht] [m Hw]. exists (S (max n m)). rewrite expression_S.
  rewrite (bind_Ok _ _ _ _ _ (term_mono n _ _ _ (Nat.le_max_l n m) Ht)).
  apply (expression_while_mono m _ _ _ _ (Nat.le_max_r n m) Hw).
Qed.

Lemma runs_expression_while_stop (st : Parser) (left : expr) :
  match tokens st !! pos st with
  | Some op => is_one_of ["+"; "-"] op = false
  | None => True
  end ->
  runs (fun n => expression_while n left) st (Ok (left, st)).
Proof.
  intros Hnext. exists 1%nat. rewrite expression_while_S.
  destruct (tokens st !! pos st) as [op|]; [rewrite Hnext|]; reflexivity.
Qed.

Lemma runs_expression_while_step (st st' : Parser) (left rhs : expr) (op : string) r :
  tokens st !! pos st = Some op -> is_one_of ["+"; "-"] op = true ->
  runs term (advanced st) (Ok (rhs, st')) ->
  runs (fun n => expression_while n (Operator (if String.eqb op "+" then Add else Subtract)
                                              [left; rhs])) st' r ->
  runs (fun n => expression_while n left) st r.
Proof.
  intros Hop Hin [n Ht] [m Hw]. exists (S (max n m)).
  rewrite expression_while_S, Hop, Hin, (term_mono n _ _ _ (Nat.le_max_l n m) Ht).
  apply (expression_while_mono m _ _ _ _ (Nat.le_max_r n m) Hw).
Qed.

(** [parse] is the run of [expression] from the first token, and the check
    that no token is left. *)
Lemma runs_parse (s : string) (r : result (expr * Parser)) :
  runs expression {| tokens := tokenize s; pos := 0 |} r ->
  parse s = Some (match r with
                  | Ok (e, st') =>
                      match tokens st' !! pos st' with
                      | Some token => Raise (ValueError ("Unexpected token: " ++ token))
                      | None => Ok e
                      end
                  | Raise err => Raise err
                  end).
Proof.
  intros [n Hn]. unfold parse. cbn [tokens].
  set (st := {| tokens := tokenize s; pos := 0 |}) in *.
  destruct (fuel_suffices (parse_fuel (tokenize s)) st) as (_ & _ & _ & He & _);
    [simpl; lia|].
  specialize (He ltac:(unfold remaining, parse_fuel; simpl; lia)).
  destruct (expression (parse_fuel (tokenize s)) st) as [r'|] eqn:Hfuel; [|contradiction].
  assert (r' = r) as ->.
  { pose proof (expression_mono _ (max n (parse_fuel (tokenize s))) _ _
                  (Nat.le_max_l _ _) Hn) as H1.
    pose proof (expression_mono _ (max n (parse_fuel (tokenize s))) _ _
                  (Nat.le_max_r _ _) Hfuel) as H2.
    congruence. }
  destruct r as [[e st']|err]; [|reflexivity].
  destruct (tokens st' !! pos st'); reflexivity.
Qed.

(** ** Decimal numerals: [int(str(z))] *)

Lemma digits_value_acc (d : Decimal.uint) (acc : positive) :
  foldl (fun a c => (10 * a + Z.of_nat (nat_of_ascii c - 48))%Z) (Z.pos acc)
        (list_ascii_of_string (NilEmpty.string_of_uint d))
  = Z.pos (Pos.of_uint_acc d acc).
Proof.
  revert acc. induction d as [|d IH|d IH|d IH|d IH|d IH|d IH|d IH|d IH|d IH|d IH];
    intros acc; [reflexivity|..]; cbn [NilEmpty.string_of_uint list_ascii_of_string foldl];
    cbn [Pos.of_uint_acc]; rewrite <- IH; f_equal;
    match goal with
    | |- context [Z.of_nat ?n] => let v := eval vm_compute in (Z.of_nat n) in
                                  change (Z.of_nat n) with v
    end; lia.
Qed.

Lemma digits_value_uint (d : Decimal.uint) :
  digits_value (NilEmpty.string_of_uint d) = Z.of_N (Pos.of_uint d).
Proof.
  unfold digits_value.
  induction d as [|d IH|d IH|d IH|d IH|d IH|d IH|d IH|d IH|d IH|d IH];
    [reflexivity|exact IH|..];
    cbn [NilEmpty.string_of_uint list_ascii_of_string foldl Pos.of_uint];
    apply (digits_value_acc d).
Qed.

Lemma uint_digits (d : Decimal.uint) :
  all_chars is_digit (NilEmpty.string_of_uint d) = true.
Proof.
  induction d as [|d IH|d IH|d IH|d IH|d IH|d IH|d IH|d IH|d IH|d IH];
    [reflexivity|..]; exact IH.
Qed.

(** The decimal numeral of an int that is not negative: digits only, and
    [int] reads the int back. *)
Lemma str_of_int_digits (z : Z) :
  (0 <= z)%Z -> isdigit (str_of_int z) = true /\ digits_value (str_of_int z) = z.
Proof.
  intros Hz. destruct z as [|p|p]; [split; reflexivity| |lia].
  unfold str_of_int. cbn [Z.to_int NilZero.string_of_int].
  pose proof (DecimalPos.Unsigned.of_to p) as Hback.
  pose proof (DecimalPos.Unsigned.to_uint_nonnil p) as Hnonnil.
  assert (NilZero.string_of_uint (Pos.to_uint p) = NilEmpty.string_of_uint (Pos.to_uint p))
    as -> by (destruct (Pos.to_uint p); [contradiction|reflexivity..]).
  split.
  - unfold isdigit. rewrite uint_digits.
    destruct (Pos.to_uint p); [contradiction|reflexivity..].
  - rewrite digits_value_uint, Hback. reflexivity.
Qed.

(** ** The scan, token by token *)

Lemma findall_match (n : nat) (s tok rest : string) :
  match_token s = Some (tok, rest) -> (String.length s <= n)%nat ->
  findall n s = tok :: findall n rest.
Proof.
  intros Hmatch Hn. pose proof (match_token_spec _ _ _ Hmatch) as (Hs & Hne & _).
  assert (String.length rest < String.length s)%nat as Hlen.
  { rewrite Hs, length_append. destruct tok; [contradiction|]. simpl. lia. }
  destruct n as [|n]; [lia|]. destruct s as [|c s']; [simpl in Hlen; lia|].
  assert (findall (S n) (String c s') = tok :: findall n rest) as ->
    by (simpl findall; rewrite Hmatch; reflexivity).
  f_equal. simpl in Hlen, Hn. apply findall_fuel; lia.
Qed.

Lemma op_char_not_ident_char (c : ascii) : is_op_char c = true -> is_ident_char c = false.
Proof.
  destruct c as [[] [] [] [] [] [] [] []]; vm_compute; intros; congruence.
Qed.

Lemma op_char_not_point (c : ascii) : is_op_char c = true -> Ascii.eqb c "." = false.
Proof.
  destruct c as [[] [] [] [] [] [] [] []]; vm_compute; intros; congruence.
Qed.

Lemma alpha_ident_start (c : ascii) : is_alpha c = true -> is_ident_start c = true.
Proof. intros Hc. unfold is_ident_start. rewrite Hc. reflexivity. Qed.

Lemma alpha_ident_char (c : ascii) : is_alpha c = true -> is_ident_char c = true.
Proof. intros Hc. unfold is_ident_char. rewrite Hc. reflexivity. Qed.

(** An operator or a parenthesis is a token whatever follows. *)
Lemma match_token_operator (c : ascii) (k : string) :
  is_op_char c = true -> match_token (String c k) = Some (String c EmptyString, k).
Proof.
  intros Hop. unfold match_token, match_number. cbn [span].
  rewrite (op_char_not_digit c Hop). cbn [match_identifier match_operator].
  rewrite (op_char_not_ident_start c Hop), Hop. reflexivity.
Qed.

(** A name of letters is one token when no letter, digit or underscore
    follows it. *)
Lemma match_token_name (name k : string) :
  isalpha name = true -> continues k = true -> match_token (name ++ k) = Some (name, k).
Proof.
  unfold isalpha. destruct name as [|c tail]; [discriminate|]. cbn [String.eqb negb andb].
  unfold all_chars. cbn [list_ascii_of_string forallb]. intros Hall Hk.
  apply andb_prop in Hall as [Hc Htail].
  unfold match_token, match_number. cbn [String.append span].
  rewrite (ident_start_not_digit c (alpha_ident_start c Hc)). cbn [match_identifier].
  rewrite (alpha_ident_start c Hc).
  rewrite (span_all is_ident_char tail k); [reflexivity| |].
  - apply (all_chars_weaken is_alpha); [exact alpha_ident_char|exact Htail].
  - destruct k as [|c' k']; [exact I|]. apply op_char_not_ident_char. exact Hk.
Qed.

(** A string of digits is one token when no digit or point follows it. *)
Lemma match_token_digits (t k : string) :
  isdigit t = true -> continues k = true -> match_token (t ++ k) = Some (t, k).
Proof.
  unfold isdigit. intros Ht Hk. apply andb_prop in Ht as [Hne Hall].
  unfold match_token, match_number.
  rewrite (span_all is_digit t k Hall).
  2:{ destruct k as [|c' k']; [exact I|]. apply op_char_not_digit. exact Hk. }
  destruct t as [|d t]; [discriminate|].
  destruct k as [|c' k']; [reflexivity|].
  rewrite (op_char_not_point c' Hk). reflexivity.
Qed.

Lemma remove_spaces_app (a b : string) :
  remove_spaces (a ++ b) = remove_spaces a ++ remove_spaces b.
Proof.
  induction a as [|c a IH]; [reflexivity|]. cbn [String.append remove_spaces].
  destruct (Ascii.eqb c " "); [exact IH|]. cbn [String.append]. rewrite IH. reflexivity.
Qed.

Lemma alpha_token_char (c : ascii) : is_alpha c = true -> token_char c = true.
Proof. intros Hc. apply ident_start_token_char, alpha_ident_start, Hc. Qed.

Lemma remove_spaces_name (name : string) :
  isalpha name = true -> remove_spaces name = name.
Proof.
  unfold isalpha. intros Hname. apply andb_prop in Hname as [_ Hall].
  apply remove_spaces_token_chars.
  apply (all_chars_weaken is_alpha); [exact alpha_token_char|exact Hall].
Qed.

Lemma remove_spaces_digits (t : string) :
  isdigit t = true -> remove_spaces t = t.
Proof.
  unfold isdigit. intros Ht. apply andb_prop in Ht as [_ Hall].
  apply remove_spaces_token_chars.
  apply (all_chars_weaken is_digit); [exact digit_token_char|exact Hall].
Qed.

Lemma scan_match (s tok rest : string) :
  match_token s = Some (tok, rest) -> scan s = tok :: scan rest.
Proof.
  intros Hmatch. unfold scan. rewrite (findall_match _ _ _ _ Hmatch (le_n _)). f_equal.
  apply match_token_spec in Hmatch as (Hs & _).
  apply findall_fuel; [|reflexivity]. rewrite Hs, length_append. lia.
Qed.

Lemma tokenize_scan (s : string) : tokenize s = scan (remove_spaces s).
Proof. reflexivity. Qed.

Lemma continues_app (y k : string) :
  continues y = true -> continues k = true -> continues (y ++ k) = true.
Proof. destruct y; intros Hy Hk; [exact Hk|exact Hy]. Qed.

Lemma renders_empty : renders_as EmptyString [].
Proof. intros k _. reflexivity. Qed.

Lemma renders_operator (c : ascii) (y : string) (us : list string) :
  is_op_char c = true -> renders_as y us ->
  renders_as (String c y) (String c EmptyString :: us).
Proof.
  intros Hc Hy k Hk. cbn [String.append].
  rewrite (scan_match _ _ _ (match_token_operator c (y ++ k) Hc)), (Hy k Hk). reflexivity.
Qed.

Lemma renders_app (x y : string) (ts us : list string) :
  renders_as x ts -> renders_as y us -> continues y = true ->
  renders_as (x ++ y) (ts ++ us).
Proof.
  intros Hx Hy Hcont k Hk.
  rewrite append_assoc, (Hx (y ++ k) (continues_app y k Hcont Hk)), (Hy k Hk).
  rewrite app_assoc. reflexivity.
Qed.

Lemma renders_name (name : string) : isalpha name = true -> renders_as name [name].
Proof.
  intros Hname k Hk. rewrite (scan_match _ _ _ (match_token_name name k Hname Hk)).
  reflexivity.
Qed.

Lemma renders_digits (t : string) : isdigit t = true -> renders_as t [t].
Proof.
  intros Ht k Hk. rewrite (scan_match _ _ _ (match_token_digits t k Ht Hk)).
  reflexivity.
Qed.

Lemma renders_parenthesized (x : string) (ts : list string) :
  renders_as x ts -> renders_as ("(" ++ x ++ ")") ("(" :: ts ++ [")"]).
Proof.
  intros Hx. apply (renders_operator "(" (x ++ ")") (ts ++ [")"])); [reflexivity|].
  apply renders_app; [exact Hx| |reflexivity].
  apply (renders_operator ")" EmptyString []); [reflexivity|exact renders_empty].
Qed.

Lemma renders_operand (k : kind) (a : expr) (sa : string) :
  renders_as (remove_spaces sa) (tokens_of a) ->
  renders_as (remove_spaces (operand_text k a sa)) (operand_tokens k a (tokens_of a)).
Proof.
  intros Ha.
  assert (renders_as (remove_spaces ("(" ++ sa ++ ")")) ("(" :: tokens_of a ++ [")"])) as Hparen.
  { change ("(" ++ sa ++ ")") with (String "(" (sa ++ ")")).
    cbn [remove_spaces]. change (Ascii.eqb "(" " ") with false. cbv iota.
    rewrite remove_spaces_app. apply (renders_parenthesized _ _ Ha). }
  destruct k; cbn [operand_text operand_tokens]; try exact Hparen;
    destruct (is_operator a); assumption.
Qed.

Section Rendering.
Context `{Host}.

Lemma str_binary (k : kind) (a b : expr) (sa sb : string) :
  str a = Ok sa -> str b = Ok sb ->
  str (Operator k [a; b])
  = Ok (operand_text k a sa ++ separator k ++ operand_text k b sb).
Proof.
  intros Ha Hb. destruct k; cbn [str]; rewrite ?mapM_result_cons, Ha, Hb;
    try reflexivity; cbn [mbind result_bind operand_text separator]; f_equal;
    cbn [String.append]; rewrite !append_assoc; reflexivity.
Qed.

(** The rendering of a tree of the parser's shape without floats scans to
    the tokens of the tree. *)
Lemma str_renders (e : expr) :
  parser_shaped e = true -> has_float e = false ->
  exists s, str e = Ok s /\ renders_as (remove_spaces s) (tokens_of e).
Proof.
  induction e as [n|name|k args IH] using expr_nested_ind; intros Hshape Hfloat.
  - destruct n as [z| |]; try discriminate. cbn in Hshape. apply Z.leb_le in Hshape.
    destruct (str_of_int_digits z Hshape) as [Hdigits _].
    exists (str_of_int z). split; [reflexivity|].
    rewrite (remove_spaces_digits _ Hdigits). apply renders_digits, Hdigits.
  - cbn in Hshape. exists name. split; [reflexivity|].
    rewrite (remove_spaces_name _ Hshape). apply renders_name, Hshape.
  - destruct args as [|a [|b [|c args]]]; try discriminate.
    cbn [parser_shaped] in Hshape. apply andb_prop in Hshape as [Hsa Hsb].
    cbn [has_float existsb] in Hfloat. apply orb_false_elim in Hfloat as [Hfa Hfb].
    apply orb_false_elim in Hfb as [Hfb _].
    inversion IH as [|? ? IHa IH']; subst. inversion IH' as [|? ? IHb _]; subst.
    destruct (IHa Hsa Hfa) as (sa & Ha & Hra). destruct (IHb Hsb Hfb) as (sb & Hb & Hrb).
    eexists. split; [apply (str_binary k a b sa sb Ha Hb)|].
    rewrite !remove_spaces_app. cbn [tokens_of].
    pose proof (renders_operand k a sa Hra) as Hoa.
    pose proof (renders_operand k b sb Hrb) as Hob.
    apply renders_app; [exact Hoa| |destruct k; reflexivity].
    destruct k; cbn [separator op_symbol];
      [apply (renders_operator "+")|apply (renders_operator "-")
      |apply (renders_operator "*")|apply (renders_operator "/")
      |apply (renders_operator "^")]; try reflexivity; exact Hob.
Qed.

Lemma tokenize_str (e : expr) (s : string) :
  parser_shaped e = true -> has_float e = false -> str e = Ok s ->
  tokenize s = tokens_of e.
Proof.
  intros Hshape Hfloat Hs. destruct (str_renders e Hshape Hfloat) as (s' & Hs' & Hr).
  assert (s' = s) as -> by congruence.
  rewrite tokenize_scan, <- (append_empty_r (remove_spaces s)), (Hr EmptyString eq_refl).
  apply app_nil_r.
Qed.
End Rendering.

(** ** The parser on the tokens of a tree *)

Lemma upcoming_head (st : Parser) : tokens st !! pos st = head (upcoming st).
Proof.
  unfold upcoming. rewrite head_lookup, lookup_drop. f_equal. lia.
Qed.

Lemma upcoming_cons (st : Parser) (t : string) (rest : list string) :
  upcoming st = t :: rest ->
  tokens st !! pos st = Some t /\ upcoming (advanced st) = rest.
Proof.
  intros Hup. split; [rewrite upcoming_head, Hup; reflexivity|].
  unfold upcoming, advanced in *. cbn [tokens pos].
  rewrite <- (Nat.add_1_r (pos st)), <- drop_drop, Hup. reflexivity.
Qed.

Lemma not_next_head (ops : list string) (st : Parser) :
  not_next ops (upcoming st) = true ->
  match tokens st !! pos st with
  | Some op => is_one_of ops op = false
  | None => True
  end.
Proof.
  rewrite upcoming_head. destruct (upcoming st) as [|t rest]; [intros; exact I|].
  cbn [not_next head]. apply negb_true_iff.
Qed.

Lemma not_next_weaken (ops ops' rest : list string) :
  (forall t, is_one_of ops t = false -> is_one_of ops' t = false) ->
  not_next ops rest = true -> not_next ops' rest = true.
Proof.
  intros Hsub. destruct rest as [|t rest]; [reflexivity|]. cbn [not_next].
  rewrite !negb_true_iff. apply Hsub.
Qed.

Lemma not_next_nil (rest : list string) : not_next [] rest = true.
Proof. destruct rest; reflexivity. Qed.

Lemma reads_leaf (token : string) (e : expr) :
  leaf token = Ok e -> String.eqb token "(" = false -> reads [] factor [token] e.
Proof.
  intros Hleaf Hparen st rest Hup _. apply upcoming_cons in Hup as [Htok Hrest].
  exists (advanced st). split; [|split; [reflexivity|exact Hrest]].
  pose proof (runs_factor_leaf st token Htok Hparen) as Hruns.
  rewrite Hleaf in Hruns. exact Hruns.
Qed.

Lemma reads_parenthesized (ts : list string) (e : expr) :
  reads ["+"; "-"; "*"; "/"; "^"] expression ts e ->
  reads [] factor ("(" :: ts ++ [")"]) e.
Proof.
  intros He st rest Hup _. cbn [app] in Hup. rewrite <- app_assoc in Hup.
  apply upcoming_cons in Hup as [Hopen Hup].
  destruct (He (advanced st) (")" :: rest) Hup eq_refl) as (st' & Hruns & Htoks & Hup').
  apply upcoming_cons in Hup' as [Hclose Hrest].
  exists (advanced st'). split; [|split; [exact Htoks|exact Hrest]].
  apply (runs_factor_paren st st' e Hopen Hruns Hclose).
Qed.

Lemma reads_power_stop (ts : list string) (e : expr) :
  reads [] factor ts e -> reads ["^"] power ts e.
Proof.
  intros Hf st rest Hup Hnext. destruct (Hf st rest Hup (not_next_nil rest)) as (st' & Hruns & Htoks & Hup').
  exists st'. split; [|split; assumption]. apply (runs_power_stop st st' e Hruns).
  rewrite <- Hup' in Hnext. apply not_next_head in Hnext.
  destruct (tokens st' !! pos st') as [op|]; [|exact I].
  unfold is_one_of in Hnext. cbn [existsb] in Hnext. rewrite orb_false_r in Hnext. exact Hnext.
Qed.

Lemma reads_power_step (ta tb : list string) (a b : expr) :
  reads [] factor ta a -> reads ["^"] power tb b ->
  reads ["^"] power (ta ++ "^" :: tb) (Operator Power [a; b]).
Proof.
  intros Ha Hb st rest Hup Hnext. rewrite <- app_assoc in Hup. cbn [app] in Hup.
  destruct (Ha st _ Hup (not_next_nil _)) as (st1 & Hruns1 & Htoks1 & Hup1).
  apply upcoming_cons in Hup1 as [Hop Hup1].
  destruct (Hb (advanced st1) rest Hup1 Hnext) as (st2 & Hruns2 & Htoks2 & Hup2).
  exists st2. split; [|split; [rewrite Htoks2; exact Htoks1|exact Hup2]].
  apply (runs_power_step st st1 st2 a b Hruns1 Hop Hruns2).
Qed.

Lemma reads_term_stop (ts : list string) (e : expr) :
  reads ["^"] power ts e -> reads ["^"; "*"; "/"] term ts e.
Proof.
  intros Hp st rest Hup Hnext.
  destruct (Hp st rest Hup) as (st' & Hruns & Htoks & Hup').
  { revert Hnext. apply not_next_weaken. operator_cases. }
  exists st'. split; [|split; assumption].
  apply (runs_term st st' e _ Hruns), runs_term_while_stop.
  apply not_next_head. rewrite Hup'. revert Hnext. apply not_next_weaken. operator_cases.
Qed.

Lemma reads_term_step (op : string) (ta tb : list string) (a b : expr) :
  is_one_of ["*"; "/"] op = true ->
  reads ["^"] power ta a -> reads ["^"] power tb b ->
  reads ["^"; "*"; "/"] term (ta ++ op :: tb)
        (Operator (if String.eqb op "*" then Multiply else Divide) [a; b]).
Proof.
  intros Hin Ha Hb st rest Hup Hnext. rewrite <- app_assoc in Hup. cbn [app] in Hup.
  destruct (Ha st _ Hup) as (st1 & Hruns1 & Htoks1 & Hup1).
  { cbn [not_next]. unfold is_one_of in *. cbn [existsb] in *.
    destruct (String.eqb op "^") eqn:Hpow; [|reflexivity].
    apply String.eqb_eq in Hpow. subst op. discriminate. }
  apply upcoming_cons in Hup1 as [Hop Hup1].
  destruct (Hb (advanced st1) rest Hup1) as (st2 & Hruns2 & Htoks2 & Hup2).
  { revert Hnext. apply not_next_weaken. operator_cases. }
  exists st2. split; [|split; [rewrite Htoks2; exact Htoks1|exact Hup2]].
  apply (runs_term st st1 a _ Hruns1).
  apply (runs_term_while_step st1 st2 a b op _ Hop Hin Hruns2).
  apply runs_term_while_stop, not_next_head. rewrite Hup2.
  revert Hnext. apply not_next_weaken. operator_cases.
Qed.

Lemma reads_expression_stop (ts : list string) (e : expr) :
  reads ["^"; "*"; "/"] term ts e -> reads ["+"; "-"; "*"; "/"; "^"] expression ts e.
Proof.
  intros Ht st rest Hup Hnext.
  destruct (Ht st rest Hup) as (st' & Hruns & Htoks & Hup').
  { revert Hnext. apply not_next_weaken. operator_cases. }
  exists st'. split; [|split; assumption].
  apply (runs_expression st st' e _ Hruns), runs_expression_while_stop.
  apply not_next_head. rewrite Hup'. revert Hnext. apply not_next_weaken. operator_cases.
Qed.

Lemma reads_expression_step (op : string) (ta tb : list string) (a b : expr) :
  is_one_of ["+"; "-"] op = true ->
  reads ["^"; "*"; "/"] term ta a -> reads ["^"; "*"; "/"] term tb b ->
  reads ["+"; "-"; "*"; "/"; "^"] expression (ta ++ op :: tb)
        (Operator (if String.eqb op "+" then Add else Subtract) [a; b]).
Proof.
  intros Hin Ha Hb st rest Hup Hnext. rewrite <- app_assoc in Hup. cbn [app] in Hup.
  destruct (Ha st _ Hup) as (st1 & Hruns1 & Htoks1 & Hup1).
  { cbn [not_next]. unfold is_one_of in *. cbn [existsb] in *.
    destruct (String.eqb op "+") eqn:Hplus.
    - apply String.eqb_eq in Hplus. subst op. reflexivity.
    - destruct (String.eqb op "-") eqn:Hminus; [|discriminate].
      apply String.eqb_eq in Hminus. subst op. reflexivity. }
  apply upcoming_cons in Hup1 as [Hop Hup1].
  destruct (Hb (advanced st1) rest Hup1) as (st2 & Hruns2 & Htoks2 & Hup2).
  { revert Hnext. apply not_next_weaken. operator_cases. }
  exists st2. split; [|split; [rewrite Htoks2; exact Htoks1|exact Hup2]].
  apply (runs_expression st st1 a _ Hruns1).
  apply (runs_expression_while_step st1 st2 a b op _ Hop Hin Hruns2).
  apply runs_expression_while_stop, not_next_head. rewrite Hup2.
  revert Hnext. apply not_next_weaken. operator_cases.
Qed.

Lemma alpha_not_digit (c : ascii) : is_alpha c = true -> is_digit c = false.
Proof. intros Hc. apply ident_start_not_digit, alpha_ident_start, Hc. Qed.

(** What [factor] makes of a name of letters and of a numeral. *)
Lemma leaf_name (name : string) :
  isalpha name = true -> leaf name = Ok (Symbol name) /\ String.eqb name "(" = false.
Proof.
  intros Hname. pose proof Hname as Hname'. unfold isalpha in Hname'.
  apply andb_prop in Hname' as [_ Hall]. unfold leaf.
  rewrite (no_dot_in is_alpha name eq_refl Hall), Hname, orb_false_r.
  destruct name as [|c tail]; [discriminate|].
  unfold all_chars in Hall. cbn [list_ascii_of_string forallb] in Hall.
  apply andb_prop in Hall as [Hc _]. split.
  - unfold isdigit, all_chars. cbn [list_ascii_of_string forallb String.eqb negb andb].
    rewrite (alpha_not_digit c Hc). reflexivity.
  - cbn [String.eqb]. destruct (Ascii.eqb c "(") eqn:Hp; [|reflexivity].
    apply Ascii.eqb_eq in Hp as ->. vm_compute in Hc. discriminate.
Qed.

Lemma leaf_digits (t : string) :
  isdigit t = true ->
  leaf t = Ok (Num (PyInt (digits_value t))) /\ String.eqb t "(" = false.
Proof.
  intros Ht. pose proof Ht as Ht'. unfold isdigit in Ht'. apply andb_prop in Ht' as [_ Hall].
  unfold leaf, py_int. rewrite Ht, (all_digits_no_dot t Hall). split; [reflexivity|].
  destruct t as [|c tail]; [discriminate|].
  unfold all_chars in Hall. cbn [list_ascii_of_string forallb] in Hall.
  apply andb_prop in Hall as [Hc _]. apply (digit_not_paren _ c tail eq_refl Hc).
Qed.

(** An operand that [__str__] does not put in parentheses is a leaf, read
    by [factor]. *)
Lemma reads_leaf_tokens (e : expr) :
  parser_shaped e = true -> has_float e = false -> is_operator e = false ->
  reads [] factor (tokens_of e) e.
Proof.
  destruct e as [[z| |]|name|k args]; try discriminate; cbn [parser_shaped tokens_of].
  - intros Hz _ _. apply Z.leb_le in Hz.
    destruct (str_of_int_digits z Hz) as [Hdigits Hvalue].
    destruct (leaf_digits _ Hdigits) as [Hleaf Hparen]. rewrite Hvalue in Hleaf.
    apply (reads_leaf _ _ Hleaf Hparen).
  - intros Hname _ _. destruct (leaf_name _ Hname) as [Hleaf Hparen].
    apply (reads_leaf _ _ Hleaf Hparen).
Qed.

Lemma reads_operand (k : kind) (a : expr) :
  parser_shaped a = true -> has_float a = false ->
  reads ["+"; "-"; "*"; "/"; "^"] expression (tokens_of a) a ->
  reads [] factor (operand_tokens k a (tokens_of a)) a.
Proof.
  intros Hshape Hfloat Ha. pose proof (reads_parenthesized _ _ Ha) as Hparen.
  destruct k; cbn [operand_tokens]; try exact Hparen;
    (destruct (is_operator a) eqn:Hop; [exact Hparen|];
     apply (reads_leaf_tokens a Hshape Hfloat Hop)).
Qed.

(** The parser reads the tokens of a tree of its shape back as the tree. *)
Lemma reads_tokens_of (e : expr) :
  parser_shaped e = true -> has_float e = false ->
  reads ["+"; "-"; "*"; "/"; "^"] expression (tokens_of e) e.
Proof.
  induction e as [n|name|k args IH] using expr_nested_ind; intros Hshape Hfloat.
  - apply reads_expression_stop, reads_term_stop, reads_power_stop.
    apply (reads_leaf_tokens _ Hshape Hfloat eq_refl).
  - apply reads_expression_stop, reads_term_stop, reads_power_stop.
    apply (reads_leaf_tokens _ Hshape Hfloat eq_refl).
  - destruct args as [|a [|b [|c args]]]; try discriminate.
    cbn [parser_shaped] in Hshape. apply andb_prop in Hshape as [Hsa Hsb].
    cbn [has_float existsb] in Hfloat. apply orb_false_elim in Hfloat as [Hfa Hfb].
    apply orb_false_elim in Hfb as [Hfb _].
    inversion IH as [|? ? IHa IH']; subst. inversion IH' as [|? ? IHb _]; subst.
    pose proof (reads_operand k a Hsa Hfa (IHa Hsa Hfa)) as Ha.
    pose proof (reads_operand k b Hsb Hfb (IHb Hsb Hfb)) as Hb.
    cbn [tokens_of]. destruct k; cbn [op_symbol].
    + apply (reads_expression_step "+" _ _ a b eq_refl);
        apply reads_term_stop, reads_power_stop; assumption.
    + apply (reads_expression_step "-" _ _ a b eq_refl);
        apply reads_term_stop, reads_power_stop; assumption.
    + apply reads_expression_stop.
      apply (reads_term_step "*" _ _ a b eq_refl); apply reads_power_stop; assumption.
    + apply reads_expression_stop.
      apply (reads_term_step "/" _ _ a b eq_refl); apply reads_power_stop; assumption.
    + apply reads_expression_stop, reads_term_stop.
      apply (reads_power_step _ _ a b Ha). apply reads_power_stop. exact Hb.
Qed.

(** A successful run of [expression] over all the tokens is the result of
    [parse]. *)
Lemma reads_parse (s : string) (e : expr) :
  reads ["+"; "-"; "*"; "/"; "^"] expression (tokenize s) e -> parse s = Some (Ok e).
Proof.
  intros He.
  destruct (He {| tokens := tokenize s; pos := 0 |} []) as (st' & Hruns & _ & Hup).
  - unfold upcoming. cbn [tokens pos drop]. rewrite app_nil_r. reflexivity.
  - reflexivity.
  - rewrite (runs_parse s _ Hruns), upcoming_head, Hup. reflexivity.
Qed.

Section RoundTrip.
Context `{Host}.

(** Parsing the rendering of a tree of the parser's shape without floats
    gives the tree back. *)
Lemma parse_str_shaped (e : expr) :
  parser_shaped e = true -> has_float e = false ->
  exists s, str e = Ok s /\ parse s = Some (Ok e).
Proof.
  intros Hshape Hfloat. destruct (str_renders e Hshape Hfloat) as (s & Hs & _).
  exists s. split; [exact Hs|]. apply reads_parse.
  rewrite (tokenize_str e s Hshape Hfloat Hs). apply (reads_tokens_of e Hshape Hfloat).
Qed.
End RoundTrip.

(** ** What the parser returns, and what it raises *)

Lemma digits_value_nonneg (s : string) : (0 <= digits_value s)%Z.
Proof.
  unfold digits_value.
  assert (forall l acc, (0 <= acc)%Z ->
            (0 <= foldl (fun a c => 10 * a + Z.of_nat (nat_of_ascii c - 48)) acc l)%Z) as Hfold.
  { induction l as [|c l IH]; intros a Ha; [exact Ha|]. cbn [foldl]. apply IH. lia. }
  apply Hfold. lia.
Qed.

(** The three kinds of token. *)
Lemma token_cases (t : string) :
  is_token t = true ->
  is_number_literal t = true \/ is_identifier t = true
  \/ exists c, is_op_char c = true /\ t = String c EmptyString.
Proof.
  unfold is_token, match_token, is_number_literal, is_identifier.
  destruct (match_number t) as [[tok rest]|]; [intros Ht; left; exact Ht|].
  destruct (match_identifier t) as [[tok rest]|]; [intros Ht; right; left; exact Ht|].
  destruct t as [|c t']; [discriminate|]. cbn [match_operator].
  destruct (is_op_char c) eqn:Hc; [|discriminate].
  destruct t'; [|discriminate]. intros _. right. right. exists c. split; [exact Hc|reflexivity].
Qed.

(** On a token of the tokenizer neither [int] nor [float] raises: [factor]
    returns a leaf of the parser's shape or refuses the token. *)
Lemma leaf_token (t : string) :
  is_token t = true ->
  match leaf t with
  | Ok e => parser_shaped e = true
  | Raise err => isalpha t = false /\ err = ValueError ("Invalid token: " ++ t)
  end.
Proof.
  intros Ht. destruct (token_cases t Ht) as [Hnum|[Hid|(c & Hc & ->)]].
  - apply number_literal_shape in Hnum as (_ & ip & Hne & Hall & [->|(frac & Hfrac & ->)]).
    + destruct (leaf_digits ip (isdigit_digits ip Hne Hall)) as [-> _].
      cbn [parser_shaped]. apply Z.leb_le, digits_value_nonneg.
    + unfold leaf. rewrite has_dot_point, orb_true_r, (py_float_literal ip frac Hne Hall Hfrac).
      reflexivity.
  - unfold is_identifier, match_identifier in Hid. destruct t as [|c tail]; [discriminate|].
    destruct (is_ident_start c) eqn:Hstart; [|discriminate].
    destruct (span is_ident_char tail) as [tail' r] eqn:Hspan.
    destruct r; [|discriminate]. apply span_spec in Hspan as (Htail & Hall & _).
    rewrite append_empty_r in Htail. subst tail'.
    unfold leaf.
    assert (isdigit (String c tail) = false) as ->.
    { unfold isdigit, all_chars. cbn [list_ascii_of_string forallb].
      rewrite (ident_start_not_digit c Hstart). reflexivity. }
    assert (has_dot (String c tail) = false) as ->.
    { apply (no_dot_in is_ident_char); [reflexivity|].
      unfold all_chars in *. cbn [list_ascii_of_string forallb]. rewrite Hall.
      unfold is_ident_char. unfold is_ident_start in Hstart.
      destruct (is_alpha c), (is_digit c); cbn [orb andb] in Hstart |- *;
        try rewrite Hstart; reflexivity. }
    cbn [orb]. destruct (isalpha (String c tail)) eqn:Halpha; [exact Halpha|].
    split; reflexivity.
  - unfold leaf.
    assert (isdigit (String c EmptyString) = false) as ->.
    { unfold isdigit, all_chars. cbn [list_ascii_of_string forallb].
      rewrite (op_char_not_digit c Hc). reflexivity. }
    assert (has_dot (String c EmptyString) = false) as ->.
    { unfold has_dot. cbn [list_ascii_of_string existsb]. rewrite Ascii.eqb_sym.
      rewrite (op_char_not_point c Hc). reflexivity. }
    assert (isalpha (String c EmptyString) = false) as ->.
    { unfold isalpha, all_chars. cbn [list_ascii_of_string forallb String.eqb negb andb].
      destruct (is_alpha c) eqn:Halpha; [|reflexivity].
      pose proof (op_char_not_ident_start c Hc) as Hno.
      pose proof (alpha_ident_start c Halpha) as Hyes. congruence. }
    cbn [orb]. split; reflexivity.
Qed.

Lemma parse_error_same_tokens (toks toks' : list string) (err : exn) :
  toks' = toks -> parse_error toks' err -> parse_error toks err.
Proof. intros ->. exact id. Qed.

Lemma parser_outcome (n : nat) (st : Parser) :
  Forall (fun t => is_token t = true) (tokens st) ->
  outcome st (factor n st)
  /\ outcome st (power n st)
  /\ outcome st (term n st)
  /\ outcome st (expression n st)
  /\ (forall left, parser_shaped left = true -> outcome st (term_while n left st))
  /\ (forall left, parser_shaped left = true -> outcome st (expression_while n left st)).
Proof.
  revert st. induction n as [|n IH]; intros st Htoks.
  { repeat split; intros; exact I. }
  assert (Hfactor : outcome st (factor (S n) st)).
  { rewrite factor_S. destruct (tokens st !! pos st) as [token|] eqn:Htok;
      [|left; reflexivity].
    destruct (String.eqb token "(").
    - destruct (IH (advanced st) Htoks) as (_ & _ & _ & IHe & _).
      destruct (expression n (advanced st)) as [[[e st']|err]|]; [|exact IHe|exact I].
      destruct IHe as [Hsame Hshape].
      destruct (tokens st' !! pos st') as [closing|]; [|right; left; reflexivity].
      destruct (String.eqb closing ")"); [|right; left; reflexivity].
      split; [exact Hsame|exact Hshape].
    - pose proof (leaf_token token) as Hleaf. unfold leaf in Hleaf.
      rewrite Forall_forall in Htoks.
      specialize (Hleaf (Htoks token (list_elem_of_lookup_2 _ _ _ Htok))).
      destruct (isdigit token || has_dot token).
      + destruct (if has_dot token then py_float token else py_int token) as [v|err];
          cbn in Hleaf |- *.
        * split; [reflexivity|exact Hleaf].
        * destruct Hleaf as [Halpha ->]. right. right. exists token.
          split; [apply (list_elem_of_lookup_2 _ _ _ Htok)|]. split; [exact Halpha|reflexivity].
      + destruct (isalpha token) eqn:Halpha.
        * split; [reflexivity|exact Hleaf].
        * right. right. exists token.
          split; [apply (list_elem_of_lookup_2 _ _ _ Htok)|]. split; [exact Halpha|reflexivity]. }
  assert (Hpower : outcome st (power (S n) st)).
  { rewrite power_S. destruct (IH st Htoks) as (IHf & _).
    destruct (factor n st) as [[[lhs st']|err]|]; [|exact IHf|exact I].
    destruct IHf as [Hsame Hshape].
    destruct (tokens st' !! pos st') as [op|]; [|split; assumption].
    destruct (String.eqb op "^"); [|split; assumption].
    destruct (IH (advanced st')) as (_ & IHp & _); [cbn [advanced tokens]; congruence|].
    destruct (power n (advanced st')) as [[[rhs st'']|err]|]; [| |exact I].
    - destruct IHp as [Hsame' Hshape']. split; [cbn [advanced tokens] in Hsame'; congruence|].
      cbn [parser_shaped]. rewrite Hshape, Hshape'. reflexivity.
    - apply (parse_error_same_tokens _ _ _ Hsame IHp). }
  assert (Hterm_while : forall left st0, tokens st0 = tokens st ->
             parser_shaped left = true -> outcome st (term_while (S n) left st0)).
  { intros left st0 Hsame Hleft. rewrite term_while_S.
    destruct (tokens st0 !! pos st0) as [op|]; [|split; assumption].
    destruct (is_one_of ["*"; "/"] op); [|split; assumption].
    destruct (IH (advanced st0)) as (_ & IHp & _); [cbn [advanced tokens]; congruence|].
    destruct (power n (advanced st0)) as [[[rhs st']|err]|]; [| |exact I].
    - destruct IHp as [Hsame' Hshape']. cbn [advanced tokens] in Hsame'.
      destruct (IH st') as (_ & _ & _ & _ & IHw & _); [congruence|].
      specialize (IHw (Operator (if String.eqb op "*" then Multiply else Divide) [left; rhs])).
      cbn [parser_shaped] in IHw. rewrite Hleft, Hshape' in IHw. specialize (IHw eq_refl).
      destruct (term_while n _ st') as [[[e st'']|err]|]; [| |exact I].
      + destruct IHw as [Hsame'' Hshape'']. split; [congruence|exact Hshape''].
      + apply (parse_error_same_tokens _ (tokens st')); [congruence|exact IHw].
    - apply (parse_error_same_tokens _ _ _ Hsame IHp). }
  assert (Hexpression_while : forall left st0, tokens st0 = tokens st ->
             parser_shaped left = true -> outcome st (expression_while (S n) left st0)).
  { intros left st0 Hsame Hleft. rewrite expression_while_S.
    destruct (tokens st0 !! pos st0) as [op|]; [|split; assumption].
    destruct (is_one_of ["+"; "-"] op); [|split; assumption].
    destruct (IH (advanced st0)) as (_ & _ & IHt & _); [cbn [advanced tokens]; congruence|].
    destruct (term n (advanced st0)) as [[[rhs st']|err]|]; [| |exact I].
    - destruct IHt as [Hsame' Hshape']. cbn [advanced tokens] in Hsame'.
      destruct (IH st') as (_ & _ & _ & _ & _ & IHw); [congruence|].
      specialize (IHw (Operator (if String.eqb op "+" then Add else Subtract) [left; rhs])).
      cbn [parser_shaped] in IHw. rewrite Hleft, Hshape' in IHw. specialize (IHw eq_refl).
      destruct (expression_while n _ st') as [[[e st'']|err]|]; [| |exact I].
      + destruct IHw as [Hsame'' Hshape'']. split; [congruence|exact Hshape''].
      + apply (parse_error_same_tokens _ (tokens st')); [congruence|exact IHw].
    - apply (parse_error_same_tokens _ _ _ Hsame IHt). }
  repeat split; try assumption; try (intros; auto).
  - rewrite term_S. unfold mbind, M_bind. destruct (IH st Htoks) as (_ & IHp & _).
    destruct (power n st) as [[[lhs st']|err]|]; [|exact IHp|exact I].
    destruct IHp as [Hsame Hshape].
    destruct (IH st') as (_ & _ & _ & _ & IHw & _); [congruence|].
    specialize (IHw lhs Hshape).
    destruct (term_while n lhs st') as [[[e st'']|err]|]; [| |exact I].
    + destruct IHw as [Hsame' Hshape']. split; [congruence|exact Hshape'].
    + apply (parse_error_same_tokens _ _ _ Hsame IHw).
  - rewrite expression_S. unfold mbind, M_bind. destruct (IH st Htoks) as (_ & _ & IHt & _).
    destruct (term n st) as [[[lhs st']|err]|]; [|exact IHt|exact I].
    destruct IHt as [Hsame Hshape].
    destruct (IH st') as (_ & _ & _ & _ & _ & IHw); [congruence|].
    specialize (IHw lhs Hshape).
    destruct (expression_while n lhs st') as [[[e st'']|err]|]; [| |exact I].
    + destruct IHw as [Hsame' Hshape']. split; [congruence|exact Hshape'].
    + apply (parse_error_same_tokens _ _ _ Hsame IHw).
Qed.

Lemma tokenize_tokens (s : string) : Forall (fun t => is_token t = true) (tokenize s).
Proof.
  unfold tokenize. eapply Forall_impl; [apply findall_tokens|]. intros t [Ht _]. exact Ht.
Qed.

(** Every tree [parse] returns has two operands at every operator, names
    of letters at the symbols, and numbers that are not negative ints or
    floats. *)
Lemma parse_shape (s : string) (e : expr) :
  parse s = Some (Ok e) -> parser_shaped e = true.
Proof.
  unfold parse. cbn [tokens].
  destruct (parser_outcome (parse_fuel (tokenize s)) {| tokens := tokenize s; pos := 0 |}
              (tokenize_tokens s)) as (_ & _ & _ & He & _).
  destruct (expression _ _) as [[[e' st']|err]|]; try discriminate.
  destruct (tokens st' !! pos st'); [discriminate|].
  intros Hp. injection Hp as <-. apply He.
Qed.

(** ** The grammar of the parser *)

Lemma reads_then_term_start (ts : list string) (e : expr) :
  reads ["^"] power ts e -> reads_then ["^"] term term_while ts e.
Proof.
  intros Hp st rest Hup Hnext. destruct (Hp st rest Hup Hnext) as (st' & Hruns & Htoks & Hup').
  exists st'. split; [exact Htoks|]. split; [exact Hup'|].
  intros r Hr. apply (runs_term st st' e r Hruns Hr).
Qed.

Lemma reads_then_term_step (op : string) (ta tb : list string) (a b : expr) :
  is_one_of ["*"; "/"] op = true ->
  reads_then ["^"] term term_while ta a -> reads ["^"] power tb b ->
  reads_then ["^"] term term_while (ta ++ op :: tb)
             (Operator (if String.eqb op "*" then Multiply else Divide) [a; b]).
Proof.
  intros Hin Ha Hb st rest Hup Hnext. rewrite <- app_assoc in Hup. cbn [app] in Hup.
  destruct (Ha st _ Hup) as (st1 & Htoks1 & Hup1 & Hgo).
  { cbn [not_next]. unfold is_one_of in *. cbn [existsb] in *.
    destruct (String.eqb op "^") eqn:Hpow; [|reflexivity].
    apply String.eqb_eq in Hpow. subst op. discriminate. }
  apply upcoming_cons in Hup1 as [Hop Hup1].
  destruct (Hb (advanced st1) rest Hup1 Hnext) as (st2 & Hruns2 & Htoks2 & Hup2).
  exists st2. split; [rewrite Htoks2; exact Htoks1|]. split; [exact Hup2|].
  intros r Hr. apply Hgo. apply (runs_term_while_step st1 st2 a b op r Hop Hin Hruns2 Hr).
Qed.

Lemma reads_then_term_stop (ts : list string) (e : expr) :
  reads_then ["^"] term term_while ts e -> reads ["^"; "*"; "/"] term ts e.
Proof.
  intros Ht st rest Hup Hnext. destruct (Ht st rest Hup) as (st' & Htoks & Hup' & Hgo).
  { revert Hnext. apply not_next_weaken. operator_cases. }
  exists st'. split; [|split; assumption].
  apply Hgo, runs_term_while_stop, not_next_head. rewrite Hup'.
  revert Hnext. apply not_next_weaken. operator_cases.
Qed.

Lemma reads_then_expression_start (ts : list string) (e : expr) :
  reads ["^"; "*"; "/"] term ts e ->
  reads_then ["^"; "*"; "/"] expression expression_while ts e.
Proof.
  intros Ht st rest Hup Hnext. destruct (Ht st rest Hup Hnext) as (st' & Hruns & Htoks & Hup').
  exists st'. split; [exact Htoks|]. split; [exact Hup'|].
  intros r Hr. apply (runs_expression st st' e r Hruns Hr).
Qed.

Lemma reads_then_expression_step (op : string) (ta tb : list string) (a b : expr) :
  is_one_of ["+"; "-"] op = true ->
  reads_then ["^"; "*"; "/"] expression expression_while ta a ->
  reads ["^"; "*"; "/"] term tb b ->
  reads_then ["^"; "*"; "/"] expression expression_while (ta ++ op :: tb)
             (Operator (if String.eqb op "+" then Add else Subtract) [a; b]).
Proof.
  intros Hin Ha Hb st rest Hup Hnext. rewrite <- app_assoc in Hup. cbn [app] in Hup.
  destruct (Ha st _ Hup) as (st1 & Htoks1 & Hup1 & Hgo).
  { cbn [not_next]. unfold is_one_of in *. cbn [existsb] in *.
    destruct (String.eqb op "+") eqn:Hplus.
    - apply String.eqb_eq in Hplus. subst op. reflexivity.
    - destruct (String.eqb op "-") eqn:Hminus; [|discriminate].
      apply String.eqb_eq in Hminus. subst op. reflexivity. }
  apply upcoming_cons in Hup1 as [Hop Hup1].
  destruct (Hb (advanced st1) rest Hup1 Hnext) as (st2 & Hruns2 & Htoks2 & Hup2).
  exists st2. split; [rewrite Htoks2; exact Htoks1|]. split; [exact Hup2|].
  intros r Hr. apply Hgo. apply (runs_expression_while_step st1 st2 a b op r Hop Hin Hruns2 Hr).
Qed.

Lemma reads_then_expression_stop (ts : list string) (e : expr) :
  reads_then ["^"; "*"; "/"] expression expression_while ts e ->
  reads ["+"; "-"; "*"; "/"; "^"] expression ts e.
Proof.
  intros He st rest Hup Hnext. destruct (He st rest Hup) as (st' & Htoks & Hup' & Hgo).
  { revert Hnext. apply not_next_weaken. operator_cases. }
  exists st'. split; [|split; assumption].
  apply Hgo, runs_expression_while_stop, not_next_head. rewrite Hup'.
  revert Hnext. apply not_next_weaken. operator_cases.
Qed.

(** A numeral with a point is one token when no digit follows it. *)
Lemma match_token_float (int_part frac k : string) :
  isdigit int_part = true -> all_chars is_digit frac = true -> continues k = true ->
  match_token ((int_part ++ "." ++ frac) ++ k) = Some (int_part ++ "." ++ frac, k).
Proof.
  unfold isdigit. intros Hint Hfrac Hk. apply andb_prop in Hint as [Hne Hall].
  unfold match_token, match_number. rewrite append_assoc.
  change (("." ++ frac) ++ k) with (String "." (frac ++ k)).
  rewrite (span_all is_digit int_part (String "." (frac ++ k)) Hall eq_refl).
  destruct int_part as [|d ip]; [discriminate|].
  change (Ascii.eqb "." ".") with true. cbv iota.
  rewrite (span_all is_digit frac k Hfrac); [reflexivity|].
  destruct k as [|c' k']; [exact I|]. apply op_char_not_digit. exact Hk.
Qed.

Lemma renders_float (int_part frac : string) :
  isdigit int_part = true -> all_chars is_digit frac = true ->
  renders_as (int_part ++ "." ++ frac) [int_part ++ "." ++ frac].
Proof.
  intros Hint Hfrac k Hk.
  rewrite (scan_match _ _ _ (match_token_float int_part frac k Hint Hfrac Hk)). reflexivity.
Qed.

Lemma leaf_float (int_part frac : string) :
  isdigit int_part = true -> all_chars is_digit frac = true ->
  leaf (int_part ++ "." ++ frac)
  = Ok (Num (PyFloat (round_quotient (digits_value (int_part ++ frac))
                                     (10 ^ Z.of_nat (String.length frac)))))
  /\ String.eqb (int_part ++ "." ++ frac) "(" = false.
Proof.
  unfold isdigit. intros Hint Hfrac. apply andb_prop in Hint as [Hne Hall].
  assert (int_part <> EmptyString) as Hne' by (destruct int_part; [discriminate|congruence]).
  change ("." ++ frac) with (String "." frac). split.
  - unfold leaf. rewrite has_dot_point, orb_true_r, (py_float_literal _ _ Hne' Hall Hfrac).
    reflexivity.
  - destruct int_part as [|d ip]; [contradiction|].
    unfold all_chars in Hall. cbn [list_ascii_of_string forallb] in Hall.
    apply andb_prop in Hall as [Hd _].
    apply (digit_not_paren _ d (ip ++ String "." frac) eq_refl Hd).
Qed.

Lemma renders_binary (c : ascii) (a b : string) (ta tb : list string) :
  is_op_char c = true -> renders_as a ta -> renders_as b tb ->
  renders_as (a ++ String c b) (ta ++ String c EmptyString :: tb).
Proof.
  intros Hc Ha Hb. apply renders_app; [exact Ha| |exact Hc].
  apply (renders_operator c b tb Hc Hb).
Qed.

(** The parser implements the grammar. *)
Lemma derives_parses_as (l : level) (s : string) (e : expr) :
  derives l s e -> parses_as l s e.
Proof.
  induction 1 as [name Hname|t Ht|ip frac Hint Hfrac|s e _ [ts [Hr He]]
                 |s e _ [ts [Hr He]]
                 |a b ea eb _ [ta [Hra Ha]] _ [tb [Hrb Hb]]
                 |s e _ [ts [Hr He]]
                 |a b ea eb _ [ta [Hra Ha]] _ [tb [Hrb Hb]]
                 |a b ea eb _ [ta [Hra Ha]] _ [tb [Hrb Hb]]
                 |s e _ [ts [Hr He]]
                 |a b ea eb _ [ta [Hra Ha]] _ [tb [Hrb Hb]]
                 |a b ea eb _ [ta [Hra Ha]] _ [tb [Hrb Hb]]].
  - exists [name]. split; [apply renders_name, Hname|].
    destruct (leaf_name name Hname) as [Hleaf Hparen]. apply (reads_leaf _ _ Hleaf Hparen).
  - exists [t]. split; [apply renders_digits, Ht|].
    destruct (leaf_digits t Ht) as [Hleaf Hparen]. apply (reads_leaf _ _ Hleaf Hparen).
  - exists [ip ++ "." ++ frac]. split; [apply (renders_float ip frac Hint Hfrac)|].
    destruct (leaf_float ip frac Hint Hfrac) as [Hleaf Hparen].
    apply (reads_leaf _ _ Hleaf Hparen).
  - exists ("(" :: ts ++ [")"])%list. split; [apply renders_parenthesized, Hr|].
    apply reads_parenthesized, reads_then_expression_stop, He.
  - exists ts. split; [exact Hr|]. apply reads_power_stop, He.
  - exists (ta ++ "^" :: tb)%list. split; [apply (renders_binary "^" a b ta tb eq_refl Hra Hrb)|].
    apply (reads_power_step ta tb ea eb Ha Hb).
  - exists ts. split; [exact Hr|]. apply reads_then_term_start, He.
  - exists (ta ++ "*" :: tb)%list. split; [apply (renders_binary "*" a b ta tb eq_refl Hra Hrb)|].
    apply (reads_then_term_step "*" ta tb ea eb eq_refl Ha Hb).
  - exists (ta ++ "/" :: tb)%list. split; [apply (renders_binary "/" a b ta tb eq_refl Hra Hrb)|].
    apply (reads_then_term_step "/" ta tb ea eb eq_refl Ha Hb).
  - exists ts. split; [exact Hr|].
    apply reads_then_expression_start, reads_then_term_stop, He.
  - exists (ta ++ "+" :: tb)%list. split; [apply (renders_binary "+" a b ta tb eq_refl Hra Hrb)|].
    apply (reads_then_expression_step "+" ta tb ea eb eq_refl Ha).
    apply reads_then_term_stop, Hb.
  - exists (ta ++ "-" :: tb)%list. split; [apply (renders_binary "-" a b ta tb eq_refl Hra Hrb)|].
    apply (reads_then_expression_step "-" ta tb ea eb eq_refl Ha).
    apply reads_then_term_stop, Hb.
Qed.

Lemma parses_as_parse (s : string) (e : expr) :
  parses_as Expression (remove_spaces s) e -> parse s = Some (Ok e).
Proof.
  intros (ts & Hr & He). apply reads_parse.
  assert (tokenize s = ts) as ->.
  { rewrite tokenize_scan, <- (append_empty_r (remove_spaces s)), (Hr EmptyString eq_refl).
    apply app_nil_r. }
  apply reads_then_expression_stop, He.
Qed.

(** ** Rendering is injective on the trees of the parser *)

Section Renderings.
Context `{Host}.

Lemma str_injective (a b : expr) (s : string) :
  parser_shaped a = true -> has_float a = false ->
  parser_shaped b = true -> has_float b = false ->
  str a = Ok s -> str b = Ok s -> a = b.
Proof.
  intros Hsa Hfa Hsb Hfb Ha Hb.
  destruct (parse_str_shaped a Hsa Hfa) as (sa & Ha' & Hpa).
  destruct (parse_str_shaped b Hsb Hfb) as (sb & Hb' & Hpb).
  assert (sa = s) as -> by congruence. assert (sb = s) as -> by congruence.
  congruence.
Qed.
End Renderings.

(** ** The tokenizer on texts of token characters *)

Lemma concat_empty_cons (t : string) (l : list string) :
  String.concat "" (t :: l) = t ++ String.concat "" l.
Proof.
  destruct l as [|u l]; cbn [String.concat]; [rewrite append_empty_r; reflexivity|].
  reflexivity.
Qed.

Lemma match_token_begins (c : ascii) (s : string) :
  begins_token c = true -> exists tok rest, match_token (String c s) = Some (tok, rest).
Proof.
  unfold begins_token, match_token. intros Hc.
  destruct (match_number (String c s)) as [[tok rest]|] eqn:Hnum; [eauto|].
  destruct (match_identifier (String c s)) as [[tok rest]|] eqn:Hid; [eauto|].
  cbn [match_operator]. destruct (is_op_char c) eqn:Hop; [eauto|].
  unfold match_number in Hnum. cbn [span match_identifier] in Hnum, Hid.
  destruct (is_digit c) eqn:Hdigit.
  - destruct (span is_digit s) as [a r1]. destruct r1 as [|c' r2]; [discriminate|].
    destruct (Ascii.eqb c' "."); [|discriminate].
    destruct (span is_digit r2); discriminate.
  - destruct (is_ident_start c); [|discriminate].
    destruct (span is_ident_char s); discriminate.
Qed.

Lemma findall_lossless (n : nat) (s : string) :
  (String.length s <= n)%nat -> all_chars begins_token s = true ->
  String.concat "" (findall n s) = s.
Proof.
  revert s. induction n as [|n IH]; intros s Hn Hall.
  - destruct s; [reflexivity|simpl in Hn; lia].
  - destruct s as [|c s']; [reflexivity|].
    assert (begins_token c = true) as Hc.
    { unfold all_chars in Hall. cbn [list_ascii_of_string forallb] in Hall.
      apply andb_prop in Hall as [Hc _]. exact Hc. }
    destruct (match_token_begins c s' Hc) as (tok & rest & Hmatch).
    rewrite (findall_match (S n) _ _ _ Hmatch Hn), concat_empty_cons.
    apply match_token_spec in Hmatch as (Hs & Hne & _).
    rewrite Hs in Hall, Hn. rewrite all_chars_app in Hall. apply andb_prop in Hall as [_ Hrest].
    rewrite length_append in Hn.
    rewrite (findall_fuel (S n) n rest), (IH rest); [symmetry; exact Hs| | | |].
    + destruct tok; [contradiction|]. simpl in Hn. lia.
    + exact Hrest.
    + lia.
    + destruct tok; [contradiction|]. simpl in Hn. lia.
Qed.

Lemma begins_token_token_char (c : ascii) : begins_token c = true -> token_char c = true.
Proof. unfold begins_token, token_char. intros ->. reflexivity. Qed.

(** ** Evaluation *)

Lemma mapM_result_raises {A B} (f : A -> result B) (l : list A) :
  Exists (fun a => exists err, f a = Raise err) l -> exists err, mapM f l = Raise err.
Proof.
  induction 1 as [a l [err Ha]|a l _ [err IH]]; rewrite mapM_result_cons.
  - rewrite Ha. exists err. reflexivity.
  - destruct (f a) as [b|err']; [|exists err'; reflexivity].
    cbn. rewrite IH. exists err. reflexivity.
Qed.

Lemma mapM_result_id {A} (f : A -> result A) (l : list A) :
  Forall (fun a => f a = Ok a) l -> mapM f l = Ok l.
Proof.
  intros Hall. rewrite (mapM_result_map f id l Hall), map_id. reflexivity.
Qed.

Lemma mapM_option_Forall2 {A B} (f : A -> option B) (l : list A) (bs : list B) :
  mapM f l = Some bs -> Forall2 (fun a b => f a = Some b) l bs.
Proof. intros Hl. apply mapM_Some. exact Hl. Qed.

Lemma no_number_not_number (e : expr) : has_number e = false -> is_number e = false.
Proof. destruct e; [discriminate|reflexivity|reflexivity]. Qed.

Lemma ints_of_ints (values : list Z) : ints_of (map PyInt values) = Some values.
Proof.
  unfold ints_of. induction values as [|z values IH]; [reflexivity|].
  cbn [map]. cbn. cbn in IH. rewrite IH. reflexivity.
Qed.

Section EvaluateMore.
Context `{Host}.

Lemma evaluate_number_raises (kwargs : gmap string pyobject) (e : expr) :
  has_number e = true -> exists err, evaluate kwargs e = Raise err.
Proof.
  induction e as [n|name|k args IH] using expr_nested_ind; intros Hnum.
  - eexists. reflexivity.
  - discriminate.
  - cbn [has_number] in Hnum. cbn [evaluate].
    destruct (mapM_result_raises (evaluate kwargs) args) as [err Herr].
    + apply existsb_exists in Hnum as (a & Hin & Ha).
      apply Exists_exists. exists a. split; [apply list_elem_of_In; exact Hin|].
      rewrite Forall_forall in IH. apply IH; [apply list_elem_of_In; exact Hin|exact Ha].
    + rewrite Herr. exists err. reflexivity.
Qed.

Lemma evaluate_unbound (kwargs : gmap string pyobject) (e : expr) :
  well_formed e = true -> has_number e = false -> unbound kwargs e = true ->
  evaluate kwargs e = Ok e.
Proof.
  induction e as [n|name|k args IH] using expr_nested_ind; intros Hwf Hnum Hun.
  - discriminate.
  - cbn in Hun |- *. unfold Symbol_evaluate. destruct (kwargs !! name); [discriminate|reflexivity].
  - cbn [well_formed has_number unbound] in Hwf, Hnum, Hun.
    apply andb_prop in Hwf as [Hk Hargs]. cbn [evaluate].
    rewrite (mapM_result_id (evaluate kwargs) args).
    + cbn. destruct args as [|a args]; [destruct k; discriminate|].
      cbn [existsb] in Hnum. apply orb_false_elim in Hnum as [Ha _].
      cbn [forallb]. rewrite (no_number_not_number a Ha). cbn [andb].
      apply (construct_arity_ok k (a :: args) Hk).
    + rewrite Forall_forall in IH |- *. intros a Ha. apply list_elem_of_In in Ha as Hin.
      rewrite forallb_forall in Hargs, Hun. apply IH; [exact Ha|apply Hargs, Hin| |apply Hun, Hin].
      destruct (has_number a) eqn:Hna; [|reflexivity].
      assert (existsb has_number args = true) as Hex
          by (apply existsb_exists; exists a; split; assumption).
      congruence.
Qed.

Lemma product_ints (acc : Z) (values : list Z) :
  product (PyInt acc) (map PyInt values) = Ok (PyInt (foldl Z.mul acc values)).
Proof.
  revert acc. induction values as [|z values IH]; intros acc; [reflexivity|].
  cbn [map product py_mul]. cbn. apply IH.
Qed.

Lemma numbers_in_ints (values : list Z) :
  numbers_in (map (fun z => Num (PyInt z)) values) = map PyInt values
  /\ forallb is_number (map (fun z => Num (PyInt z)) values) = true.
Proof.
  induction values as [|z values [IH1 IH2]]; [split; reflexivity|].
  cbn. unfold numbers_in in IH1. rewrite IH1, IH2. split; reflexivity.
Qed.

Lemma evaluate_int_value (env : gmap string Z) (e : expr) (z : Z) :
  well_formed e = true -> int_value env e = Some z ->
  evaluate (int_kwargs env) e = Ok (Num (PyInt z)).
Proof.
  revert z. induction e as [n|name|k args IH] using expr_nested_ind; intros z Hwf Hval.
  - discriminate.
  - cbn in Hval |- *. unfold Symbol_evaluate, int_kwargs. rewrite lookup_fmap, Hval. reflexivity.
  - cbn [int_value] in Hval.
    destruct (mapM (int_value env) args) as [values|] eqn:Hvalues; [|discriminate].
    cbn in Hval. cbn [well_formed] in Hwf. apply andb_prop in Hwf as [Hk Hargs].
    assert (mapM (evaluate (int_kwargs env)) args
            = Ok (map (fun z => Num (PyInt z)) values)) as Hevaluated.
    { apply mapM_result_Ok_Forall2. apply mapM_option_Forall2 in Hvalues.
      clear Hval Hk. induction Hvalues as [|a v args values Ha _ IHrest]; [constructor|].
      cbn [forallb] in Hargs. apply andb_prop in Hargs as [Hwa Hwargs].
      inversion IH as [|? ? IHa IH']; subst. cbn [map].
      constructor; [apply (IHa v Hwa Ha)|apply (IHrest IH' Hwargs)]. }
    cbn [evaluate]. rewrite Hevaluated. cbn [mbind result_bind].
    destruct (numbers_in_ints values) as [-> ->].
    destruct k; cbn [_op].
    + injection Hval as <-. unfold py_sum. rewrite ints_of_ints. reflexivity.
    + destruct values as [|a [|b [|c values]]]; try discriminate.
      injection Hval as <-. reflexivity.
    + injection Hval as <-. rewrite product_ints. reflexivity.
    + destruct values as [|a [|b [|c values]]]; discriminate.
    + destruct values as [|a [|b [|c values]]]; try discriminate.
      cbn [map py_pow]. destruct (0 <=? b)%Z; [|discriminate].
      injection Hval as <-. reflexivity.
Qed.
End EvaluateMore.

(** ** Simplification of trees without numbers *)

Lemma parser_shaped_well_formed (e : expr) : parser_shaped e = true -> well_formed e = true.
Proof.
  induction e as [n|name|k args IH] using expr_nested_ind; intros Hshape; try reflexivity.
  destruct args as [|a [|b [|c args]]]; try discriminate.
  cbn [parser_shaped] in Hshape. apply andb_prop in Hshape as [Ha Hb].
  inversion IH as [|? ? IHa IH']; subst. inversion IH' as [|? ? IHb _]; subst.
  cbn [well_formed forallb length]. rewrite (IHa Ha), (IHb Hb). destruct k; reflexivity.
Qed.

Lemma unwrap_parser_shaped (e : expr) : parser_shaped e = true -> unwrap e = e.
Proof.
  induction e as [n|name|k args IH] using expr_nested_ind; intros Hshape; try reflexivity.
  destruct args as [|a [|b [|c args]]]; try discriminate.
  cbn [parser_shaped] in Hshape. apply andb_prop in Hshape as [Ha Hb].
  inversion IH as [|? ? IHa IH']; subst. inversion IH' as [|? ? IHb _]; subst.
  cbn [unwrap map]. rewrite (IHa Ha), (IHb Hb). destruct k; reflexivity.
Qed.

Section SimplifyMore.
Context `{Host}.

Lemma simplify_unwrap (e : expr) :
  well_formed e = true -> has_number e = false -> simplify e = Ok (unwrap e).
Proof.
  induction e as [n|name|k args IH] using expr_nested_ind; intros Hwf Hnum.
  - discriminate.
  - reflexivity.
  - cbn [well_formed has_number] in Hwf, Hnum. apply andb_prop in Hwf as [Hk Hargs].
    assert (Forall (fun a => well_formed a = true /\ has_number a = false) args) as Hall.
    { rewrite Forall_forall. intros a Ha. apply list_elem_of_In in Ha.
      rewrite forallb_forall in Hargs. split; [apply Hargs, Ha|].
      destruct (has_number a) eqn:Hna; [|reflexivity].
      assert (existsb has_number args = true) as Hex
          by (apply existsb_exists; exists a; split; assumption).
      congruence. }
    assert (mapM simplify args = Ok (map unwrap args)) as Hss.
    { apply mapM_result_map. rewrite Forall_forall in IH, Hall |- *.
      intros a Ha. destruct (Hall a Ha) as [Hwa Hna]. apply (IH a Ha Hwa Hna). }
    assert (Forall (fun e => has_number e = false /\ well_formed e = true) (map unwrap args))
      as Hall'.
    { rewrite Forall_forall in IH, Hall |- *. intros u Hu.
      apply list_elem_of_fmap in Hu as (a & -> & Ha). destruct (Hall a Ha) as [Hwa Hna].
      pose proof (simplify_by_leaves a Hwa) as Hout. rewrite Hna in Hout.
      destruct Hout as (a' & Ha' & Hna' & Hwa'). rewrite (IH a Ha Hwa Hna) in Ha'.
      injection Ha' as <-. split; assumption. }
    destruct (filter_no_number 0 _ Hall') as [Hf0 He0].
    destruct (filter_no_number 1 _ Hall') as [Hf1 He1].
    assert (arity_ok k (length (map unwrap args)) = true) as Hk'
        by (rewrite length_map; exact Hk).
    cbn [simplify]. rewrite Hss. cbn [mbind result_bind unwrap]. destruct k.
    + rewrite Hf0. destruct (map unwrap args) as [|s1 [|s2 ss]]; [discriminate|reflexivity..].
    + apply (construct_arity_ok _ _ Hk').
    + rewrite He0, Hf1.
      destruct (map unwrap args) as [|s1 [|s2 ss]]; [discriminate|reflexivity..].
    + apply (construct_arity_ok _ _ Hk').
    + destruct (map unwrap args) as [|base [|exp [|? ?]]]; try discriminate.
      inversion Hall' as [|? ? [Hb _] Hall'']; subst.
      inversion Hall'' as [|? ? [Hx _] _]; subst.
      rewrite !(not_has_number_not_number_eq _ exp Hx).
      rewrite (not_has_number_not_number_eq _ base Hb). reflexivity.
Qed.
End SimplifyMore.

Lemma unwrap_idempotent (e : expr) : unwrap (unwrap e) = unwrap e.
Proof.
  induction e as [n|name|k args IH] using expr_nested_ind; try reflexivity.
  assert (map unwrap (map unwrap args) = map unwrap args) as Hargs.
  { rewrite Forall_forall in IH. rewrite <- list_fmap_compose. apply list_fmap_ext.
    intros i a Ha. apply IH. apply (list_elem_of_lookup_2 _ _ _ Ha). }
  cbn [unwrap]. destruct (map unwrap args) as [|s1 [|s2 ss]] eqn:Hss.
  - destruct k; cbn [unwrap map]; reflexivity.
  - assert (unwrap s1 = s1) as Hs1 by (cbn [map] in Hargs; congruence).
    destruct k; try exact Hs1; cbn [unwrap map]; rewrite Hs1; reflexivity.
  - destruct k; cbn [unwrap]; rewrite Hargs; reflexivity.
Qed.

(** ** Substitution *)

Lemma substitute_spec_unbound (m : gmap string expr) (e : expr) :
  unbound m e = true -> substitute_spec e m = e.
Proof.
  induction e as [n|name|k args IH] using expr_nested_ind; intros Hun.
  - reflexivity.
  - cbn in Hun |- *. destruct (m !! name); [discriminate|reflexivity].
  - cbn [unbound] in Hun. cbn [substitute_spec]. f_equal.
    rewrite forallb_forall in Hun. rewrite Forall_forall in IH.
    rewrite <- (map_id args) at 2. apply map_ext_in. intros a Ha.
    apply IH; [apply list_elem_of_In; exact Ha|apply Hun, Ha].
Qed.

Lemma substitute_spec_well_formed (m : gmap string expr) (e : expr) :
  well_formed e = true -> map_Forall (fun _ r => well_formed r = true) m ->
  well_formed (substitute_spec e m) = true.
Proof.
  intros Hwf Hm. induction e as [n|name|k args IH] using expr_nested_ind.
  - reflexivity.
  - cbn. destruct (m !! name) as [r|] eqn:Hr; [apply (Hm name r Hr)|reflexivity].
  - cbn [well_formed substitute_spec] in Hwf |- *. apply andb_prop in Hwf as [Hk Hargs].
    rewrite length_map, Hk. cbn [andb]. rewrite forallb_forall in Hargs |- *.
    intros u Hu. apply in_map_iff in Hu as (a & <- & Ha).
    rewrite Forall_forall in IH. apply IH; [apply list_elem_of_In; exact Ha|apply Hargs, Ha].
Qed.

Lemma substitute_spec_compose (m1 m2 : gmap string expr) (e : expr) :
  substitute_spec (substitute_spec e m1) m2 = substitute_spec e (compose m1 m2).
Proof.
  induction e as [n|name|k args IH] using expr_nested_ind.
  - reflexivity.
  - cbn [substitute_spec]. unfold compose. rewrite lookup_union, lookup_fmap.
    destruct (m1 !! name) as [r|]; cbn; [destruct (m2 !! name); reflexivity|].
    destruct (m2 !! name); reflexivity.
  - cbn [substitute_spec]. f_equal. rewrite map_map. apply map_ext_in. intros a Ha.
    rewrite Forall_forall in IH. apply IH. apply list_elem_of_In. exact Ha.
Qed.

(** ** Fibonacci numbers *)

Lemma fibonacci_from_step (f0 f1 : Z) (n : nat) :
  fibonacci_from f0 f1 (S (S n)) = (fibonacci_from f0 f1 (S n) + fibonacci_from f0 f1 n)%Z.
Proof.
  unfold fibonacci_from. cbn [fibonacci_pair].
  destruct (fibonacci_pair f0 f1 n) as [a b]. cbn. lia.
Qed.

Lemma fibonacci_from_index (f0 f1 : Z) (i : Z) :
  (2 <= i)%Z ->
  fibonacci_from f0 f1 (Z.to_nat i)
  = (fibonacci_from f0 f1 (Z.to_nat (i - 1)) + fibonacci_from f0 f1 (Z.to_nat (i - 2)))%Z.
Proof.
  intros Hi. replace (Z.to_nat i) with (S (S (Z.to_nat (i - 2)))) by lia.
  replace (Z.to_nat (i - 1)) with (S (Z.to_nat (i - 2))) by lia.
  apply fibonacci_from_step.
Qed.


Lemma Fibonacci_init_ok : memo_ok Fibonacci_init.
Proof.
  unfold memo_ok, Fibonacci_init. split; [reflexivity|]. split; [reflexivity|].
  intros i v Hi. apply lookup_insert_Some in Hi as [[<- <-]|[_ Hi]]; [split; [lia|reflexivity]|].
  apply lookup_singleton_Some in Hi as [<- <-]. split; [lia|reflexivity].
Qed.

Lemma seqZ_to_nat (m len : Z) : seqZ m len = seqZ m (Z.of_nat (Z.to_nat len)).
Proof. unfold seqZ. rewrite Nat2Z.id. reflexivity. Qed.

Lemma generate_loop_fills (len : nat) (a : Z) (memo : gmap Z Z) :
  (2 <= a)%Z -> memo_ok memo ->
  (forall j, (0 <= j < a)%Z -> is_Some (memo !! j)) ->
  exists memo',
    generate_loop memo (seqZ a (Z.of_nat len)) = (memo', None)
    /\ memo_ok memo'
    /\ forall j, (0 <= j < a + Z.of_nat len)%Z -> is_Some (memo' !! j).
Proof.
  revert a memo. induction len as [|len IH]; intros a memo Ha Hok Hfilled.
  - exists memo. rewrite seqZ_nil by lia. split; [reflexivity|]. split; [exact Hok|].
    intros j Hj. apply Hfilled. lia.
  - rewrite seqZ_cons by lia. replace (Z.pred (Z.of_nat (S len))) with (Z.of_nat len) by lia.
    cbn [generate_loop]. destruct (memo !! a) as [v|] eqn:Hentry.
    + destruct (IH (Z.succ a) memo) as (memo' & Hloop & Hok' & Hfilled'); [lia|exact Hok| |].
      * intros j Hj. destruct (decide (j = a)) as [->|Hne]; [rewrite Hentry; eauto|].
        apply Hfilled. lia.
      * exists memo'. split; [exact Hloop|]. split; [exact Hok'|].
        intros j Hj. apply Hfilled'. lia.
    + destruct (Hfilled (a - 1)%Z) as [x Hx]; [lia|].
      destruct (Hfilled (a - 2)%Z) as [y Hy]; [lia|].
      rewrite Hx, Hy. destruct Hok as (H0 & H1 & Hall).
      destruct (Hall _ _ Hx) as [_ ->]. destruct (Hall _ _ Hy) as [_ ->].
      destruct (IH (Z.succ a) (<[ a := (fibonacci (Z.to_nat (a - 1))
                                        + fibonacci (Z.to_nat (a - 2)))%Z ]> memo))
        as (memo' & Hloop & Hok' & Hfilled'); [lia| | |].
      * split; [rewrite lookup_insert_ne by lia; exact H0|].
        split; [rewrite lookup_insert_ne by lia; exact H1|].
        intros i v Hi. apply lookup_insert_Some in Hi as [[<- <-]|[_ Hi]]; [|apply (Hall i v Hi)].
        split; [lia|]. unfold fibonacci. symmetry. apply fibonacci_from_index. exact Ha.
      * intros j Hj. destruct (decide (j = a)) as [->|Hne].
        -- rewrite lookup_insert_eq. eauto.
        -- rewrite lookup_insert_ne by congruence. apply Hfilled. lia.
      * exists memo'. split; [exact Hloop|]. split; [exact Hok'|].
        intros j Hj. apply Hfilled'. lia.
Qed.

Lemma collect_filled (memo : gmap Z Z) (len : nat) (a : Z) :
  (0 <= a)%Z -> memo_ok memo ->
  (forall j, (0 <= j < a + Z.of_nat len)%Z -> is_Some (memo !! j)) ->
  collect memo (seqZ a (Z.of_nat len))
  = Returns ((fun i => fibonacci (Z.to_nat i)) <$> seqZ a (Z.of_nat len)).
Proof.
  intros Ha Hok. revert a Ha. induction len as [|len IH]; intros a Ha Hfilled.
  - rewrite seqZ_nil by lia. reflexivity.
  - rewrite seqZ_cons by lia. replace (Z.pred (Z.of_nat (S len))) with (Z.of_nat len) by lia.
    cbn [collect fmap list_fmap]. destruct (Hfilled a) as [v Hv]; [lia|].
    rewrite Hv. destruct Hok as (_ & _ & Hall). destruct (Hall _ _ Hv) as [_ ->].
    rewrite (IH (Z.succ a)); [reflexivity|lia|]. intros j Hj. apply Hfilled. lia.
Qed.

Lemma generate_returns (memo : gmap Z Z) (n : Z) :
  memo_ok memo -> (0 <= n)%Z ->
  exists memo',
    generate memo n = (memo', Returns ((fun i => fibonacci (Z.to_nat i)) <$> range 0 n))
    /\ memo_ok memo'.
Proof.
  intros Hok Hn. unfold generate. destruct (n <? 0)%Z eqn:Hneg; [lia|]. clear Hneg.
  destruct (generate_loop_fills (Z.to_nat (n - 2)) 2 memo) as (memo' & Hloop & Hok' & Hfilled).
  - lia.
  - exact Hok.
  - intros j Hj. destruct Hok as (H0 & H1 & _).
    destruct (decide (j = 0%Z)) as [->|Hne]; [rewrite H0; eauto|].
    replace j with 1%Z by lia. rewrite H1. eauto.
  - unfold range. rewrite (seqZ_to_nat 2 (n - 2)), Hloop. exists memo'. split; [|exact Hok']. f_equal.
    replace (n - 0)%Z with (Z.of_nat (Z.to_nat n)) by lia.
    apply (collect_filled memo' (Z.to_nat n) 0); [lia|exact Hok'|].
    intros j Hj. apply Hfilled. lia.
Qed.

Lemma getitem_nonneg {A} (l : list A) (j : Z) (x : A) :
  (0 <= j)%Z -> l !! Z.to_nat j = Some x -> getitem l j = Ok x.
Proof.
  intros Hj Hx. unfold getitem. destruct (j <? 0)%Z eqn:Hneg; [lia|].
  rewrite Hneg, Hx. reflexivity.
Qed.


(** What [symbolic_generate] keeps true of its list: the tree at index
    [i] is well formed and has the value of the [i]-th number of the
    sequence that starts with the values of [F0] and [F1]. *)
Lemma symbolic_loop_values (f0 f1 : Z) (len : nat) (seq : list expr) :
  (2 <= length seq)%nat ->
  (forall (i : nat) e, seq !! i = Some e ->
     well_formed e = true
     /\ int_value {[ "F0" := f0; "F1" := f1 ]} e = Some (fibonacci_from f0 f1 i)) ->
  exists seq',
    symbolic_loop seq (seqZ (Z.of_nat (length seq)) (Z.of_nat len)) = Ok seq'
    /\ length seq' = (length seq + len)%nat
    /\ forall (i : nat) e, seq' !! i = Some e ->
         well_formed e = true
         /\ int_value {[ "F0" := f0; "F1" := f1 ]} e = Some (fibonacci_from f0 f1 i).
Proof.
  revert seq. induction len as [|len IH]; intros seq Hlen Hseq.
  - exists seq. rewrite seqZ_nil by lia. split; [reflexivity|]. split; [lia|exact Hseq].
  - rewrite seqZ_cons by lia. replace (Z.pred (Z.of_nat (S len))) with (Z.of_nat len) by lia.
    cbn [symbolic_loop].
    destruct (lookup_lt_is_Some_2 seq (length seq - 1)) as [x Hx]; [lia|].
    destruct (lookup_lt_is_Some_2 seq (length seq - 2)) as [y Hy]; [lia|].
    rewrite (getitem_nonneg seq (Z.of_nat (length seq) - 1) x);
      [|lia|replace (Z.to_nat (Z.of_nat (length seq) - 1)) with (length seq - 1)%nat by lia;
            exact Hx].
    rewrite (getitem_nonneg seq (Z.of_nat (length seq) - 2) y);
      [|lia|replace (Z.to_nat (Z.of_nat (length seq) - 2)) with (length seq - 2)%nat by lia;
            exact Hy].
    cbn [mbind result_bind construct].
    destruct (Hseq _ _ Hx) as [Hwx Hvx]. destruct (Hseq _ _ Hy) as [Hwy Hvy].
    destruct (IH (seq ++ [Operator Add [x; y]])%list) as (seq' & Hloop & Hlen' & Hseq').
    + rewrite length_app. cbn. lia.
    + intros i e Hi. apply lookup_app_Some in Hi as [Hi|[Hge Hi]]; [apply (Hseq i e Hi)|].
      apply list_lookup_singleton_Some in Hi as [Hi <-].
      assert (i = length seq) as -> by lia. split.
      * cbn [well_formed forallb length arity_ok]. rewrite Hwx, Hwy. reflexivity.
      * cbn [int_value mapM]. rewrite Hvx, Hvy. cbn.
        f_equal.
        replace (length seq) with (S (S (length seq - 2))) at 3 by lia.
        rewrite fibonacci_from_step.
        replace (S (length seq - 2)) with (length seq - 1)%nat by lia. lia.
    + rewrite length_app in Hloop, Hlen'. cbn [length] in Hloop, Hlen'.
      replace (Z.succ (Z.of_nat (length seq))) with (Z.of_nat (length seq + 1)) by lia.
      exists seq'. split; [exact Hloop|]. split; [lia|exact Hseq'].
Qed.

Lemma symbolic_generate_values (f0 f1 : Z) (n : Z) :
  (0 <= n)%Z ->
  exists seq,
    symbolic_generate n = Ok seq /\ length seq = Z.to_nat n
    /\ forall (i : nat) e, seq !! i = Some e ->
         well_formed e = true
         /\ int_value {[ "F0" := f0; "F1" := f1 ]} e = Some (fibonacci_from f0 f1 i).
Proof.
  intros Hn. unfold symbolic_generate. destruct (n <? 0)%Z eqn:Hneg; [lia|]. clear Hneg.
  destruct (symbolic_loop_values f0 f1 (Z.to_nat (n - 2)) [Symbol "F0"; Symbol "F1"])
    as (seq & Hloop & Hlen & Hseq).
  - cbn. lia.
  - intros [|[|i]] e Hi; cbn in Hi; try discriminate; injection Hi as <-;
      (split; [reflexivity|]); reflexivity.
  - unfold range. rewrite (seqZ_to_nat 2 (n - 2)). cbn [length] in Hloop, Hlen.
    change (Z.of_nat 2) with 2%Z in Hloop. rewrite Hloop. cbn [mbind result_bind].
    exists (take (Z.to_nat n) seq). split; [reflexivity|]. split.
    + rewrite length_take. lia.
    + intros i e Hi. apply lookup_take_Some in Hi as [Hi _]. apply (Hseq i e Hi).
Qed.


(** ** The numeric literals of an input and the numbers of its tree *)

Lemma between_split (a b c : nat) (l : list string) :
  a <= b -> b <= c -> between a c l = (between a b l ++ between b c l)%list.
Proof.
  intros Hab Hbc. unfold between.
  replace (c - a) with ((b - a) + (c - b)) by lia.
  rewrite <- take_take_drop, drop_drop. do 3 f_equal. lia.
Qed.

Lemma between_same (a : nat) (l : list string) : between a a l = [].
Proof. unfold between. rewrite Nat.sub_diag. reflexivity. Qed.

Lemma between_one (a : nat) (l : list string) (t : string) :
  l !! a = Some t -> between a (S a) l = [t].
Proof.
  intros Ht. unfold between. replace (S a - a) with 1 by lia.
  rewrite (drop_S l t a Ht). reflexivity.
Qed.

Lemma between_cons (a c : nat) (l : list string) (t : string) :
  l !! a = Some t -> S a <= c -> between a c l = t :: between (S a) c l.
Proof.
  intros Ht Hc. rewrite (between_split a (S a) c l), (between_one a l t Ht) by lia.
  reflexivity.
Qed.

Lemma between_snoc (a c : nat) (l : list string) (t : string) :
  l !! c = Some t -> a <= c -> between a (S c) l = (between a c l ++ [t])%list.
Proof.
  intros Ht Hc. rewrite (between_split a c (S c) l), (between_one c l t Ht) by lia.
  reflexivity.
Qed.

Lemma operator_not_numeric (op : string) :
  is_one_of ["+"; "-"; "*"; "/"; "^"; "("; ")"] op = true -> numeric_token op = false.
Proof.
  unfold is_one_of. cbn [existsb]. rewrite !orb_true_iff, !String.eqb_eq.
  intros [->|[->|[->|[->|[->|[->|[->|Hnone]]]]]]]; try reflexivity. discriminate.
Qed.

Lemma parser_numbers (n : nat) (st : Parser) :
  reads_numbers false st (factor n st)
  /\ reads_numbers false st (power n st)
  /\ reads_numbers false st (term n st)
  /\ reads_numbers false st (expression n st)
  /\ (forall left, reads_numbers (has_number left) st (term_while n left st))
  /\ (forall left, reads_numbers (has_number left) st (expression_while n left st)).
Proof.
  revert st. induction n as [|n IH]; intros st.
  { repeat split; intros; exact I. }
  assert (Hfactor : reads_numbers false st (factor (S n) st)).
  { rewrite factor_S. destruct (tokens st !! pos st) as [token|] eqn:Htok; [|exact I].
    destruct (String.eqb token "(") eqn:Hparen.
    - apply String.eqb_eq in Hparen. subst token.
      destruct (IH (advanced st)) as (_ & _ & _ & IHe & _).
      destruct (expression n (advanced st)) as [[[e st']|err]|]; try exact I.
      destruct IHe as (Hsame & Hpos & Hnum). cbn [advanced tokens pos] in Hsame, Hpos, Hnum.
      destruct (tokens st' !! pos st') as [closing|] eqn:Hclose; [|exact I].
      destruct (String.eqb closing ")") eqn:Hclosing; [|exact I].
      apply String.eqb_eq in Hclosing. subst closing. rewrite Hsame in Hclose.
      split; [exact Hsame|]. split; [cbn [advanced pos]; lia|]. cbn [advanced pos].
      rewrite (between_cons (pos st) (S (pos st')) _ "(" Htok) by lia.
      rewrite (between_snoc (S (pos st)) (pos st') _ ")" Hclose) by lia.
      cbn [existsb]. rewrite existsb_app. cbn [existsb]. rewrite Hnum.
      change (numeric_token "(") with false. change (numeric_token ")") with false.
      cbn [orb]. rewrite !orb_false_r. reflexivity.
    - unfold numeric_token in *.
      destruct (isdigit token || has_dot token) eqn:Hnumeric.
      + destruct (if has_dot token then py_float token else py_int token) as [v|err];
          [|exact I].
        cbn -[between existsb]. split; [reflexivity|]. split; [lia|].
        rewrite (between_one _ _ _ Htok). cbn [existsb]. unfold numeric_token.
        rewrite Hnumeric. reflexivity.
      + destruct (isalpha token); [|exact I].
        cbn -[between existsb]. split; [reflexivity|]. split; [lia|].
        rewrite (between_one _ _ _ Htok). cbn [existsb]. unfold numeric_token.
        rewrite Hnumeric. reflexivity. }
  assert (Hpower : reads_numbers false st (power (S n) st)).
  { rewrite power_S. destruct (IH st) as (IHf & _).
    destruct (factor n st) as [[[lhs st']|err]|]; try exact I.
    destruct IHf as (Hsame & Hpos & Hnum).
    destruct (tokens st' !! pos st') as [op|] eqn:Hop; [|repeat split; assumption].
    destruct (String.eqb op "^") eqn:Hcaret; [|repeat split; assumption].
    apply String.eqb_eq in Hcaret. subst op. rewrite Hsame in Hop.
    destruct (IH (advanced st')) as (_ & IHp & _).
    destruct (power n (advanced st')) as [[[rhs st'']|err]|]; try exact I.
    destruct IHp as (Hsame' & Hpos' & Hnum'). cbn [advanced tokens pos] in Hsame', Hpos', Hnum'.
    rewrite Hsame in Hnum'.
    split; [congruence|]. split; [lia|].
    rewrite (between_split (pos st) (pos st') (pos st'')) by lia.
    rewrite (between_cons (pos st') (pos st'') _ "^" Hop) by lia.
    rewrite existsb_app. cbn [existsb has_number]. rewrite Hnum, Hnum'.
    change (numeric_token "^") with false. cbn [orb]. rewrite orb_false_r. reflexivity. }
  assert (Hterm_while : forall left st0,
             reads_numbers (has_number left) st0 (term_while (S n) left st0)).
  { intros left st0. rewrite term_while_S.
    destruct (tokens st0 !! pos st0) as [op|] eqn:Hop.
    2:{ split; [reflexivity|]. split; [lia|]. rewrite between_same, orb_false_r. reflexivity. }
    destruct (is_one_of ["*"; "/"] op) eqn:Hin.
    2:{ split; [reflexivity|]. split; [lia|]. rewrite between_same, orb_false_r. reflexivity. }
    assert (numeric_token op = false) as Hnot.
    { apply operator_not_numeric. revert Hin. unfold is_one_of. cbn [existsb].
      destruct (String.eqb op "*"), (String.eqb op "/"); cbn; try discriminate;
        rewrite ?orb_true_r; reflexivity. }
    destruct (IH (advanced st0)) as (_ & IHp & _).
    destruct (power n (advanced st0)) as [[[rhs st']|err]|]; try exact I.
    destruct IHp as (Hsame & Hpos & Hnum). cbn [advanced tokens pos] in Hsame, Hpos, Hnum.
    destruct (IH st') as (_ & _ & _ & _ & IHw & _).
    specialize (IHw (Operator (if String.eqb op "*" then Multiply else Divide) [left; rhs])).
    destruct (term_while n _ st') as [[[e st'']|err]|]; try exact I.
    destruct IHw as (Hsame' & Hpos' & Hnum'). rewrite Hsame in Hnum'.
    split; [congruence|]. split; [lia|].
    rewrite (between_cons (pos st0) (pos st'') _ op Hop) by lia.
    rewrite (between_split (S (pos st0)) (pos st') (pos st'')) by lia.
    cbn [existsb]. rewrite existsb_app, Hnot, Hnum'. cbn [has_number existsb orb].
    rewrite Hnum. cbn [orb]. rewrite orb_false_r, orb_assoc. reflexivity. }
  assert (Hexpression_while : forall left st0,
             reads_numbers (has_number left) st0 (expression_while (S n) left st0)).
  { intros left st0. rewrite expression_while_S.
    destruct (tokens st0 !! pos st0) as [op|] eqn:Hop.
    2:{ split; [reflexivity|]. split; [lia|]. rewrite between_same, orb_false_r. reflexivity. }
    destruct (is_one_of ["+"; "-"] op) eqn:Hin.
    2:{ split; [reflexivity|]. split; [lia|]. rewrite between_same, orb_false_r. reflexivity. }
    assert (numeric_token op = false) as Hnot.
    { apply operator_not_numeric. revert Hin. unfold is_one_of. cbn [existsb].
      destruct (String.eqb op "+"), (String.eqb op "-"); cbn; try discriminate; reflexivity. }
    destruct (IH (advanced st0)) as (_ & _ & IHt & _).
    destruct (term n (advanced st0)) as [[[rhs st']|err]|]; try exact I.
    destruct IHt as (Hsame & Hpos & Hnum). cbn [advanced tokens pos] in Hsame, Hpos, Hnum.
    destruct (IH st') as (_ & _ & _ & _ & _ & IHw).
    specialize (IHw (Operator (if String.eqb op "+" then Add else Subtract) [left; rhs])).
    destruct (expression_while n _ st') as [[[e st'']|err]|]; try exact I.
    destruct IHw as (Hsame' & Hpos' & Hnum'). rewrite Hsame in Hnum'.
    split; [congruence|]. split; [lia|].
    rewrite (between_cons (pos st0) (pos st'') _ op Hop) by lia.
    rewrite (between_split (S (pos st0)) (pos st') (pos st'')) by lia.
    cbn [existsb]. rewrite existsb_app, Hnot, Hnum'. cbn [has_number existsb orb].
    rewrite Hnum. cbn [orb]. rewrite orb_false_r, orb_assoc. reflexivity. }
  repeat split; try assumption; try (intros; auto).
  - rewrite term_S. unfold mbind, M_bind. destruct (IH st) as (_ & IHp & _).
    destruct (power n st) as [[[lhs st']|err]|]; try exact I.
    destruct IHp as (Hsame & Hpos & Hnum).
    destruct (IH st') as (_ & _ & _ & _ & IHw & _). specialize (IHw lhs).
    destruct (term_while n lhs st') as [[[e st'']|err]|]; try exact I.
    destruct IHw as (Hsame' & Hpos' & Hnum'). rewrite Hsame in Hnum'.
    split; [congruence|]. split; [lia|].
    rewrite (between_split (pos st) (pos st') (pos st'')) by lia.
    rewrite existsb_app, Hnum', Hnum. reflexivity.
  - rewrite expression_S. unfold mbind, M_bind. destruct (IH st) as (_ & _ & IHt & _).
    destruct (term n st) as [[[lhs st']|err]|]; try exact I.
    destruct IHt as (Hsame & Hpos & Hnum).
    destruct (IH st') as (_ & _ & _ & _ & _ & IHw). specialize (IHw lhs).
    destruct (expression_while n lhs st') as [[[e st'']|err]|]; try exact I.
    destruct IHw as (Hsame' & Hpos' & Hnum'). rewrite Hsame in Hnum'.
    split; [congruence|]. split; [lia|].
    rewrite (between_split (pos st) (pos st') (pos st'')) by lia.
    rewrite existsb_app, Hnum', Hnum. reflexivity.
Qed.

(** The tree [parse] returns has a number exactly when a token of the
    input is a numeric literal. *)
Lemma parse_numbers (s : string) (e : expr) :
  parse s = Some (Ok e) -> has_number e = existsb numeric_token (tokenize s).
Proof.
  unfold parse. cbn [tokens].
  destruct (parser_numbers (parse_fuel (tokenize s)) {| tokens := tokenize s; pos := 0 |})
    as (_ & _ & _ & He & _).
  destruct (expression _ _) as [[[e' st']|err]|]; try discriminate.
  destruct He as (Hsame & _ & Hnum). cbn [tokens pos] in Hsame, Hnum.
  destruct (tokens st' !! pos st') eqn:Hend; [discriminate|].
  intros Hp. injection Hp as <-. rewrite Hnum. cbn [orb]. f_equal.
  unfold between. cbn [drop]. apply take_ge. apply lookup_ge_None in Hend.
  rewrite Hsame in Hend. lia.
Qed.

(** ** What the parser accepts is derived by the grammar *)

Lemma concat_empty_app (l1 l2 : list string) :
  String.concat "" (l1 ++ l2) = String.concat "" l1 ++ String.concat "" l2.
Proof.
  induction l1 as [|t l1 IH]; [reflexivity|].
  change ((t :: l1) ++ l2)%list with (t :: (l1 ++ l2))%list.
  rewrite !concat_empty_cons, IH, append_assoc. reflexivity.
Qed.

Lemma concat_empty_one (t : string) : String.concat "" [t] = t.
Proof. reflexivity. Qed.

(** What [factor] makes of a token of the tokenizer is what the grammar
    derives from it. *)
Lemma leaf_derives (t : string) (e : expr) :
  is_token t = true -> leaf t = Ok e -> derives Factor t e.
Proof.
  intros Ht Hleaf. destruct (token_cases t Ht) as [Hnum|[Hid|(c & Hc & ->)]].
  - apply number_literal_shape in Hnum as (_ & ip & Hne & Hall & [->|(frac & Hfrac & ->)]).
    + pose proof (isdigit_digits ip Hne Hall) as Hdigits.
      destruct (leaf_digits ip Hdigits) as [Hleaf' _].
      rewrite Hleaf' in Hleaf. injection Hleaf as <-. apply derives_int, Hdigits.
    + pose proof (isdigit_digits ip Hne Hall) as Hdigits.
      destruct (leaf_float ip frac Hdigits Hfrac) as [Hleaf' _].
      change (String "." frac) with ("." ++ frac) in Hleaf.
      rewrite Hleaf' in Hleaf. injection Hleaf as <-.
      apply (derives_float ip frac Hdigits Hfrac).
  - pose proof (leaf_token t Ht) as Hcases. rewrite Hleaf in Hcases.
    unfold leaf in Hleaf.
    destruct (isdigit t || has_dot t) eqn:Hnumeric.
    + exfalso. unfold is_identifier, match_identifier in Hid.
      destruct t as [|c tail]; [discriminate|].
      destruct (is_ident_start c) eqn:Hstart; [|discriminate].
      destruct (span is_ident_char tail) as [tail' r] eqn:Hspan.
      destruct r; [|discriminate]. apply span_spec in Hspan as (Htail & Hall & _).
      rewrite append_empty_r in Htail. subst tail'.
      apply orb_prop in Hnumeric as [Hd|Hdot].
      * unfold isdigit, all_chars in Hd. cbn [list_ascii_of_string forallb] in Hd.
        rewrite (ident_start_not_digit c Hstart) in Hd. cbn in Hd. discriminate.
      * assert (has_dot (String c tail) = false) as Hnodot.
        { apply (no_dot_in is_ident_char); [reflexivity|].
          unfold all_chars in *. cbn [list_ascii_of_string forallb]. rewrite Hall.
          unfold is_ident_char. unfold is_ident_start in Hstart.
          destruct (is_alpha c), (is_digit c); cbn [orb andb] in Hstart |- *;
            try rewrite Hstart; reflexivity. }
        congruence.
    + destruct (isalpha t) eqn:Halpha; [|discriminate].
      injection Hleaf as <-. apply derives_name, Halpha.
  - exfalso. pose proof (leaf_token (String c EmptyString) Ht) as Hcases.
    rewrite Hleaf in Hcases. destruct e as [n|name|k args].
    + unfold leaf in Hleaf.
      assert (isdigit (String c EmptyString) = false) as Hd.
      { unfold isdigit, all_chars. cbn [list_ascii_of_string forallb].
        rewrite (op_char_not_digit c Hc). reflexivity. }
      assert (has_dot (String c EmptyString) = false) as Hdot.
      { unfold has_dot. cbn [list_ascii_of_string existsb]. rewrite Ascii.eqb_sym.
        rewrite (op_char_not_point c Hc). reflexivity. }
      rewrite Hd, Hdot in Hleaf. cbn [orb] in Hleaf.
      destruct (isalpha (String c EmptyString)); discriminate.
    + unfold leaf in Hleaf.
      destruct (isdigit (String c EmptyString) || has_dot (String c EmptyString)).
      * destruct (if has_dot (String c EmptyString) then py_float (String c EmptyString)
                  else py_int (String c EmptyString)); discriminate.
      * destruct (isalpha (String c EmptyString)) eqn:Halpha; [|discriminate].
        unfold isalpha, all_chars in Halpha.
        cbn [list_ascii_of_string forallb String.eqb negb andb] in Halpha.
        rewrite andb_true_r in Halpha.
        pose proof (op_char_not_ident_start c Hc) as Hno.
        pose proof (alpha_ident_start c Halpha) as Hyes. congruence.
    + unfold leaf in Hleaf.
      destruct (isdigit (String c EmptyString) || has_dot (String c EmptyString)).
      * destruct (if has_dot (String c EmptyString) then py_float (String c EmptyString)
                  else py_int (String c EmptyString)); discriminate.
      * destruct (isalpha (String c EmptyString)); discriminate.
Qed.

Lemma parser_derived (n : nat) (st : Parser) :
  Forall (fun t => is_token t = true) (tokens st) ->
  derived Factor (pos st) st (factor n st)
  /\ derived PowerLevel (pos st) st (power n st)
  /\ derived Term (pos st) st (term n st)
  /\ derived Expression (pos st) st (expression n st)
  /\ (forall left p0, p0 <= pos st ->
        derives Term (String.concat "" (between p0 (pos st) (tokens st))) left ->
        derived Term p0 st (term_while n left st))
  /\ (forall left p0, p0 <= pos st ->
        derives Expression (String.concat "" (between p0 (pos st) (tokens st))) left ->
        derived Expression p0 st (expression_while n left st)).
Proof.
  revert st. induction n as [|n IH]; intros st Htoks.
  { repeat split; intros; exact I. }
  assert (Hfactor : derived Factor (pos st) st (factor (S n) st)).
  { rewrite factor_S. destruct (tokens st !! pos st) as [token|] eqn:Htok; [|exact I].
    destruct (String.eqb token "(") eqn:Hparen.
    - apply String.eqb_eq in Hparen. subst token.
      destruct (IH (advanced st) Htoks) as (_ & _ & _ & IHe & _).
      destruct (expression n (advanced st)) as [[[e st']|err]|]; try exact I.
      destruct IHe as (Hsame & Hpos & Hd). cbn [advanced tokens pos] in Hsame, Hpos, Hd.
      destruct (tokens st' !! pos st') as [closing|] eqn:Hclose; [|exact I].
      destruct (String.eqb closing ")") eqn:Hclosing; [|exact I].
      apply String.eqb_eq in Hclosing. subst closing. rewrite Hsame in Hclose.
      split; [exact Hsame|]. split; [cbn [advanced pos]; lia|]. cbn [advanced pos].
      rewrite (between_cons (pos st) (S (pos st')) _ "(" Htok) by lia.
      rewrite (between_snoc (S (pos st)) (pos st') _ ")" Hclose) by lia.
      rewrite concat_empty_cons, concat_empty_app, concat_empty_one.
      apply derives_parenthesis, Hd.
    - rewrite Forall_forall in Htoks.
      pose proof (fun e => leaf_derives token e
                             (Htoks token (list_elem_of_lookup_2 _ _ _ Htok))) as Hleaf.
      unfold leaf in Hleaf.
      destruct (isdigit token || has_dot token).
      + destruct (if has_dot token then py_float token else py_int token) as [v|err];
          [|exact I].
        cbn -[between String.concat]. split; [reflexivity|]. split; [lia|].
        rewrite (between_one _ _ _ Htok), concat_empty_one. apply Hleaf. reflexivity.
      + destruct (isalpha token); [|exact I].
        cbn -[between String.concat]. split; [reflexivity|]. split; [lia|].
        rewrite (between_one _ _ _ Htok), concat_empty_one. apply Hleaf. reflexivity. }
  assert (Hpower : derived PowerLevel (pos st) st (power (S n) st)).
  { rewrite power_S. destruct (IH st Htoks) as (IHf & _).
    destruct (factor n st) as [[[lhs st']|err]|]; try exact I.
    destruct IHf as (Hsame & Hpos & Hd).
    destruct (tokens st' !! pos st') as [op|] eqn:Hop;
      [|split; [exact Hsame|]; split; [exact Hpos|]; apply derives_factor, Hd].
    destruct (String.eqb op "^") eqn:Hcaret;
      [|split; [exact Hsame|]; split; [exact Hpos|]; apply derives_factor, Hd].
    apply String.eqb_eq in Hcaret. subst op. rewrite Hsame in Hop.
    destruct (IH (advanced st')) as (_ & IHp & _); [cbn [advanced tokens]; congruence|].
    destruct (power n (advanced st')) as [[[rhs st'']|err]|]; try exact I.
    destruct IHp as (Hsame' & Hpos' & Hd'). cbn [advanced tokens pos] in Hsame', Hpos', Hd'.
    rewrite Hsame in Hd'.
    split; [congruence|]. split; [lia|].
    rewrite (between_split (pos st) (pos st') (pos st'')) by lia.
    rewrite (between_cons (pos st') (pos st'') _ "^" Hop) by lia.
    rewrite concat_empty_app, concat_empty_cons.
    apply (derives_power _ _ lhs rhs Hd Hd'). }
  assert (Hterm_while : forall left st0 p0, tokens st0 = tokens st -> p0 <= pos st0 ->
             derives Term (String.concat "" (between p0 (pos st0) (tokens st0))) left ->
             derived Term p0 st0 (term_while (S n) left st0)).
  { intros left st0 p0 Hsame0 Hp0 Hleft. rewrite term_while_S.
    destruct (tokens st0 !! pos st0) as [op|] eqn:Hop;
      [|split; [reflexivity|]; split; [lia|exact Hleft]].
    destruct (is_one_of ["*"; "/"] op) eqn:Hin;
      [|split; [reflexivity|]; split; [lia|exact Hleft]].
    destruct (IH (advanced st0)) as (_ & IHp & _); [cbn [advanced tokens]; congruence|].
    destruct (power n (advanced st0)) as [[[rhs st']|err]|]; try exact I.
    destruct IHp as (Hsame & Hpos & Hd). cbn [advanced tokens pos] in Hsame, Hpos, Hd.
    destruct (IH st') as (_ & _ & _ & _ & IHw & _); [congruence|].
    specialize (IHw (Operator (if String.eqb op "*" then Multiply else Divide) [left; rhs]) p0).
    rewrite Hsame in IHw.
    assert (derived Term p0 st' (term_while n
              (Operator (if String.eqb op "*" then Multiply else Divide) [left; rhs]) st'))
      as Hrest.
    { apply IHw; [lia|].
      rewrite (between_split p0 (pos st0) (pos st')) by lia.
      rewrite (between_cons (pos st0) (pos st') _ op Hop) by lia.
      rewrite concat_empty_app, concat_empty_cons.
      unfold is_one_of in Hin. cbn [existsb] in Hin.
      destruct (String.eqb op "*") eqn:Hmul.
      - apply String.eqb_eq in Hmul. subst op. apply (derives_multiply _ _ left rhs Hleft Hd).
      - destruct (String.eqb op "/") eqn:Hdiv; [|discriminate].
        apply String.eqb_eq in Hdiv. subst op. apply (derives_divide _ _ left rhs Hleft Hd). }
    destruct (term_while n _ st') as [[[e st'']|err]|]; try exact I.
    destruct Hrest as (Hsame' & Hpos' & Hd''). rewrite Hsame in Hd''.
    split; [congruence|]. split; [lia|exact Hd'']. }
  assert (Hexpression_while : forall left st0 p0, tokens st0 = tokens st -> p0 <= pos st0 ->
             derives Expression (String.concat "" (between p0 (pos st0) (tokens st0))) left ->
             derived Expression p0 st0 (expression_while (S n) left st0)).
  { intros left st0 p0 Hsame0 Hp0 Hleft. rewrite expression_while_S.
    destruct (tokens st0 !! pos st0) as [op|] eqn:Hop;
      [|split; [reflexivity|]; split; [lia|exact Hleft]].
    destruct (is_one_of ["+"; "-"] op) eqn:Hin;
      [|split; [reflexivity|]; split; [lia|exact Hleft]].
    destruct (IH (advanced st0)) as (_ & _ & IHt & _); [cbn [advanced tokens]; congruence|].
    destruct (term n (advanced st0)) as [[[rhs st']|err]|]; try exact I.
    destruct IHt as (Hsame & Hpos & Hd). cbn [advanced tokens pos] in Hsame, Hpos, Hd.
    destruct (IH st') as (_ & _ & _ & _ & _ & IHw); [congruence|].
    specialize (IHw (Operator (if String.eqb op "+" then Add else Subtract) [left; rhs]) p0).
    rewrite Hsame in IHw.
    assert (derived Expression p0 st' (expression_while n
              (Operator (if String.eqb op "+" then Add else Subtract) [left; rhs]) st'))
      as Hrest.
    { apply IHw; [lia|].
      rewrite (between_split p0 (pos st0) (pos st')) by lia.
      rewrite (between_cons (pos st0) (pos st') _ op Hop) by lia.
      rewrite concat_empty_app, concat_empty_cons.
      unfold is_one_of in Hin. cbn [existsb] in Hin.
      destruct (String.eqb op "+") eqn:Hadd.
      - apply String.eqb_eq in Hadd. subst op. apply (derives_add _ _ left rhs Hleft Hd).
      - destruct (String.eqb op "-") eqn:Hsub; [|discriminate].
        apply String.eqb_eq in Hsub. subst op. apply (derives_subtract _ _ left rhs Hleft Hd). }
    destruct (expression_while n _ st') as [[[e st'']|err]|]; try exact I.
    destruct Hrest as (Hsame' & Hpos' & Hd''). rewrite Hsame in Hd''.
    split; [congruence|]. split; [lia|exact Hd'']. }
  split; [exact Hfactor|]. split; [exact Hpower|]. split; [|split; [|split]].
  - rewrite term_S. unfold mbind, M_bind. destruct (IH st Htoks) as (_ & IHp & _).
    destruct (power n st) as [[[lhs st']|err]|]; try exact I.
    destruct IHp as (Hsame & Hpos & Hd).
    destruct (IH st') as (_ & _ & _ & _ & IHw & _); [congruence|].
    specialize (IHw lhs (pos st) Hpos). rewrite Hsame in IHw.
    specialize (IHw (derives_power_level _ _ Hd)).
    destruct (term_while n lhs st') as [[[e st'']|err]|]; try exact I.
    destruct IHw as (Hsame' & Hpos' & Hd'). rewrite Hsame in Hd'.
    split; [congruence|]. split; [lia|exact Hd'].
  - rewrite expression_S. unfold mbind, M_bind. destruct (IH st Htoks) as (_ & _ & IHt & _).
    destruct (term n st) as [[[lhs st']|err]|]; try exact I.
    destruct IHt as (Hsame & Hpos & Hd).
    destruct (IH st') as (_ & _ & _ & _ & _ & IHw); [congruence|].
    specialize (IHw lhs (pos st) Hpos). rewrite Hsame in IHw.
    specialize (IHw (derives_term _ _ Hd)).
    destruct (expression_while n lhs st') as [[[e st'']|err]|]; try exact I.
    destruct IHw as (Hsame' & Hpos' & Hd'). rewrite Hsame in Hd'.
    split; [congruence|]. split; [lia|exact Hd'].
  - intros left p0 Hp0 Hleft. apply Hterm_while; [reflexivity|exact Hp0|exact Hleft].
  - intros left p0 Hp0 Hleft. apply Hexpression_while; [reflexivity|exact Hp0|exact Hleft].
Qed.

Lemma parse_derives_tokens (s : string) (e : expr) :
  parse s = Some (Ok e) -> derives Expression (String.concat "" (tokenize s)) e.
Proof.
  unfold parse. cbn [tokens].
  destruct (parser_derived (parse_fuel (tokenize s)) {| tokens := tokenize s; pos := 0 |}
              (tokenize_tokens s)) as (_ & _ & _ & He & _).
  destruct (expression _ _) as [[[e' st']|err]|]; try discriminate.
  destruct He as (Hsame & _ & Hd). cbn [tokens pos] in Hsame, Hd.
  destruct (tokens st' !! pos st') eqn:Hend; [discriminate|].
  intros Hp. injection Hp as <-.
  replace (tokenize s) with (between 0 (pos st') (tokenize s)) at 1; [exact Hd|].
  unfold between. cbn [drop]. apply take_ge. apply lookup_ge_None in Hend.
  rewrite Hsame in Hend. lia.
Qed.

(** ** Ratios of Fibonacci numbers *)


Section Ratios.
Context `{Host}.

End Ratios.

(** * The claims of the specification *)

(** C1. For every expression tree with no free symbols, [evaluate(expr, {})]
    is claimed to return a number. On the code it raises instead: the
    numeric leaves are plain host numbers, which have no [evaluate] method.
    Shown at [1 + 2]; [evaluate_closed_raises] shows it for every closed
    tree. *)
Theorem C1_closed_tree_evaluate_raises `{Host} :
  parse "1 + 2" = Some (Ok (Operator Add [Num (PyInt 1); Num (PyInt 2)]))
  /\ closed (Operator Add [Num (PyInt 1); Num (PyInt 2)]) = true
  /\ evaluate ∅ (Operator Add [Num (PyInt 1); Num (PyInt 2)])
     = Raise (AttributeError "'int' object has no attribute 'evaluate'").
Proof. repeat split; vm_compute; reflexivity. Qed.

(** C2. [parse("x + 2 * y")] builds [Add(x, Multiply(2, y))], so the product
    binds tighter; but evaluating it with x=3, y=4 does not return 11: the
    literal [2] is a host int without [evaluate], and the call raises
    [AttributeError]. *)
Theorem C2_parse_evaluate_precedence `{Host} :
  parse "x + 2 * y"
  = Some (Ok (Operator Add [Symbol "x"; Operator Multiply [Num (PyInt 2); Symbol "y"]]))
  /\ evaluate (int_bindings [("x", 3%Z); ("y", 4%Z)])
              (Operator Add [Symbol "x"; Operator Multiply [Num (PyInt 2); Symbol "y"]])
     = Raise (AttributeError "'int' object has no attribute 'evaluate'").
Proof. split; vm_compute; reflexivity. Qed.

(** C3. [parse("2^3^2")] is [Power(2, Power(3, 2))]: the exponent is
    right-associative. Evaluating the tree does not return 512: it raises
    [AttributeError] at the literal [2]. *)
Theorem C3_power_right_associative `{Host} :
  parse "2^3^2"
  = Some (Ok (Operator Power [Num (PyInt 2); Operator Power [Num (PyInt 3); Num (PyInt 2)]]))
  /\ evaluate ∅ (Operator Power [Num (PyInt 2); Operator Power [Num (PyInt 3); Num (PyInt 2)]])
     = Raise (AttributeError "'int' object has no attribute 'evaluate'").
Proof. split; vm_compute; reflexivity. Qed.

(** C4. [evaluate(parse("1/x"), {x: 0})] does not raise
    [ZeroDivisionError]: the numerator [1] is a host int without [evaluate],
    and the call raises [AttributeError] before the denominator is looked at.
    ([evaluate_Divide_zero] is the part that holds: with both operands
    evaluated to numbers the zero test comes first.) *)
Theorem C4_divide_by_zero_instance `{Host} :
  parse "1/x" = Some (Ok (Operator Divide [Num (PyInt 1); Symbol "x"]))
  /\ evaluate (int_bindings [("x", 0%Z)]) (Operator Divide [Num (PyInt 1); Symbol "x"])
     = Raise (AttributeError "'int' object has no attribute 'evaluate'").
Proof. split; vm_compute; reflexivity. Qed.

(** C5 (as the code has it). Tokenization never fails, and there is no
    [LexicalError]: a character that does not begin a token is dropped. For
    every input, each returned token is matched whole by the pattern (a
    numeric literal, an identifier or one operator or parenthesis) and
    consists of token characters only; the tokens, in order, are what is
    left of the input after deleting characters; so a character that is
    neither a digit, a letter, an underscore, an operator, a parenthesis nor
    a point occurs in no token. *)
Theorem C5_tokenize_drops_unmatched_characters (s : string) :
  Forall (fun t => is_token t = true) (tokenize s)
  /\ sublist (concat (map list_ascii_of_string (tokenize s))) (list_ascii_of_string s)
  /\ forall (c : ascii) (t : string),
       token_char c = false -> t ∈ tokenize s -> c ∉ list_ascii_of_string t.
Proof.
  unfold tokenize. split; [|split].
  - eapply Forall_impl; [apply findall_tokens|]. intros t [Ht _]. exact Ht.
  - etransitivity; [apply findall_sublist|apply remove_spaces_sublist].
  - intros c t Hc Ht Hin.
    pose proof (findall_tokens (String.length (remove_spaces s)) (remove_spaces s)) as Hall.
    rewrite Forall_forall in Hall. destruct (Hall t Ht) as [_ Hchars].
    unfold all_chars in Hchars. rewrite forallb_forall in Hchars.
    apply list_elem_of_In in Hin. rewrite (Hchars c Hin) in Hc. discriminate.
Qed.

Lemma C5_tokenize_witness :
  token_char "$" = false
  /\ "2" ∈ tokenize "2 $+ 3"
  /\ "$"%char ∉ list_ascii_of_string "2".
Proof.
  assert (Htokens : tokenize "2 $+ 3" = ["2"; "+"; "3"]) by (vm_compute; reflexivity).
  assert (Hin : "2" ∈ tokenize "2 $+ 3") by (rewrite Htokens; constructor).
  split; [reflexivity|]. split; [exact Hin|].
  apply (proj2 (proj2 (C5_tokenize_drops_unmatched_characters "2 $+ 3")) "$"%char "2");
    [reflexivity|exact Hin].
Defined.

(** C5, the claim as stated fails: ["$"] begins no token, and an input with
    it tokenizes, and parses, as if it were not there. *)
Lemma C5_counterexample :
  begins_token_or_space "$" = false
  /\ tokenize "2 $+ 3" = ["2"; "+"; "3"]
  /\ parse "2 $+ 3" = Some (Ok (Operator Add [Num (PyInt 2); Num (PyInt 3)])).
Proof. repeat split; vm_compute; reflexivity. Qed.

(** C6. An input that ends where a factor is expected is claimed to fail
    with a dedicated parse error after a bounds check. On the code [factor]
    reads the token list at the cursor unguarded (the loops of [expression],
    [term], [power] and the closing-parenthesis test do guard their reads):
    ["2+"], ["("] and the empty input raise [IndexError]. *)
Theorem C6_end_of_input_is_index_error :
  parse "2+" = Some (Raise (IndexError "list index out of range"))
  /\ parse "(" = Some (Raise (IndexError "list index out of range"))
  /\ parse "" = Some (Raise (IndexError "list index out of range")).
Proof. repeat split; vm_compute; reflexivity. Qed.

(** C7. [simplify(Add(0, Symbol("x")))] is claimed to render as [x]. On
    the code the operands are simplified first, by calling [simplify] on
    each, and the operand [0] is a host int without that method: the call
    raises [AttributeError], and the rule that drops zeros is never
    reached. *)
Theorem C7_simplify_add_zero_raises `{Host} :
  simplify (Operator Add [Num (PyInt 0); Symbol "x"])
  = Raise (AttributeError "'int' object has no attribute 'simplify'").
Proof. vm_compute. reflexivity. Qed.

(** C8. [substitute] replaces exactly the symbols whose name is a key of the
    map (it agrees with [substitute_spec] on every tree Python can build, and
    never raises on one); whenever it returns for an operator node, the
    result is a node of the same kind with as many operands, each the
    substitution of the operand at its place; and
    [substitute(parse("x + y"), {"x": Symbol("z")})] renders as ["z + y"]. *)
Theorem C8_substitute_preserves_kind_and_arity :
  (forall (e : expr) (m : gmap string expr),
      well_formed e = true -> substitute e m = Ok (substitute_spec e m))
  /\ (forall (name : string) (m : gmap string expr),
         substitute (Symbol name) m
         = Ok (match m !! name with Some replacement => replacement | None => Symbol name end))
  /\ (forall (k : kind) (args : list expr) (m : gmap string expr) (e' : expr),
         substitute (Operator k args) m = Ok e' ->
         exists args', e' = Operator k args' /\ length args' = length args
                       /\ Forall2 (fun a a' => substitute a m = Ok a') args args')
  /\ (forall `{Host},
         parse "x + y" = Some (Ok (Operator Add [Symbol "x"; Symbol "y"]))
         /\ substitute (Operator Add [Symbol "x"; Symbol "y"]) {[ "x" := Symbol "z" ]}
            = Ok (Operator Add [Symbol "z"; Symbol "y"])
         /\ str (Operator Add [Symbol "z"; Symbol "y"]) = Ok "z + y").
Proof.
  split; [exact substitute_refines_spec|].
  split; [intros name m; simpl; destruct (m !! name); reflexivity|].
  split; [exact substitute_Operator_Ok|].
  intros H. repeat split; vm_compute; reflexivity.
Qed.

Lemma C8_substitute_witness :
  well_formed (Operator Subtract [Symbol "x"; Operator Multiply [Num (PyInt 2); Symbol "y"]]) = true
  /\ substitute (Operator Subtract [Symbol "x"; Operator Multiply [Num (PyInt 2); Symbol "y"]])
                {[ "x" := Operator Add [Symbol "a"; Symbol "b"] ]}
     = Ok (substitute_spec
             (Operator Subtract [Symbol "x"; Operator Multiply [Num (PyInt 2); Symbol "y"]])
             {[ "x" := Operator Add [Symbol "a"; Symbol "b"] ]}).
Proof.
  split; [reflexivity|].
  apply (proj1 C8_substitute_preserves_kind_and_arity). reflexivity.
Defined.

(** C9. Identifiers with a digit or an underscore are claimed to parse to
    a [Symbol]. The tokenizer does produce them as one token, but [factor]
    accepts a name only when [isalpha] holds, so ["x_1"], ["_a"] and
    ["ab2"] are refused with [ValueError]; a name of letters is accepted. *)
Theorem C9_identifier_with_digit_or_underscore_rejected :
  tokenize "x_1" = ["x_1"]
  /\ parse "x_1" = Some (Raise (ValueError "Invalid token: x_1"))
  /\ parse "_a" = Some (Raise (ValueError "Invalid token: _a"))
  /\ parse "ab2" = Some (Raise (ValueError "Invalid token: ab2"))
  /\ parse "ab" = Some (Ok (Symbol "ab")).
Proof. repeat split; vm_compute; reflexivity. Qed.

(** C10. There is no literal node. An input that is one numeric literal
    parses to the bare host number: an int when the literal has no point, a
    float (the decimal rounded to binary64) when it has one; and
    [substitute] returns such a number unchanged, whatever the map. *)
Theorem C10_number_literal_is_bare_number (s : string) :
  is_number_literal s = true ->
  exists n : number,
    parse s = Some (Ok (Num n))
    /\ (if has_dot s then (exists f, n = PyFloat f) /\ py_float s = Ok n
        else n = PyInt (digits_value s))
    /\ forall m : gmap string expr, substitute (Num n) m = Ok (Num n).
Proof.
  intros Hlit.
  destruct (number_literal_shape s Hlit) as (Hmatch & ip & Hne & Hall & Hshape).
  assert (Htokens : tokenize s = [s]).
  { apply tokenize_single_token. unfold match_token. rewrite Hmatch. reflexivity. }
  assert (Hparen : String.eqb s "(" = false).
  { destruct ip as [|d ip']; [contradiction|].
    unfold all_chars in Hall. simpl in Hall. apply andb_prop in Hall as [Hd _].
    destruct Hshape as [->|(frac & _ & ->)]; eapply digit_not_paren; try exact Hd; reflexivity. }
  destruct Hshape as [->|(frac & Hfrac & ->)].
  - rewrite (all_digits_no_dot ip Hall).
    exists (PyInt (digits_value ip)). split; [|split; [reflexivity|reflexivity]].
    apply (parse_single_number ip ip); [exact Htokens|exact Hparen| |].
    + rewrite (isdigit_digits ip Hne Hall). reflexivity.
    + rewrite (all_digits_no_dot ip Hall). unfold py_int.
      rewrite (isdigit_digits ip Hne Hall). reflexivity.
  - rewrite has_dot_point.
    pose proof (py_float_literal ip frac Hne Hall Hfrac) as Hfloat.
    eexists. split; [|split; [split; [eexists; reflexivity|exact Hfloat]|reflexivity]].
    apply (parse_single_number _ (ip ++ String "." frac)); [exact Htokens|exact Hparen| |].
    + rewrite has_dot_point. apply orb_true_r.
    + rewrite has_dot_point. exact Hfloat.
Qed.

Lemma C10_number_literal_witness :
  is_number_literal "3.14" = true
  /\ exists n : number,
       parse "3.14" = Some (Ok (Num n))
       /\ (if has_dot "3.14" then (exists f, n = PyFloat f) /\ py_float "3.14" = Ok n
           else n = PyInt (digits_value "3.14"))
       /\ forall m : gmap string expr, substitute (Num n) m = Ok (Num n).
Proof.
  split; [reflexivity|]. apply (C10_number_literal_is_bare_number "3.14"). reflexivity.
Defined.

(** * Further properties of the code *)

(** ** The parser *)

(** X1. [Parser.parse] returns or raises on every input: the recursion of
    [expression], [term], [power] and [factor] ends, with a depth bounded
    by the number of tokens. *)
Theorem parse_terminates (s : string) : exists r : result expr, parse s = Some r.
Proof. exact (parse_total s). Qed.

(** X2. Every tree [Parser.parse] returns has exactly two operands at
    every operator, names of letters at the symbols, and numbers that are
    ints not below zero or floats: no negative number and no operator of
    one or three operands comes out of the parser. *)
Theorem parse_returns_parser_shaped (s : string) (e : expr) :
  parse s = Some (Ok e) -> parser_shaped e = true.
Proof. exact (parse_shape s e). Qed.

Lemma parse_returns_parser_shaped_witness :
  parse "x + 2 * (y - 0.5)"
  = Some (Ok (Operator Add
                [Symbol "x";
                 Operator Multiply
                   [Num (PyInt 2);
                    Operator Subtract
                      [Symbol "y"; Num (PyFloat (S754_finite false 4503599627370496 (-53)))]]]))
  /\ parser_shaped
       (Operator Add
          [Symbol "x";
           Operator Multiply
             [Num (PyInt 2);
              Operator Subtract
                [Symbol "y"; Num (PyFloat (S754_finite false 4503599627370496 (-53)))]]])
     = true.
Proof.
  split; [vm_compute; reflexivity|].
  apply (parse_returns_parser_shaped "x + 2 * (y - 0.5)"). vm_compute. reflexivity.
Defined.



(** X4. The parser implements its grammar. A text that the grammar
    derives (spaces aside) parses to the derived tree: [+], [-], [*] and
    [/] nest to the left, [^] nests to the right, [^] binds tighter than
    [*] and [/], these tighter than [+] and [-], and a parenthesis holds a
    whole expression. *)
Theorem parse_derived (s : string) (e : expr) :
  derives Expression (remove_spaces s) e -> parse s = Some (Ok e).
Proof. intros Hd. apply parses_as_parse, derives_parses_as, Hd. Qed.

Lemma parse_derived_witness :
  derives Expression (remove_spaces "a - b * c ^ d ^ e - 1")
          (Operator Subtract
             [Operator Subtract
                [Symbol "a";
                 Operator Multiply
                   [Symbol "b";
                    Operator Power [Symbol "c"; Operator Power [Symbol "d"; Symbol "e"]]]];
              Num (PyInt 1)])
  /\ parse "a - b * c ^ d ^ e - 1"
     = Some (Ok (Operator Subtract
                   [Operator Subtract
                      [Symbol "a";
                       Operator Multiply
                         [Symbol "b";
                          Operator Power
                            [Symbol "c"; Operator Power [Symbol "d"; Symbol "e"]]]];
                    Num (PyInt 1)])).
Proof.
  assert (derives Expression (remove_spaces "a - b * c ^ d ^ e - 1")
            (Operator Subtract
               [Operator Subtract
                  [Symbol "a";
                   Operator Multiply
                     [Symbol "b";
                      Operator Power [Symbol "c"; Operator Power [Symbol "d"; Symbol "e"]]]];
                Num (PyInt 1)])) as Hd.
  { apply (derives_subtract "a-b*c^d^e" "1").
    - apply (derives_subtract "a" "b*c^d^e").
      + apply derives_term, derives_power_level, derives_factor, derives_name. reflexivity.
      + apply (derives_multiply "b" "c^d^e").
        * apply derives_power_level, derives_factor, derives_name. reflexivity.
        * apply (derives_power "c" "d^e"); [apply derives_name; reflexivity|].
          apply (derives_power "d" "e"); [apply derives_name; reflexivity|].
          apply derives_factor, derives_name. reflexivity.
    - apply derives_power_level, derives_factor, (derives_int "1"). reflexivity. }
  split; [exact Hd|]. apply (parse_derived "a - b * c ^ d ^ e - 1" _ Hd).
Defined.

Section RenderedTrees.
Context `{Host}.

(** X5. Round trip: rendering a tree with [__str__] and parsing the text
    gives the tree back, for every tree of the parser's shape without a
    float (every operator with two operands, symbols named by letters, ints
    not below zero). The parentheses [__str__] writes are enough for the
    parser to rebuild every nesting. *)
Theorem parse_str (e : expr) :
  parser_shaped e = true -> has_float e = false ->
  exists s, str e = Ok s /\ parse s = Some (Ok e).
Proof. exact (parse_str_shaped e). Qed.
End RenderedTrees.

Lemma parse_str_witness :
  parser_shaped (Operator Subtract
                   [Operator Add [Symbol "x"; Num (PyInt 12)];
                    Operator Power [Symbol "y"; Operator Multiply [Symbol "z"; Symbol "w"]]])
  = true
  /\ has_float (Operator Subtract
                  [Operator Add [Symbol "x"; Num (PyInt 12)];
                   Operator Power [Symbol "y"; Operator Multiply [Symbol "z"; Symbol "w"]]])
     = false
  /\ forall H : Host,
       exists s,
         str (Operator Subtract
                [Operator Add [Symbol "x"; Num (PyInt 12)];
                 Operator Power [Symbol "y"; Operator Multiply [Symbol "z"; Symbol "w"]]])
         = Ok s
         /\ parse s
            = Some (Ok (Operator Subtract
                          [Operator Add [Symbol "x"; Num (PyInt 12)];
                           Operator Power
                             [Symbol "y"; Operator Multiply [Symbol "z"; Symbol "w"]]])).
Proof.
  split; [reflexivity|]. split; [reflexivity|]. intros H.
  apply (parse_str (Operator Subtract
                      [Operator Add [Symbol "x"; Num (PyInt 12)];
                       Operator Power [Symbol "y"; Operator Multiply [Symbol "z"; Symbol "w"]]]));
    reflexivity.
Defined.

Section Equality.
Context `{Host}.

(** X6. [SymbolicExpression.__eq__], which compares renderings, decides
    structural equality on the trees of the parser's shape without floats:
    called on a symbol or an operator it returns without raising, and
    returns [True] exactly when the two trees are the same. *)
Theorem eq_decides_equality (a b : expr) :
  is_number a = false ->
  parser_shaped a = true -> has_float a = false ->
  parser_shaped b = true -> has_float b = false ->
  exists r, __eq__ a b = Ok r /\ (r = true <-> a = b).
Proof.
  intros Hna Hsa Hfa Hsb Hfb.
  destruct (parse_str_shaped a Hsa Hfa) as (sa & Ha & _).
  destruct (parse_str_shaped b Hsb Hfb) as (sb & Hb & _).
  assert (exists r, __eq__ a b = Ok r /\ (r = true <-> (is_number b = false /\ sa = sb)))
    as (r & Hr & Hiff).
  { destruct b as [n|name|k args]; cbn [__eq__ is_number].
    - exists false. split; [reflexivity|]. split; [discriminate|intros [? _]; discriminate].
    - rewrite Ha, Hb. cbn. eexists. split; [reflexivity|]. rewrite String.eqb_eq. tauto.
    - rewrite Ha, Hb. cbn. eexists. split; [reflexivity|]. rewrite String.eqb_eq. tauto. }
  exists r. split; [exact Hr|]. rewrite Hiff. split.
  - intros [_ <-]. apply (str_injective a b sa Hsa Hfa Hsb Hfb Ha Hb).
  - intros <-. split; [exact Hna|congruence].
Qed.
End Equality.

Lemma eq_decides_equality_witness :
  is_number (Operator Add [Symbol "x"; Num (PyInt 1)]) = false
  /\ parser_shaped (Operator Add [Symbol "x"; Num (PyInt 1)]) = true
  /\ has_float (Operator Add [Symbol "x"; Num (PyInt 1)]) = false
  /\ parser_shaped (Operator Add [Symbol "x"; Operator Add [Num (PyInt 1); Symbol "y"]]) = true
  /\ has_float (Operator Add [Symbol "x"; Operator Add [Num (PyInt 1); Symbol "y"]]) = false
  /\ forall H : Host,
       exists r,
         __eq__ (Operator Add [Symbol "x"; Num (PyInt 1)])
                (Operator Add [Symbol "x"; Operator Add [Num (PyInt 1); Symbol "y"]]) = Ok r
         /\ (r = true <->
             Operator Add [Symbol "x"; Num (PyInt 1)]
             = Operator Add [Symbol "x"; Operator Add [Num (PyInt 1); Symbol "y"]]).
Proof.
  repeat (split; [reflexivity|]). intros H.
  apply (eq_decides_equality (Operator Add [Symbol "x"; Num (PyInt 1)])
           (Operator Add [Symbol "x"; Operator Add [Num (PyInt 1); Symbol "y"]]));
    reflexivity.
Defined.

(** ** The tokenizer *)

(** X7. On a text in which every character begins a token (a digit, a
    letter, an underscore, an operator or a parenthesis) the tokenizer
    drops nothing: the tokens, put together, are the text. *)
Theorem tokenize_lossless (s : string) :
  all_chars begins_token s = true -> String.concat "" (tokenize s) = s.
Proof.
  intros Hall. unfold tokenize.
  rewrite (remove_spaces_token_chars s).
  - apply findall_lossless; [reflexivity|exact Hall].
  - revert Hall. apply all_chars_weaken. exact begins_token_token_char.
Qed.

Lemma tokenize_lossless_witness :
  all_chars begins_token "x_1+(y2*30)" = true
  /\ String.concat "" (tokenize "x_1+(y2*30)") = "x_1+(y2*30)".
Proof.
  split; [reflexivity|]. apply (tokenize_lossless "x_1+(y2*30)"). reflexivity.
Defined.

(** ** Evaluation *)

Section Evaluation.
Context `{Host}.

(** X8. A tree with a numeric leaf anywhere never evaluates: whatever the
    bindings, [evaluate] raises (the leaf is a host number without an
    [evaluate] method, unless an operand before it raises first). So no
    input with a numeric literal can be parsed and then evaluated. *)
Theorem evaluate_with_number_raises (kwargs : gmap string pyobject) (e : expr) :
  has_number e = true -> exists err, evaluate kwargs e = Raise err.
Proof. exact (evaluate_number_raises kwargs e). Qed.

(** X9. [evaluate] returns a tree equal to the one it is called on when
    the tree has no numeric leaf and none of its symbols is bound. *)
Theorem evaluate_unbound_is_identity (kwargs : gmap string pyobject) (e : expr) :
  keyword_arguments kwargs ->
  well_formed e = true -> has_number e = false -> unbound kwargs e = true ->
  evaluate kwargs e = Ok e.
Proof. intros _. exact (evaluate_unbound kwargs e). Qed.

(** X10. With every symbol bound to an int, [evaluate] computes the value
    of the tree over the integers, exactly: the sum and the product of all
    the operands of [Add] and [Multiply], the difference for [Subtract],
    the power for [Power] with an exponent that is not negative. *)
Theorem evaluate_computes_int_value (env : gmap string Z) (e : expr) (z : Z) :
  keyword_arguments env ->
  well_formed e = true -> int_value env e = Some z ->
  evaluate (int_kwargs env) e = Ok (Num (PyInt z)).
Proof. intros _. exact (evaluate_int_value env e z). Qed.

(** X11. When both operands of a [Divide] evaluate to numbers and the
    divisor equals zero (the int [0], or a float zero), [evaluate] raises
    [ZeroDivisionError] with the message ["Division by zero in "] followed
    by the rendering of the node; the host's division is not reached. *)
Theorem evaluate_division_by_zero (kwargs : gmap string pyobject) (l r : expr) (a b : number) :
  keyword_arguments kwargs ->
  well_formed l = true -> well_formed r = true ->
  evaluate kwargs l = Ok (Num a) -> evaluate kwargs r = Ok (Num b) ->
  py_eq_int b 0 = true ->
  exists s, str (Operator Divide [l; r]) = Ok s
            /\ evaluate kwargs (Operator Divide [l; r])
               = Raise (ZeroDivisionError ("Division by zero in " ++ s)).
Proof. intros _. exact (evaluate_Divide_zero kwargs l r a b). Qed.
End Evaluation.

Lemma evaluate_with_number_raises_witness :
  has_number (Operator Add [Symbol "x"; Operator Multiply [Num (PyInt 2); Symbol "y"]]) = true
  /\ forall H : Host,
       exists err,
         evaluate (int_bindings [("x", 3%Z); ("y", 4%Z)])
                  (Operator Add [Symbol "x"; Operator Multiply [Num (PyInt 2); Symbol "y"]])
         = Raise err.
Proof.
  split; [reflexivity|]. intros H.
  apply (evaluate_with_number_raises (int_bindings [("x", 3%Z); ("y", 4%Z)])). reflexivity.
Defined.

Lemma evaluate_unbound_is_identity_witness :
  keyword_arguments (int_bindings [("z", 1%Z)])
  /\ well_formed (Operator Subtract [Symbol "x"; Operator Add [Symbol "y"]]) = true
  /\ has_number (Operator Subtract [Symbol "x"; Operator Add [Symbol "y"]]) = false
  /\ unbound (int_bindings [("z", 1%Z)])
             (Operator Subtract [Symbol "x"; Operator Add [Symbol "y"]]) = true
  /\ forall H : Host,
       evaluate (int_bindings [("z", 1%Z)]) (Operator Subtract [Symbol "x"; Operator Add [Symbol "y"]])
       = Ok (Operator Subtract [Symbol "x"; Operator Add [Symbol "y"]]).
Proof.
  repeat (split; [reflexivity|]). intros H.
  apply (evaluate_unbound_is_identity (int_bindings [("z", 1%Z)])); reflexivity.
Defined.

Lemma evaluate_computes_int_value_witness :
  keyword_arguments ({[ "x" := 3%Z; "y" := 4%Z ]} : gmap string Z)
  /\ well_formed (Operator Subtract
                    [Operator Multiply [Symbol "x"; Symbol "y"; Symbol "y"];
                     Operator Power [Symbol "x"; Symbol "y"]]) = true
  /\ int_value {[ "x" := 3%Z; "y" := 4%Z ]}
               (Operator Subtract
                  [Operator Multiply [Symbol "x"; Symbol "y"; Symbol "y"];
                   Operator Power [Symbol "x"; Symbol "y"]]) = Some (-33)%Z
  /\ forall H : Host,
       evaluate (int_kwargs {[ "x" := 3%Z; "y" := 4%Z ]})
                (Operator Subtract
                   [Operator Multiply [Symbol "x"; Symbol "y"; Symbol "y"];
                    Operator Power [Symbol "x"; Symbol "y"]])
       = Ok (Num (PyInt (-33))).
Proof.
  repeat (split; [reflexivity|]). intros H.
  apply (evaluate_computes_int_value {[ "x" := 3%Z; "y" := 4%Z ]}); reflexivity.
Defined.

Lemma evaluate_division_by_zero_witness :
  keyword_arguments (int_bindings [("a", 1%Z); ("b", 0%Z)])
  /\ well_formed (Symbol "a") = true /\ well_formed (Symbol "b") = true
  /\ py_eq_int (PyInt 0) 0 = true
  /\ forall H : Host,
       evaluate (int_bindings [("a", 1%Z); ("b", 0%Z)]) (Symbol "a") = Ok (Num (PyInt 1))
       /\ evaluate (int_bindings [("a", 1%Z); ("b", 0%Z)]) (Symbol "b") = Ok (Num (PyInt 0))
       /\ exists s, str (Operator Divide [Symbol "a"; Symbol "b"]) = Ok s
                    /\ evaluate (int_bindings [("a", 1%Z); ("b", 0%Z)])
                                (Operator Divide [Symbol "a"; Symbol "b"])
                       = Raise (ZeroDivisionError ("Division by zero in " ++ s)).
Proof.
  do 4 (split; [reflexivity|]). intros H.
  split; [reflexivity|]. split; [reflexivity|].
  apply (evaluate_division_by_zero (int_bindings [("a", 1%Z); ("b", 0%Z)])
           (Symbol "a") (Symbol "b") (PyInt 1) (PyInt 0)); reflexivity.
Defined.

(** ** Simplification *)

Section Simplification.
Context `{Host}.

(** X12. On a tree with a numeric leaf [simplify] raises [AttributeError]:
    the leaf is a host number without a [simplify] method. The rules for
    the operands 0 and 1 are never reached. *)
Theorem simplify_with_number_raises (e : expr) :
  well_formed e = true -> has_number e = true ->
  exists n, simplify e = no_attribute n "simplify".
Proof.
  intros Hwf Hnum. pose proof (simplify_by_leaves e Hwf) as Hout.
  rewrite Hnum in Hout. exact Hout.
Qed.

(** X13. On a tree without numeric leaves [simplify] does one thing: it
    takes away the [Add] and [Multiply] nodes that have one operand. The
    result is a tree it leaves as it is: [simplify] is idempotent. *)
Theorem simplify_unwraps (e : expr) :
  well_formed e = true -> has_number e = false ->
  simplify e = Ok (unwrap e) /\ simplify (unwrap e) = Ok (unwrap e).
Proof.
  intros Hwf Hnum. pose proof (simplify_unwrap e Hwf Hnum) as Hs.
  split; [exact Hs|]. pose proof (simplify_by_leaves e Hwf) as Hout.
  rewrite Hnum, Hs in Hout. destruct Hout as (e' & He' & Hnum' & Hwf').
  injection He' as <-. rewrite (simplify_unwrap _ Hwf' Hnum'), unwrap_idempotent. reflexivity.
Qed.

(** X14. [simplify] never changes a tree the parser returned: with a
    numeric literal in the input it raises [AttributeError], without one
    it returns the tree as it is. *)
Theorem simplify_parsed (s : string) (e : expr) :
  parse s = Some (Ok e) ->
  if has_number e then exists n, simplify e = no_attribute n "simplify"
  else simplify e = Ok e.
Proof.
  intros Hparse. pose proof (parse_shape s e Hparse) as Hshape.
  pose proof (parser_shaped_well_formed e Hshape) as Hwf.
  destruct (has_number e) eqn:Hnum.
  - pose proof (simplify_by_leaves e Hwf) as Hout. rewrite Hnum in Hout. exact Hout.
  - rewrite (simplify_unwrap e Hwf Hnum), (unwrap_parser_shaped e Hshape). reflexivity.
Qed.
End Simplification.

Lemma simplify_with_number_raises_witness :
  well_formed (Operator Multiply [Symbol "x"; Num (PyInt 1)]) = true
  /\ has_number (Operator Multiply [Symbol "x"; Num (PyInt 1)]) = true
  /\ forall H : Host,
       exists n, simplify (Operator Multiply [Symbol "x"; Num (PyInt 1)])
                 = no_attribute n "simplify".
Proof.
  repeat (split; [reflexivity|]). intros H.
  apply (simplify_with_number_raises (Operator Multiply [Symbol "x"; Num (PyInt 1)]));
    reflexivity.
Defined.

Lemma simplify_unwraps_witness :
  well_formed (Operator Subtract [Operator Add [Operator Multiply [Symbol "x"]]; Symbol "y"])
  = true
  /\ has_number (Operator Subtract [Operator Add [Operator Multiply [Symbol "x"]]; Symbol "y"])
     = false
  /\ forall H : Host,
       simplify (Operator Subtract [Operator Add [Operator Multiply [Symbol "x"]]; Symbol "y"])
       = Ok (unwrap (Operator Subtract
                       [Operator Add [Operator Multiply [Symbol "x"]]; Symbol "y"]))
       /\ simplify (unwrap (Operator Subtract
                              [Operator Add [Operator Multiply [Symbol "x"]]; Symbol "y"]))
          = Ok (unwrap (Operator Subtract
                          [Operator Add [Operator Multiply [Symbol "x"]]; Symbol "y"])).
Proof.
  do 2 (split; [reflexivity|]). intros H.
  apply (simplify_unwraps
           (Operator Subtract [Operator Add [Operator Multiply [Symbol "x"]]; Symbol "y"]));
    reflexivity.
Defined.

Lemma simplify_parsed_witness :
  parse "x * (y + z)"
  = Some (Ok (Operator Multiply [Symbol "x"; Operator Add [Symbol "y"; Symbol "z"]]))
  /\ forall H : Host,
       simplify (Operator Multiply [Symbol "x"; Operator Add [Symbol "y"; Symbol "z"]])
       = Ok (Operator Multiply [Symbol "x"; Operator Add [Symbol "y"; Symbol "z"]]).
Proof.
  split; [vm_compute; reflexivity|]. intros H.
  apply (simplify_parsed "x * (y + z)"
           (Operator Multiply [Symbol "x"; Operator Add [Symbol "y"; Symbol "z"]])).
  vm_compute. reflexivity.
Defined.

(** ** Substitution *)

(** X15. [substitute] returns a tree equal to the one it is given when no
    symbol of the tree is a key of the substitution; in particular for the
    empty substitution. *)
Theorem substitute_unbound_is_identity (e : expr) (m : gmap string expr) :
  well_formed e = true -> unbound m e = true -> substitute e m = Ok e.
Proof.
  intros Hwf Hun. rewrite (substitute_refines_spec e m Hwf), (substitute_spec_unbound m e Hun).
  reflexivity.
Qed.

Lemma substitute_unbound_is_identity_witness :
  well_formed (Operator Power [Symbol "x"; Operator Add [Symbol "y"; Num (PyInt 2)]]) = true
  /\ unbound ({[ "z" := Symbol "w" ]} : gmap string expr)
             (Operator Power [Symbol "x"; Operator Add [Symbol "y"; Num (PyInt 2)]]) = true
  /\ substitute (Operator Power [Symbol "x"; Operator Add [Symbol "y"; Num (PyInt 2)]])
                {[ "z" := Symbol "w" ]}
     = Ok (Operator Power [Symbol "x"; Operator Add [Symbol "y"; Num (PyInt 2)]]).
Proof.
  repeat (split; [reflexivity|]).
  apply (substitute_unbound_is_identity
           (Operator Power [Symbol "x"; Operator Add [Symbol "y"; Num (PyInt 2)]]));
    reflexivity.
Defined.

(** X16. [substitute] keeps trees well formed: on a tree Python can build,
    with replacements Python can build, it returns (it does not raise) a
    tree Python can build. *)
Theorem substitute_well_formed (e : expr) (m : gmap string expr) :
  well_formed e = true -> map_Forall (fun _ r => well_formed r = true) m ->
  exists e', substitute e m = Ok e' /\ well_formed e' = true.
Proof.
  intros Hwf Hm. exists (substitute_spec e m).
  split; [apply (substitute_refines_spec e m Hwf)|apply (substitute_spec_well_formed m e Hwf Hm)].
Qed.

Lemma substitute_well_formed_witness :
  well_formed (Operator Divide [Symbol "x"; Symbol "y"]) = true
  /\ map_Forall (fun _ r => well_formed r = true)
                ({[ "x" := Operator Add [Symbol "a"; Symbol "b"] ]} : gmap string expr)
  /\ exists e',
       substitute (Operator Divide [Symbol "x"; Symbol "y"])
                  {[ "x" := Operator Add [Symbol "a"; Symbol "b"] ]} = Ok e'
       /\ well_formed e' = true.
Proof.
  assert (map_Forall (fun _ r => well_formed r = true)
            ({[ "x" := Operator Add [Symbol "a"; Symbol "b"] ]} : gmap string expr)) as Hm
      by (apply map_Forall_singleton; reflexivity).
  split; [reflexivity|]. split; [exact Hm|].
  apply (substitute_well_formed (Operator Divide [Symbol "x"; Symbol "y"]) _ eq_refl Hm).
Defined.

(** X17. Two substitutions in a row are one substitution: substituting
    with [m1] and then with [m2] gives what substituting once gives with
    the map that sends a key of [m1] to its replacement with [m2] applied
    to it, and any other key of [m2] to its replacement in [m2]. *)
Theorem substitute_twice (e : expr) (m1 m2 : gmap string expr) :
  well_formed e = true -> map_Forall (fun _ r => well_formed r = true) m1 ->
  exists e1, substitute e m1 = Ok e1 /\ substitute e1 m2 = substitute e (compose m1 m2).
Proof.
  intros Hwf Hm. exists (substitute_spec e m1).
  split; [apply (substitute_refines_spec e m1 Hwf)|].
  rewrite (substitute_refines_spec _ m2 (substitute_spec_well_formed m1 e Hwf Hm)).
  rewrite (substitute_refines_spec e _ Hwf), substitute_spec_compose. reflexivity.
Qed.

Lemma substitute_twice_witness :
  well_formed (Operator Add [Symbol "x"; Symbol "y"]) = true
  /\ map_Forall (fun _ r => well_formed r = true)
                ({[ "x" := Operator Multiply [Symbol "y"; Symbol "z"] ]} : gmap string expr)
  /\ exists e1,
       substitute (Operator Add [Symbol "x"; Symbol "y"])
                  {[ "x" := Operator Multiply [Symbol "y"; Symbol "z"] ]} = Ok e1
       /\ substitute e1 {[ "y" := Num (PyInt 2) ]}
          = substitute (Operator Add [Symbol "x"; Symbol "y"])
                       (compose {[ "x" := Operator Multiply [Symbol "y"; Symbol "z"] ]}
                                {[ "y" := Num (PyInt 2) ]}).
Proof.
  assert (map_Forall (fun _ r => well_formed r = true)
            ({[ "x" := Operator Multiply [Symbol "y"; Symbol "z"] ]} : gmap string expr)) as Hm
      by (apply map_Forall_singleton; reflexivity).
  split; [reflexivity|]. split; [exact Hm|].
  apply (substitute_twice (Operator Add [Symbol "x"; Symbol "y"]) _ _ eq_refl Hm).
Defined.

(** ** Fibonacci numbers and solids ([sacred_geometry.py]) *)

(** X18. [Fibonacci.generate(n)] returns the first [n] Fibonacci numbers,
    for every [n] that is not negative, on a new object and after any
    earlier calls: the memo always holds the two first entries and nothing
    but Fibonacci numbers at their indices, so no lookup in it fails, and
    the call leaves it so. *)
Theorem generate_fibonacci (memo : gmap Z Z) (n : Z) :
  memo_ok memo -> (0 <= n)%Z ->
  exists memo',
    generate memo n = (memo', Returns ((fun i => fibonacci (Z.to_nat i)) <$> range 0 n))
    /\ memo_ok memo'.
Proof. exact (generate_returns memo n). Qed.

Lemma generate_fibonacci_witness :
  memo_ok Fibonacci_init /\ (0 <= 10)%Z
  /\ (fun i => fibonacci (Z.to_nat i)) <$> range 0 10 = [0; 1; 1; 2; 3; 5; 8; 13; 21; 34]%Z
  /\ exists memo',
       generate Fibonacci_init 10
       = (memo', Returns ((fun i => fibonacci (Z.to_nat i)) <$> range 0 10))
       /\ memo_ok memo'.
Proof.
  split; [exact Fibonacci_init_ok|]. split; [lia|]. split; [reflexivity|].
  apply (generate_fibonacci Fibonacci_init 10 Fibonacci_init_ok). lia.
Defined.

Section SymbolicFibonacci.
Context `{Host}.

(** X19. [Fibonacci.symbolic_generate(n)] returns [n] trees over the
    symbols [F0] and [F1], and the tree at index [i] evaluates, with [F0]
    and [F1] bound to ints, to the [i]-th number of the sequence that
    starts with these two and adds the two before: with 0 and 1, to the
    [i]-th Fibonacci number that [generate] returns. *)
Theorem symbolic_generate_evaluates (n : Z) :
  (0 <= n)%Z ->
  exists seq,
    symbolic_generate n = Ok seq /\ length seq = Z.to_nat n
    /\ forall (f0 f1 : Z) (i : nat) (e : expr),
         seq !! i = Some e ->
         evaluate (int_kwargs {[ "F0" := f0; "F1" := f1 ]}) e
         = Ok (Num (PyInt (fibonacci_from f0 f1 i))).
Proof.
  intros Hn. destruct (symbolic_generate_values 0 1 n Hn) as (seq & Hseq & Hlen & _).
  exists seq. split; [exact Hseq|]. split; [exact Hlen|].
  intros f0 f1 i e Hi.
  destruct (symbolic_generate_values f0 f1 n Hn) as (seq' & Hseq' & _ & Hvalues).
  assert (seq' = seq) as -> by congruence.
  destruct (Hvalues i e Hi) as [Hwf Hvalue].
  apply (evaluate_int_value _ e _ Hwf Hvalue).
Qed.


(** X21. The trees [Cube.volume()] and [Cube.surface_area()] build, for
    whatever edge length, hold the exponents 3 and 2 and the factor 6 as
    host numbers: they are built without an error, and evaluating them
    raises, whatever is bound. *)
Theorem Cube_formulas_never_evaluate (edge_length : expr) (kwargs : gmap string pyobject) :
  exists volume area,
    Cube_volume edge_length = Ok volume /\ Cube_surface_area edge_length = Ok area
    /\ (exists err, evaluate kwargs volume = Raise err)
    /\ (exists err, evaluate kwargs area = Raise err).
Proof.
  eexists. eexists. split; [reflexivity|]. split; [reflexivity|].
  split; apply evaluate_number_raises; cbn [has_number existsb];
    rewrite ?orb_true_r; reflexivity.
Qed.
End SymbolicFibonacci.

Lemma symbolic_generate_evaluates_witness :
  (0 <= 6)%Z
  /\ forall H : Host,
       exists seq,
         symbolic_generate 6 = Ok seq /\ length seq = Z.to_nat 6
         /\ forall (f0 f1 : Z) (i : nat) (e : expr),
              seq !! i = Some e ->
              evaluate (int_kwargs {[ "F0" := f0; "F1" := f1 ]}) e
              = Ok (Num (PyInt (fibonacci_from f0 f1 i))).
Proof.
  split; [lia|]. intros H. apply (symbolic_generate_evaluates 6). lia.
Defined.

(** ** Numeric literals, from the input to the result *)

(** X22. The tree [Parser.parse] returns has a numeric leaf exactly when
    one of the tokens of the input is a numeric literal (digits, or a
    token with a point): no literal is lost, and none comes from anything
    else. *)
Theorem parse_has_number (s : string) (e : expr) :
  parse s = Some (Ok e) -> has_number e = existsb numeric_token (tokenize s).
Proof. exact (parse_numbers s e). Qed.

Lemma parse_has_number_witness :
  parse "a * (b - 2.5)"
  = Some (Ok (Operator Multiply
                [Symbol "a";
                 Operator Subtract
                   [Symbol "b"; Num (PyFloat (S754_finite false 5629499534213120 (-51)))]]))
  /\ has_number (Operator Multiply
                   [Symbol "a";
                    Operator Subtract
                      [Symbol "b"; Num (PyFloat (S754_finite false 5629499534213120 (-51)))]])
     = existsb numeric_token (tokenize "a * (b - 2.5)").
Proof.
  split; [vm_compute; reflexivity|].
  apply (parse_has_number "a * (b - 2.5)"). vm_compute. reflexivity.
Defined.

Section Interface.
Context `{Host}.

(** X23. [USCLInterface.evaluate_expression] returns [None] for every
    expression with a numeric literal among its tokens, whatever the
    context: either the parser raises, or evaluation does at the literal,
    and the exception is caught. *)
Theorem evaluate_expression_numeric_literal (expression : string)
    (context : option (gmap string pyobject)) :
  existsb numeric_token (tokenize expression) = true ->
  evaluate_expression expression context = Some None.
Proof.
  intros Hnum. unfold evaluate_expression.
  destruct (parse_total expression) as [[e|err] Hparse]; rewrite Hparse; [|reflexivity].
  unfold ExpressionEvaluator_evaluate.
  destruct (default ∅ context !! "self"); [reflexivity|].
  destruct (default ∅ context !! "expr"); [reflexivity|].
  destruct (evaluate_number_raises (default ∅ context) e) as [err ->]; [|reflexivity].
  rewrite (parse_numbers expression e Hparse). exact Hnum.
Qed.

(** X24. From the text to the value: for an expression the grammar
    derives (spaces aside) and a context that binds its symbols to ints,
    [USCLInterface.evaluate_expression] returns the value of the derived
    tree over the integers, when it has one (no numeric literal, no
    division, no negative exponent). *)
Theorem evaluate_expression_int_value (expression : string) (e : expr)
    (env : gmap string Z) (z : Z) :
  env !! "self" = None -> env !! "expr" = None ->
  derives Expression (remove_spaces expression) e ->
  int_value env e = Some z ->
  evaluate_expression expression (Some (int_kwargs env)) = Some (Some (Num (PyInt z))).
Proof.
  intros Hself Hexpr Hd Hvalue. unfold evaluate_expression.
  pose proof (parses_as_parse _ _ (derives_parses_as _ _ _ Hd)) as Hparse.
  rewrite Hparse. unfold ExpressionEvaluator_evaluate. cbn [default id].
  assert (int_kwargs env !! "self" = None) as ->
      by (unfold int_kwargs; rewrite lookup_fmap, Hself; reflexivity).
  assert (int_kwargs env !! "expr" = None) as ->
      by (unfold int_kwargs; rewrite lookup_fmap, Hexpr; reflexivity).
  rewrite (evaluate_int_value env e z); [reflexivity| |exact Hvalue].
  apply parser_shaped_well_formed, (parse_shape expression e Hparse).
Qed.
End Interface.

Lemma evaluate_expression_numeric_literal_witness :
  existsb numeric_token (tokenize "x + 2 * y") = true
  /\ forall H : Host,
       evaluate_expression "x + 2 * y" (Some (int_bindings [("x", 3%Z); ("y", 4%Z)]))
       = Some None.
Proof.
  split; [reflexivity|]. intros H.
  apply (evaluate_expression_numeric_literal "x + 2 * y"). reflexivity.
Defined.

Lemma evaluate_expression_int_value_witness :
  ({[ "x" := 3%Z; "y" := 4%Z ]} : gmap string Z) !! "self" = None
  /\ ({[ "x" := 3%Z; "y" := 4%Z ]} : gmap string Z) !! "expr" = None
  /\ derives Expression (remove_spaces "x + y * y")
             (Operator Add [Symbol "x"; Operator Multiply [Symbol "y"; Symbol "y"]])
  /\ int_value {[ "x" := 3%Z; "y" := 4%Z ]}
               (Operator Add [Symbol "x"; Operator Multiply [Symbol "y"; Symbol "y"]])
     = Some 19%Z
  /\ forall H : Host,
       evaluate_expression "x + y * y" (Some (int_kwargs {[ "x" := 3%Z; "y" := 4%Z ]}))
       = Some (Some (Num (PyInt 19))).
Proof.
  assert (derives Expression (remove_spaces "x + y * y")
            (Operator Add [Symbol "x"; Operator Multiply [Symbol "y"; Symbol "y"]])) as Hd.
  { apply (derives_add "x" "y*y").
    - apply derives_term, derives_power_level, derives_factor, derives_name. reflexivity.
    - apply (derives_multiply "y" "y").
      + apply derives_power_level, derives_factor, derives_name. reflexivity.
      + apply derives_factor, derives_name. reflexivity. }
  split; [reflexivity|]. split; [reflexivity|]. split; [exact Hd|]. split; [reflexivity|].
  intros H.
  apply (evaluate_expression_int_value "x + y * y"
           (Operator Add [Symbol "x"; Operator Multiply [Symbol "y"; Symbol "y"]])
           {[ "x" := 3%Z; "y" := 4%Z ]} 19);
    [reflexivity|reflexivity|exact Hd|reflexivity].
Defined.

(** ** The language the parser accepts *)

(** X25. Whatever [Parser.parse] returns is derived by the grammar: when
    it returns a tree, the grammar derives that tree from the tokens of
    the input, put together. With X4, on an input from which the tokenizer
    drops nothing, [parse] returns a tree exactly when the grammar derives
    it. *)
Theorem parse_only_derived (s : string) (e : expr) :
  parse s = Some (Ok e) -> derives Expression (String.concat "" (tokenize s)) e.
Proof. exact (parse_derives_tokens s e). Qed.

Lemma parse_only_derived_witness :
  parse "(a + 1.5) * b"
  = Some (Ok (Operator Multiply
                [Operator Add
                   [Symbol "a"; Num (PyFloat (S754_finite false 6755399441055744 (-52)))];
                 Symbol "b"]))
  /\ derives Expression (String.concat "" (tokenize "(a + 1.5) * b"))
             (Operator Multiply
                [Operator Add
                   [Symbol "a"; Num (PyFloat (S754_finite false 6755399441055744 (-52)))];
                 Symbol "b"]).
Proof.
  split; [vm_compute; reflexivity|].
  apply (parse_only_derived "(a + 1.5) * b"). vm_compute. reflexivity.
Defined.

(** ** Ratios of Fibonacci numbers *)

Section FibonacciRatios.
Context `{Host}.

End FibonacciRatios.

